(** * cmlinknode: SIM activation workflow

    A shallow embedding of [processIccid] and [main] of the two programs
    of the repository: the command line variant (activate_sim.js) and the
    HTTP triggered variant (the unnamed source file with the express
    server), together with the properties of the activation state machine,
    the retry loop, the promise pool and the run summary.

    The Playwright browser is the environment.  Every awaited Playwright
    call either resolves or rejects with an [Error] carrying a message; the
    environment is an oracle that fixes, per identifier, per attempt and per
    call site, which of the two happens.  Each call site is executed at most
    once per attempt, so the oracle loses no generality.

    JavaScript statements are functions from the local state of
    [processIccid] (the variable [result], a counter naming the objects
    Playwright hands out, the number of [Math.random()] draws) to a
    completion ([Normal], [Return] or [Throw]), the calls made, and the new
    state.  [try]/[catch]/[finally] and [return] inside [try] follow the
    completion rules of the language.

    JavaScript numbers are IEEE 754 binary64 values: [float] with the
    primitive arithmetic (round to nearest, ties to even).

    Not modelled: the logger (its calls are taken not to throw), the
    synchronous [page.url()], reading iccids.csv ([main] is given the list
    [loadIccids()] resolved to), writing the CSV files, the express routes,
    and what the callers of [main] do when it rejects. *)

From Stdlib Require Import PrimFloat.
From Stdlib Require Import String Ascii Bool Arith NArith Lia.
From Stdlib Require Import List Permutation.
Import ListNotations.
Local Open Scope string_scope.
Local Open Scope list_scope.
Local Open Scope nat_scope.

(** ** Data model *)

(** [{ iccid, status, error_detail }] *)
Record Outcome := mkOutcome {
  iccid : string;
  status : string;
  error_detail : string
}.

(** config.json: [{ url, selectors: { iccid_input, next_button, activate_button } }] *)
Record Selectors := mkSelectors {
  iccid_input : string;
  next_button : string;
  activate_button : string
}.

Record Config := mkConfig {
  url : string;
  selectors : Selectors
}.

(** ** The Playwright environment *)

(** Call sites: the awaited Playwright calls of [initBrowser] and
    [processIccid], in the order of the source text. *)
Inductive site :=
| at_launch | at_newContext | at_addInitScript
| at_newPage | at_goto | at_title | at_mouse_move | at_mouse_delay
| at_wait_input | at_fill | at_scroll | at_scroll_delay
| at_wait_next | at_click_next
| at_step1_activated | at_step1_issue | at_step1_processing
| at_wait_activate | at_click_activate
| at_step2_activated | at_step2_processing
| at_page_close | at_browser_close.

(** [None]: the awaited call resolves.  [Some m]: it rejects with an error
    whose [message] is [m].  [on_browser] answers the calls made once per
    identifier, [on_page] those made in the given attempt. *)
Record driver := mkDriver {
  on_browser : string -> site -> option string;
  on_page : string -> nat -> site -> option string
}.

(** Objects handed out by Playwright, named by allocation order inside one
    call of [processIccid]. *)
Inductive object :=
| Chromium
| Browser (b : nat)
| Context (c : nat)
| Page (p : nat).

Inductive api :=
| launch
| newContext
| addInitScript
| newPage
| goto (href : string) (timeout : N)
| title
| mouse_move (x y : float)
| waitForTimeout (ms : float)
| waitForSelector (selector : string) (timeout : N)
| fill (selector value : string)
| evaluate_scrollTo_bottom
| click (selector : string)
| close.

Inductive reply :=
| Done
| Made (o : object)
| Failed (message : string).

(** One awaited call, as observed from outside. *)
Record event := mkEvent {
  origin : site;
  target : object;
  request : api;
  response : reply
}.

(** ** Completions of JavaScript statements *)

Inductive completion (A : Type) :=
| Normal (a : A)
| Return (r : Outcome)
| Throw (message : string).
Arguments Normal {A} a.
Arguments Return {A} r.
Arguments Throw {A} message.

(** Local state of one [processIccid] call: the allocation counter, the
    number of [Math.random()] draws so far and the variable [result]. *)
Record store := mkStore {
  heap : nat;
  draws : nat;
  result : Outcome
}.

Definition M (A : Type) : Type := store -> completion A * list event * store.

Definition ret {A} (a : A) : M A := fun s => (Normal a, [], s).

Definition bind {A B} (m : M A) (k : A -> M B) : M B :=
  fun s =>
    match m s with
    | (Normal a, t1, s1) =>
        match k a s1 with
        | (c, t2, s2) => (c, t1 ++ t2, s2)
        end
    | (Return r, t1, s1) => (Return r, t1, s1)
    | (Throw e, t1, s1) => (Throw e, t1, s1)
    end.

Declare Scope js_scope.
Delimit Scope js_scope with js.
Notation "x <- m ;; k" := (bind m (fun x => k))
  (at level 61, m at next level, right associativity) : js_scope.
Notation "m ;; k" := (bind m (fun _ => k))
  (at level 61, right associativity) : js_scope.
Local Open Scope js_scope.

(** [await target.request(...)] where the value is not used. *)
Definition call (at_ : site) (o : object) (a : api) (r : option string) : M unit :=
  fun s =>
    match r with
    | None => (Normal tt, [mkEvent at_ o a Done], s)
    | Some e => (Throw e, [mkEvent at_ o a (Failed e)], s)
    end.

(** [await target.request(...)] returning a new object. *)
Definition create (at_ : site) (o : object) (a : api) (mk : nat -> object)
  (r : option string) : M nat :=
  fun s =>
    match r with
    | None => (Normal (heap s), [mkEvent at_ o a (Made (mk (heap s)))],
               mkStore (S (heap s)) (draws s) (result s))
    | Some e => (Throw e, [mkEvent at_ o a (Failed e)], s)
    end.

(** [Math.random()] *)
Definition random (rnd : nat -> float) : M float :=
  fun s => (Normal (rnd (draws s)), [],
            mkStore (heap s) (S (draws s)) (result s)).

(** [result = r] *)
Definition assign_result (r : Outcome) : M unit :=
  fun s => (Normal tt, [], mkStore (heap s) (draws s) r).

(** [result.error_detail = e.message] *)
Definition set_error_detail (e : string) : M unit :=
  fun s => (Normal tt, [],
            mkStore (heap s) (draws s)
              (mkOutcome (iccid (result s)) (status (result s)) e)).

(** [return result] *)
Definition return_result {A} : M A :=
  fun s => (Return (result s), [], s).

(** [try { m } catch (e) { h e }] *)
Definition try_catch {A} (m : M A) (h : string -> M A) : M A :=
  fun s =>
    match m s with
    | (Throw e, t1, s1) =>
        match h e s1 with
        | (c, t2, s2) => (c, t1 ++ t2, s2)
        end
    | other => other
    end.

(** [try { m } finally { f }]: an abrupt completion of [f] replaces the
    completion of [m]. *)
Definition try_finally {A} (m : M A) (f : M unit) : M A :=
  fun s =>
    match m s with
    | (c, t1, s1) =>
        match f s1 with
        | (Normal _, t2, s2) => (c, t1 ++ t2, s2)
        | (Return r, t2, s2) => (Return r, t1 ++ t2, s2)
        | (Throw e, t2, s2) => (Throw e, t1 ++ t2, s2)
        end
    end.

(** How the promise of an async function settles. *)
Inductive settled :=
| Fulfilled (r : Outcome)
| Rejected (message : string).

Definition settle (c : completion Empty_set) : settled :=
  match c with
  | Normal a => match a with end
  | Return r => Fulfilled r
  | Throw e => Rejected e
  end.

(** Marker texts, result details and wait bounds of the source. *)
Definition text_activated := "Your SIM card has been successfully activated".
Definition text_issue := "The system is currently experiencing some issues".
Definition text_processing := "Your activation order is being processed".
Definition detail_processing :=
  "Your activation order is being processed, please try again later".
Definition detail_no_response := "No expected response received".
Definition marker (text : string) : string := ("text=" ++ text)%string.
Definition long_wait : N := 30000%N.
Definition short_wait : N := 5000%N.

(** [Math.random() * 300 + 200] *)
Definition delay_of (r : float) : float := (r * 300 + 200)%float.

Definition initial_store (id : string) : store :=
  mkStore 0 0 (mkOutcome id "error" "").

(** ** Vocabulary for observed calls *)

Definition reply_of (r : option string) : reply :=
  match r with
  | None => Done
  | Some e => Failed e
  end.

(** Calls that create or destroy a browser, a context or a page. *)
Definition lifecycle (a : api) : bool :=
  match a with
  | launch | newContext | newPage | close => true
  | _ => false
  end.

Definition lifecycle_site (s : site) : bool :=
  match s with
  | at_launch | at_newContext | at_addInitScript | at_newPage
  | at_page_close | at_browser_close => true
  | _ => false
  end.

(** A call made by an attempt body on its page. *)
Definition page_call (page : nat) (e : event) : Prop :=
  target e = Page page /\ lifecycle (request e) = false /\
  lifecycle_site (origin e) = false.

(** The six statuses written by [processIccid]. *)
Definition known_status (s : string) : Prop :=
  s = "success" \/ s = "already_activated" \/ s = "processing" \/
  s = "invalid_iccid" \/ s = "activation_failed" \/ s = "error".

Definition is_fulfilled (x : settled) : bool :=
  match x with
  | Fulfilled _ => true
  | Rejected _ => false
  end.

(** ** main: the promise pool *)

(** What is open after a sequence of calls: a browser from the moment
    [chromium.launch()] resolves until [browser.close()] resolves, a page
    from the moment [context.newPage()] resolves until its [close()] or the
    [close()] of its browser resolves.  A [close()] that rejects leaves the
    object counted as open. *)
Record usage := mkUsage {
  browsers : nat;
  pages : nat
}.

Definition track (u : usage) (e : event) : usage :=
  match request e, response e with
  | launch, Made _ => mkUsage (S (browsers u)) (pages u)
  | newPage, Made _ => mkUsage (browsers u) (S (pages u))
  | close, Done =>
      match target e with
      | Browser _ => mkUsage (pred (browsers u)) 0
      | Page _ => mkUsage (browsers u) (pred (pages u))
      | _ => u
      end
  | _, _ => u
  end.

Definition usage_after (t : list event) : usage :=
  fold_left track t (mkUsage 0 0).

Definition within_bound (u : usage) : Prop :=
  browsers u <= 1 /\ pages u <= 1.

(** [within_bound] after every prefix of [t], started from usage [u]. *)
Definition bounded (u : usage) (t : list event) : Prop :=
  forall done todo, t = done ++ todo -> within_bound (fold_left track done u).

Section Pool.
(** [processIccid(iccid)] as called by [main], with the default
    [maxRetries]. *)
Variable proc : string -> settled * list event.

(** A promise of the pool is a chain [Promise.resolve().then(f1).then(f2)...]
    where [fi] processes one identifier; it is represented by the
    identifiers of its callbacks, oldest first.  No promise of the pool gets
    two continuations: [shift] removes it before [then] is called on it. *)
Definition promise := list string.

(** [new Array(maxWorkers).fill().map(() => Promise.resolve())] *)
Definition new_pool (maxWorkers : nat) : list promise := repeat [] maxWorkers.

(** [for (const iccid of iccids) { const worker = pool.shift();
    pool.push(worker.then(...)) }].  On an empty pool [shift] yields
    [undefined] and [worker.then] throws a TypeError: [None]. *)
Fixpoint enqueue (pool : list promise) (iccids : list string)
  : option (list promise) :=
  match iccids with
  | [] => Some pool
  | id :: rest =>
      match pool with
      | [] => None
      | worker :: pool' => enqueue (pool' ++ [worker ++ [id]]) rest
      end
  end.

(** The state of one chain while the event loop runs: the calls it has made
    so far, what it is doing, and the callbacks that have not run yet. *)
Inductive phase :=
| Idle
| Busy (id : string) (todo : list event)
| Broken (id : string) (reason : string).

Record slot := mkSlot {
  log : list event;
  doing : phase;
  pending : list string
}.

Record run := mkRun {
  slots : list slot;
  results : list Outcome
}.

Definition start (pool : list promise) : run :=
  mkRun (map (mkSlot [] Idle) pool) [].

(** One turn of the event loop on one chain: a callback starts, one of its
    awaited calls settles, or its [processIccid] settles.  A rejected chain
    never calls its remaining callbacks.  What the caller of [main] does
    when [main] rejects is not part of the run. *)
Inductive slot_step : slot -> list Outcome -> slot -> list Outcome -> Prop :=
| step_begin : forall l id rest res,
    slot_step (mkSlot l Idle (id :: rest)) res
              (mkSlot l (Busy id (snd (proc id))) rest) res
| step_await : forall l id e todo rest res,
    slot_step (mkSlot l (Busy id (e :: todo)) rest) res
              (mkSlot (l ++ [e]) (Busy id todo) rest) res
| step_push : forall l id rest res r,
    fst (proc id) = Fulfilled r ->
    slot_step (mkSlot l (Busy id []) rest) res
              (mkSlot l Idle rest) (res ++ [r])
| step_reject : forall l id rest res m,
    fst (proc id) = Rejected m ->
    slot_step (mkSlot l (Busy id []) rest) res
              (mkSlot l (Broken id m) rest) res.

Inductive step : run -> run -> Prop :=
| step_slot : forall before s after res s' res',
    slot_step s res s' res' ->
    step (mkRun (before ++ s :: after) res) (mkRun (before ++ s' :: after) res').

Inductive reachable (w : run) : run -> Prop :=
| reach_here : reachable w w
| reach_step : forall w1 w2, reachable w w1 -> step w1 w2 -> reachable w w2.

(** The identifiers of a chain for which no Outcome has been pushed. *)
Definition owed (s : slot) : list string :=
  match doing s with
  | Idle => pending s
  | Busy id _ => id :: pending s
  | Broken id _ => id :: pending s
  end.

(** [await Promise.all(pool)] resolves: every chain is fulfilled. *)
Definition fulfilled_slot (s : slot) : Prop :=
  doing s = Idle /\ pending s = [].

Definition completed (w : run) : Prop := Forall fulfilled_slot (slots w).

Definition open_browsers (w : run) : nat :=
  list_sum (map (fun s => browsers (usage_after (log s))) (slots w)).

Definition open_pages (w : run) : nat :=
  list_sum (map (fun s => pages (usage_after (log s))) (slots w)).

(** What a chain has open is what its current [processIccid] has open. *)
Definition slot_ok (s : slot) : Prop :=
  match doing s with
  | Idle => usage_after (log s) = mkUsage 0 0
  | Busy id todo =>
      exists before done,
        log s = before ++ done /\
        usage_after before = mkUsage 0 0 /\
        done ++ todo = snd (proc id)
  | Broken _ _ => within_bound (usage_after (log s))
  end.

(** A chain is made of the callbacks already fulfilled and of those its
    slot still owes. *)
Definition follows (chain : promise) (s : slot) : Prop :=
  exists done,
    chain = done ++ owed s /\
    Forall (fun id => is_fulfilled (fst (proc id)) = true) done.

(** The invariant of a run of width [width] started on [iccids]. *)
Record run_inv (iccids : list string) (width : nat) (w : run) : Prop := {
  inv_width : length (slots w) = width;
  inv_slots : Forall slot_ok (slots w);
  inv_owed :
    Permutation (map iccid (results w) ++ concat (map owed (slots w))) iccids;
  inv_status : Forall (fun r => known_status (status r)) (results w)
}.

(** [main(maxWorkers)] once [loadIccids()] has resolved to [iccids]: the
    pool after the [for] loop, before any callback runs. *)
Definition main_of (maxWorkers : nat) (iccids : list string) : option run :=
  match enqueue (new_pool maxWorkers) iccids with
  | Some pool => Some (start pool)
  | None => None
  end.

(** [w] is a state of the run [main(maxWorkers)] on [iccids]. *)
Definition runs_of (maxWorkers : nat) (iccids : list string) (w : run) : Prop :=
  exists w0, main_of maxWorkers iccids = Some w0 /\ reachable w0 w.
End Pool.

(** The summary logged by the server variant. *)
Record Summary := mkSummary {
  total : nat;
  success : nat;
  already_activated : nat;
  processing : nat;
  invalid : nat;
  failed : nat
}.

Definition count_status (results : list Outcome) (p : string -> bool) : nat :=
  List.length (filter (fun r => p (status r)) results).

Definition summary (totalIccids : nat) (results : list Outcome) : Summary :=
  mkSummary
    totalIccids
    (count_status results (fun s => String.eqb s "success"))
    (count_status results (fun s => String.eqb s "already_activated"))
    (count_status results (fun s => String.eqb s "processing"))
    (count_status results (fun s => String.eqb s "invalid_iccid"))
    (count_status results
       (fun s => String.eqb s "activation_failed" || String.eqb s "error")).

(** [processIccid(iccid)]: [maxRetries] defaults to 2. *)
Definition default_maxRetries : nat := 2.

(** ** activate_sim.js *)
Module ActivateSim.
Section Program.
Variable cfg : Config.
Variable d : driver.
Variable rnd : nat -> float.

Definition initBrowser (id : string) : M (nat * nat) :=
  browser <- create at_launch Chromium launch Browser (on_browser d id at_launch) ;;
  context <- create at_newContext (Browser browser) newContext Context
               (on_browser d id at_newContext) ;;
  ret (browser, context).

(** The body of the inner [try] of one iteration of the retry loop. *)
Definition attempt_body (id : string) (attempt page : nat) : M unit :=
  let r := on_page d id attempt in
  let p := Page page in
  let input := ("." ++ iccid_input (selectors cfg))%string in
  call at_goto p (goto (url cfg) long_wait) (r at_goto) ;;
  call at_title p title (r at_title) ;;
  call at_wait_input p (waitForSelector input long_wait) (r at_wait_input) ;;
  call at_fill p (fill input id) (r at_fill) ;;
  call at_scroll p evaluate_scrollTo_bottom (r at_scroll) ;;
  x <- random rnd ;;
  call at_scroll_delay p (waitForTimeout (delay_of x)) (r at_scroll_delay) ;;
  call at_wait_next p (waitForSelector (next_button (selectors cfg)) long_wait)
    (r at_wait_next) ;;
  call at_click_next p (click (next_button (selectors cfg))) (r at_click_next) ;;
  try_catch
    (call at_step1_activated p (waitForSelector (marker text_activated) short_wait)
       (r at_step1_activated) ;;
     assign_result (mkOutcome id "already_activated" text_activated) ;;
     return_result)
    (fun _ =>
       try_catch
         (call at_step1_issue p (waitForSelector (marker text_issue) short_wait)
            (r at_step1_issue) ;;
          assign_result (mkOutcome id "invalid_iccid" text_issue) ;;
          return_result)
         (fun _ =>
            try_catch
              (call at_step1_processing p
                 (waitForSelector (marker text_processing) short_wait)
                 (r at_step1_processing) ;;
               assign_result (mkOutcome id "processing" detail_processing) ;;
               return_result)
              (fun _ => ret tt))) ;;
  call at_wait_activate p (waitForSelector (activate_button (selectors cfg)) long_wait)
    (r at_wait_activate) ;;
  call at_click_activate p (click (activate_button (selectors cfg)))
    (r at_click_activate) ;;
  try_catch
    (call at_step2_activated p (waitForSelector (marker text_activated) short_wait)
       (r at_step2_activated) ;;
     assign_result (mkOutcome id "success" text_activated) ;;
     return_result)
    (fun _ =>
       try_catch
         (call at_step2_processing p
            (waitForSelector (marker text_processing) short_wait)
            (r at_step2_processing) ;;
          assign_result (mkOutcome id "processing" detail_processing) ;;
          return_result)
         (fun _ =>
            assign_result (mkOutcome id "activation_failed" detail_no_response) ;;
            return_result)).

(** [for (let attempt = 0; attempt < maxRetries; attempt++) { ... }],
    entered with [remaining = maxRetries - attempt]. *)
Fixpoint retry_loop (id : string) (context : nat) (remaining attempt : nat)
  : M unit :=
  match remaining with
  | O => ret tt
  | S n =>
      page <- create at_newPage (Context context) newPage Page
                (on_page d id attempt at_newPage) ;;
      try_finally
        (try_catch (attempt_body id attempt page) (fun e => set_error_detail e))
        (call at_page_close (Page page) close (on_page d id attempt at_page_close)) ;;
      retry_loop id context n (S attempt)
  end.

Definition processIccid_body (id : string) (maxRetries : nat) : M Empty_set :=
  bc <- initBrowser id ;;
  assign_result (mkOutcome id "error" "") ;;
  try_finally
    (try_catch (retry_loop id (snd bc) maxRetries 0) (fun e => set_error_detail e))
    (call at_browser_close (Browser (fst bc)) close (on_browser d id at_browser_close)) ;;
  return_result.

Definition processIccid (id : string) (maxRetries : nat) : settled * list event :=
  match processIccid_body id maxRetries (initial_store id) with
  | (c, t, _) => (settle c, t)
  end.

(** The completion of the body of attempt float [attempt]; by
    [attempt_body_spec] below it does not depend on the page nor on the
    store the body is run in. *)
Definition attempt_verdict (id : string) (attempt : nat) : completion unit :=
  fst (fst (attempt_body id attempt 0 (initial_store id))).
End Program.

(** The callback chained for one identifier awaits [processIccid(iccid)],
    [maxRetries] taking its default. *)
Definition callback (cfg : Config) (d : driver) (rnd : string -> nat -> float)
  (id : string) : settled * list event :=
  processIccid cfg d (rnd id) id default_maxRetries.

(** [main(maxWorkers = 3)] *)
Definition default_maxWorkers : nat := 3.

Definition main (maxWorkers : nat) (iccids : list string) : option run :=
  main_of maxWorkers iccids.

Definition runs (cfg : Config) (d : driver) (rnd : string -> nat -> float)
  (maxWorkers : nat) (iccids : list string) (w : run) : Prop :=
  runs_of (callback cfg d rnd) maxWorkers iccids w.
End ActivateSim.

(** ** The HTTP triggered variant (express server) *)
Module Server.
Section Program.
Variable cfg : Config.
Variable d : driver.
Variable rnd : nat -> float.

Definition initBrowser (id : string) : M (nat * nat) :=
  browser <- create at_launch Chromium launch Browser (on_browser d id at_launch) ;;
  context <- create at_newContext (Browser browser) newContext Context
               (on_browser d id at_newContext) ;;
  call at_addInitScript (Context context) addInitScript
    (on_browser d id at_addInitScript) ;;
  ret (browser, context).

(** The body of the inner [try] of one iteration of the retry loop. *)
Definition attempt_body (id : string) (attempt page : nat) : M unit :=
  let r := on_page d id attempt in
  let p := Page page in
  let input := ("." ++ iccid_input (selectors cfg))%string in
  call at_goto p (goto (url cfg) long_wait) (r at_goto) ;;
  call at_title p title (r at_title) ;;
  x <- random rnd ;;
  y <- random rnd ;;
  call at_mouse_move p (mouse_move (x * 800)%float (y * 600)%float) (r at_mouse_move) ;;
  z <- random rnd ;;
  call at_mouse_delay p (waitForTimeout (delay_of z)) (r at_mouse_delay) ;;
  call at_wait_input p (waitForSelector input long_wait) (r at_wait_input) ;;
  call at_fill p (fill input id) (r at_fill) ;;
  call at_scroll p evaluate_scrollTo_bottom (r at_scroll) ;;
  w <- random rnd ;;
  call at_scroll_delay p (waitForTimeout (delay_of w)) (r at_scroll_delay) ;;
  call at_wait_next p (waitForSelector (next_button (selectors cfg)) long_wait)
    (r at_wait_next) ;;
  call at_click_next p (click (next_button (selectors cfg))) (r at_click_next) ;;
  try_catch
    (call at_step1_activated p (waitForSelector (marker text_activated) short_wait)
       (r at_step1_activated) ;;
     assign_result (mkOutcome id "already_activated" text_activated) ;;
     return_result)
    (fun _ =>
       try_catch
         (call at_step1_issue p (waitForSelector (marker text_issue) short_wait)
            (r at_step1_issue) ;;
          assign_result (mkOutcome id "invalid_iccid" text_issue) ;;
          return_result)
         (fun _ =>
            try_catch
              (call at_step1_processing p
                 (waitForSelector (marker text_processing) short_wait)
                 (r at_step1_processing) ;;
               assign_result (mkOutcome id "processing" detail_processing) ;;
               return_result)
              (fun _ => ret tt))) ;;
  call at_wait_activate p (waitForSelector (activate_button (selectors cfg)) long_wait)
    (r at_wait_activate) ;;
  call at_click_activate p (click (activate_button (selectors cfg)))
    (r at_click_activate) ;;
  try_catch
    (call at_step2_activated p (waitForSelector (marker text_activated) short_wait)
       (r at_step2_activated) ;;
     assign_result (mkOutcome id "success" text_activated) ;;
     return_result)
    (fun _ =>
       try_catch
         (call at_step2_processing p
            (waitForSelector (marker text_processing) short_wait)
            (r at_step2_processing) ;;
          assign_result (mkOutcome id "processing" detail_processing) ;;
          return_result)
         (fun _ =>
            assign_result (mkOutcome id "activation_failed" detail_no_response) ;;
            return_result)).

Fixpoint retry_loop (id : string) (context : nat) (remaining attempt : nat)
  : M unit :=
  match remaining with
  | O => ret tt
  | S n =>
      page <- create at_newPage (Context context) newPage Page
                (on_page d id attempt at_newPage) ;;
      try_finally
        (try_catch (attempt_body id attempt page) (fun e => set_error_detail e))
        (call at_page_close (Page page) close (on_page d id attempt at_page_close)) ;;
      retry_loop id context n (S attempt)
  end.

Definition processIccid_body (id : string) (maxRetries : nat) : M Empty_set :=
  bc <- initBrowser id ;;
  assign_result (mkOutcome id "error" "") ;;
  try_finally
    (try_catch (retry_loop id (snd bc) maxRetries 0) (fun e => set_error_detail e))
    (call at_browser_close (Browser (fst bc)) close (on_browser d id at_browser_close)) ;;
  return_result.

Definition processIccid (id : string) (maxRetries : nat) : settled * list event :=
  match processIccid_body id maxRetries (initial_store id) with
  | (c, t, _) => (settle c, t)
  end.

Definition attempt_verdict (id : string) (attempt : nat) : completion unit :=
  fst (fst (attempt_body id attempt 0 (initial_store id))).
End Program.

(** The callback chained for one identifier awaits [processIccid(iccid)],
    [maxRetries] taking its default. *)
Definition callback (cfg : Config) (d : driver) (rnd : string -> nat -> float)
  (id : string) : settled * list event :=
  processIccid cfg d (rnd id) id default_maxRetries.

(** [main(maxWorkers = 1)] *)
Definition default_maxWorkers : nat := 1.

Definition main (maxWorkers : nat) (iccids : list string) : option run :=
  main_of maxWorkers iccids.

Definition runs (cfg : Config) (d : driver) (rnd : string -> nat -> float)
  (maxWorkers : nat) (iccids : list string) (w : run) : Prop :=
  runs_of (callback cfg d rnd) maxWorkers iccids w.

(** The summary logged once [Promise.all(pool)] has resolved. *)
Definition main_summary (iccids : list string) (w : run) : Summary :=
  summary (length iccids) (results w).
End Server.

(** ** The retry loop over an arbitrary attempt body

    Both programs wrap their attempt body in the same loop and the same
    [try]/[catch]/[finally] blocks. *)
Section Generic.
Variable d : driver.
Variable init : string -> M (nat * nat).
Variable body : string -> nat -> nat -> M unit.

Fixpoint retry_loop_of (id : string) (context : nat) (remaining attempt : nat)
  : M unit :=
  match remaining with
  | O => ret tt
  | S n =>
      page <- create at_newPage (Context context) newPage Page
                (on_page d id attempt at_newPage) ;;
      try_finally
        (try_catch (body id attempt page) (fun e => set_error_detail e))
        (call at_page_close (Page page) close (on_page d id attempt at_page_close)) ;;
      retry_loop_of id context n (S attempt)
  end.

Definition process_of (id : string) (maxRetries : nat) : M Empty_set :=
  bc <- init id ;;
  assign_result (mkOutcome id "error" "") ;;
  try_finally
    (try_catch (retry_loop_of id (snd bc) maxRetries 0) (fun e => set_error_detail e))
    (call at_browser_close (Browser (fst bc)) close (on_browser d id at_browser_close)) ;;
  return_result.
End Generic.

(** What the loop and the aggregation rely on, for an attempt body whose
    completion in attempt [k] for [id] is [verdict k]. *)
Definition body_contract_on (body : string -> nat -> nat -> M unit)
  (id : string) (verdict : nat -> completion unit) : Prop :=
  forall attempt page s,
  exists t s',
    body id attempt page s = (verdict attempt, t, s') /\
    heap s' = heap s /\
    Forall (page_call page) t /\
    match verdict attempt with
    | Return r => result s' = r /\ iccid r = id /\ known_status (status r) /\
                  status r <> "error"
    | Throw _ => result s' = result s
    | Normal _ => False
    end.

Definition body_contract (body : string -> nat -> nat -> M unit)
  (verdict : string -> nat -> completion unit) : Prop :=
  forall id, body_contract_on body id (verdict id).

(** ** The shape of the calls of [processIccid] *)

(** The calls of the iterations of a retry loop whose pages are opened in
    context [ctx], the next free object name being [h].  The loop is left
    after a [page.close()] that rejects. *)
Inductive attempts (ctx : nat) : nat -> list event -> Prop :=
| attempts_none : forall h, attempts ctx h []
| attempts_unopened : forall h e,
    attempts ctx h [mkEvent at_newPage (Context ctx) newPage (Failed e)]
| attempts_last : forall h calls r,
    Forall (page_call h) calls ->
    attempts ctx h
      (mkEvent at_newPage (Context ctx) newPage (Made (Page h))
       :: calls ++ [mkEvent at_page_close (Page h) close (reply_of r)])
| attempts_more : forall h calls rest,
    Forall (page_call h) calls ->
    attempts ctx (S h) rest ->
    attempts ctx h
      (mkEvent at_newPage (Context ctx) newPage (Made (Page h))
       :: calls ++ mkEvent at_page_close (Page h) close Done :: rest).

(** The calls of [initBrowser]; the flag tells whether it resolved. *)
Inductive setup : bool -> list event -> Prop :=
| setup_no_browser : forall e,
    setup false [mkEvent at_launch Chromium launch (Failed e)]
| setup_no_context : forall e,
    setup false [mkEvent at_launch Chromium launch (Made (Browser 0));
                 mkEvent at_newContext (Browser 0) newContext (Failed e)]
| setup_no_script : forall e,
    setup false [mkEvent at_launch Chromium launch (Made (Browser 0));
                 mkEvent at_newContext (Browser 0) newContext (Made (Context 1));
                 mkEvent at_addInitScript (Context 1) addInitScript (Failed e)]
| setup_plain :
    setup true [mkEvent at_launch Chromium launch (Made (Browser 0));
                mkEvent at_newContext (Browser 0) newContext (Made (Context 1))]
| setup_script :
    setup true [mkEvent at_launch Chromium launch (Made (Browser 0));
                mkEvent at_newContext (Browser 0) newContext (Made (Context 1));
                mkEvent at_addInitScript (Context 1) addInitScript Done].

Definition init_contract (init : string -> M (nat * nat)) : Prop :=
  forall id s, heap s = 0 ->
  exists c t s',
    init id s = (c, t, s') /\ result s' = result s /\
    match c with
    | Normal bc => bc = (0, 1) /\ heap s' = 2 /\ setup true t
    | Throw _ => setup false t
    | Return _ => False
    end.

(** The calls of one [processIccid]; the flag tells whether its promise
    is fulfilled. *)
Inductive process_calls : bool -> list event -> Prop :=
| calls_unopened : forall t, setup false t -> process_calls false t
| calls_run : forall t0 loop r,
    setup true t0 ->
    attempts 1 2 loop ->
    process_calls (match r with None => true | Some _ => false end)
      (t0 ++ loop ++
       [mkEvent at_browser_close (Browser 0) close (reply_of r)]).

(** ** Sessions of the attempts *)

(** The browsing context and the page each attempt of a trace runs in: one
    pair per [context.newPage()] that resolved. *)
Fixpoint sessions (t : list event) : list (object * object) :=
  match t with
  | [] => []
  | e :: t' =>
      match request e, response e with
      | newPage, Made p => (target e, p) :: sessions t'
      | _, _ => sessions t'
      end
  end.

(** Calls are well scoped when every call on a page goes to the page of the
    latest [newPage()], [close()] is called on that page before any call is
    made elsewhere, and no page is left without [close()] at the end. *)
Fixpoint scoped (current : option nat) (t : list event) : bool :=
  match t with
  | [] => match current with None => true | Some _ => false end
  | e :: t' =>
      match current, target e with
      | Some p, Page q =>
          Nat.eqb p q &&
          match request e with
          | close => scoped None t'
          | _ => scoped current t'
          end
      | Some _, _ => false
      | None, Page _ => false
      | None, _ =>
          match request e, response e with
          | newPage, Made (Page p) => scoped (Some p) t'
          | _, _ => scoped None t'
          end
      end
  end.

(** The reading of "one Session per attempt" in which a Session is the
    isolated browsing context (cookies, storage) together with its page. *)
Definition session_per_attempt (t : list event) : Prop :=
  NoDup (map fst (sessions t)) /\ NoDup (map snd (sessions t)).

Definition site_eqb (a b : site) : bool :=
  match a, b with
  | at_launch, at_launch | at_newContext, at_newContext
  | at_addInitScript, at_addInitScript | at_newPage, at_newPage
  | at_goto, at_goto | at_title, at_title | at_mouse_move, at_mouse_move
  | at_mouse_delay, at_mouse_delay | at_wait_input, at_wait_input
  | at_fill, at_fill | at_scroll, at_scroll
  | at_scroll_delay, at_scroll_delay | at_wait_next, at_wait_next
  | at_click_next, at_click_next
  | at_step1_activated, at_step1_activated | at_step1_issue, at_step1_issue
  | at_step1_processing, at_step1_processing
  | at_wait_activate, at_wait_activate | at_click_activate, at_click_activate
  | at_step2_activated, at_step2_activated
  | at_step2_processing, at_step2_processing
  | at_page_close, at_page_close | at_browser_close, at_browser_close => true
  | _, _ => false
  end.

(** The calls made at a given call site. *)
Definition calls_at (s : site) (t : list event) : list event :=
  filter (fun e => site_eqb (origin e) s) t.

(** ** Concrete inputs *)

Definition cfg0 : Config :=
  mkConfig "https://example.test/activate"
           (mkSelectors "iccid-input" "#next" "#activate").

Definition rnd0 : nat -> float := fun _ => 0.5%float.
Definition rnds0 : string -> nat -> float := fun _ => rnd0.

(** Every call resolves; every awaited marker shows up. *)
Definition d_all_ok : driver :=
  mkDriver (fun _ _ => None) (fun _ _ _ => None).

(** A driver that rejects exactly the listed browser call sites and, in
    every attempt, the listed page call sites. *)
Definition rejecting (browser_sites page_sites : list site) : driver :=
  mkDriver
    (fun _ s => if existsb (site_eqb s) browser_sites
                then Some "Target closed" else None)
    (fun _ _ s => if existsb (site_eqb s) page_sites
                  then Some "Timeout 5000ms exceeded" else None).

(** ** Vocabulary of the statements about one attempt *)

Definition completion_of {A} (x : completion A * list event * store)
  : completion A := fst (fst x).

Definition calls_of {A} (x : completion A * list event * store)
  : list event := snd (fst x).

(** The call sites passed before the first marker is awaited. *)
Definition prelude_cli : list site :=
  [at_goto; at_title; at_wait_input; at_fill; at_scroll; at_scroll_delay;
   at_wait_next; at_click_next].

(** In attempt [k] for [id], the calls at [sites] resolve. *)
Definition resolves (d : driver) (id : string) (k : nat) (sites : list site)
  : Prop :=
  Forall (fun s => on_page d id k s = None) sites.

(** The waits for a marker text. *)
Definition marker_site (s : site) : bool :=
  match s with
  | at_step1_activated | at_step1_issue | at_step1_processing
  | at_step2_activated | at_step2_processing => true
  | _ => false
  end.

Definition marker_waits (t : list event) : list api :=
  map request (filter (fun e => marker_site (origin e)) t).

Definition wait_marker (text : string) : api :=
  waitForSelector (marker text) short_wait.

(** ASCII lower case, to compare messages without regard to case. *)
Definition lower_ascii (c : ascii) : ascii :=
  let n := nat_of_ascii c in
  if (65 <=? n) && (n <=? 90) then ascii_of_nat (n + 32) else c.

Fixpoint lower (s : string) : string :=
  match s with
  | EmptyString => EmptyString
  | String c s' => String (lower_ascii c) (lower s')
  end.

(** The three markers of step 1 all fail to show up in attempt [k]. *)
Definition step1_silent (d : driver) (id : string) (k : nat) : Prop :=
  on_page d id k at_step1_activated <> None /\
  on_page d id k at_step1_issue <> None /\
  on_page d id k at_step1_processing <> None.

(** No marker of step 1 shows up; each of its waits times out. *)
Definition d_step1_silent : driver :=
  rejecting [] [at_step1_activated; at_step1_issue; at_step1_processing].

(** No marker shows up at all. *)
Definition d_silent : driver :=
  rejecting [] [at_step1_activated; at_step1_issue; at_step1_processing;
                at_step2_activated; at_step2_processing].

(** The last [n] calls of a trace. *)
Definition lastn (n : nat) (t : list event) : list event :=
  rev (firstn n (rev t)).

(** The two programs. *)
Inductive program :=
| cli
| server.

Definition attempt_body_of (v : program) :=
  match v with
  | cli => ActivateSim.attempt_body
  | server => Server.attempt_body
  end.

Definition processIccid_of (v : program) :=
  match v with
  | cli => ActivateSim.processIccid
  | server => Server.processIccid
  end.

Definition callback_of (v : program) :=
  match v with
  | cli => ActivateSim.callback
  | server => Server.callback
  end.

Definition runs_in (v : program) :=
  match v with
  | cli => ActivateSim.runs
  | server => Server.runs
  end.

Definition verdict_of (v : program) :=
  match v with
  | cli => ActivateSim.attempt_verdict
  | server => Server.attempt_verdict
  end.

Definition initBrowser_of (v : program) :=
  match v with
  | cli => ActivateSim.initBrowser
  | server => Server.initBrowser
  end.

(** Every call of [initBrowser] resolves. *)
Definition setup_resolves (v : program) (d : driver) (id : string) : Prop :=
  on_browser d id at_launch = None /\
  on_browser d id at_newContext = None /\
  match v with
  | cli => True
  | server => on_browser d id at_addInitScript = None
  end.

(** [result.error_detail = e] on the Outcome [r]. *)
Definition with_detail (r : Outcome) (e : string) : Outcome :=
  mkOutcome (iccid r) (status r) e.

(** The settlement of [processIccid] from the completion of its loop. *)
Definition settle_after_loop (d : driver) (id : string)
  (c : completion unit) (r : Outcome) : settled :=
  match on_browser d id at_browser_close with
  | Some e => Rejected e
  | None =>
      Fulfilled match c with
                | Normal _ => r
                | Return r' => r'
                | Throw e => with_detail r e
                end
  end.

(** Only the server variant makes these calls. *)
Definition server_only_calls_resolve (d : driver) (id : string) : Prop :=
  on_browser d id at_addInitScript = None /\
  forall k, on_page d id k at_mouse_move = None /\
            on_page d id k at_mouse_delay = None.

(** Navigation fails in every attempt, with a message of its own. *)
Definition nav_message (k : nat) : string :=
  match k with
  | O => "net::ERR_NAME_NOT_RESOLVED"
  | S _ => "net::ERR_CONNECTION_RESET"
  end.

Definition d_nav_fails : driver :=
  mkDriver (fun _ _ => None)
           (fun _ k s => match s with
                         | at_goto => Some (nav_message k)
                         | _ => None
                         end).

(** Navigation fails in the first attempt only. *)
Definition d_nav_fails_once : driver :=
  mkDriver (fun _ _ => None)
           (fun _ k s => match k, s with
                         | O, at_goto => Some "net::ERR_NAME_NOT_RESOLVED"
                         | _, _ => None
                         end).

(** The mouse move of the first attempt rejects; the page shows the
    "already activated" text in the first attempt and the "system issue"
    text afterwards. *)
Definition d_mouse_rejects_once : driver :=
  mkDriver (fun _ _ => None)
           (fun _ k s => match k, s with
                         | O, at_mouse_move =>
                             Some "mouse.move: Protocol error (Input.dispatchMouseEvent)"
                         | S _, at_step1_activated => Some "Timeout 5000ms exceeded"
                         | _, _ => None
                         end).

Definition iccid0 : string := "8985200000000000017".

Definition iccid1 : string := "8985200000000000025".

(** Chromium cannot be launched for the first identifier. *)
Definition d_launch_fails_for_first : driver :=
  mkDriver (fun id s => match s with
                        | at_launch =>
                            if String.eqb id iccid0
                            then Some "browserType.launch: Failed to launch chromium"
                            else None
                        | _ => None
                        end)
           (fun _ _ _ => None).

(** Navigation fails for the second identifier only. *)
Definition d_nav_fails_for_second : driver :=
  mkDriver (fun _ _ => None)
           (fun id _ s => match s with
                          | at_goto =>
                              if String.eqb id iccid1
                              then Some "net::ERR_CONNECTION_RESET"
                              else None
                          | _ => None
                          end).

(** A state of [main(2)] of the command line variant on two identifiers:
    both chains have launched their browser. *)
Definition launched (id : string) : slot :=
  let t := snd (ActivateSim.callback cfg0 d_all_ok rnds0 id) in
  mkSlot (firstn 1 t) (Busy id (skipn 1 t)) [].

Definition w_both_launched : run :=
  mkRun [launched iccid0; launched iccid1] [].

(** The final state of [main(1)] of the server variant on two identifiers,
    the second of which cannot be navigated to. *)
Definition w_both_done : run :=
  let p := Server.callback cfg0 d_nav_fails_for_second rnds0 in
  mkRun [mkSlot (snd (p iccid0) ++ snd (p iccid1)) Idle []]
        [mkOutcome iccid0 "already_activated" text_activated;
         mkOutcome iccid1 "error" "net::ERR_CONNECTION_RESET"].

Definition iccid2 : string := "8985200000000000033".
Definition iccid3 : string := "8985200000000000041".
Definition four_iccids : list string := [iccid0; iccid1; iccid2; iccid3].

(** A state of [main()] of the command line variant on four identifiers,
    Chromium failing to launch for the first: the second and the third
    identifier have their Outcome, the chain of the first and the fourth is
    rejected. *)
Definition w_chain_broken : run :=
  let p := ActivateSim.callback cfg0 d_launch_fails_for_first rnds0 in
  mkRun [mkSlot (snd (p iccid1)) Idle [];
         mkSlot (snd (p iccid2)) Idle [];
         mkSlot [mkEvent at_launch Chromium launch
                   (Failed "browserType.launch: Failed to launch chromium")]
                (Broken iccid0 "browserType.launch: Failed to launch chromium")
                [iccid3]]
        [mkOutcome iccid1 "already_activated" text_activated;
         mkOutcome iccid2 "already_activated" text_activated].

(** ** loadIccids *)

Section FirstOccurrences.
Context {A : Type}.
Variable eqb : A -> A -> bool.

(** [self.indexOf(value)], searched from index [i] on; [None] stands
    for -1. *)
Fixpoint indexOf_from (i : nat) (self : list A) (value : A) : option nat :=
  match self with
  | [] => None
  | x :: rest => if eqb x value then Some i else indexOf_from (S i) rest value
  end.

Definition indexOf (self : list A) (value : A) : option nat :=
  indexOf_from 0 self value.

(** [self.indexOf(value) === index] *)
Definition first_at (self : list A) (value : A) (index : nat) : bool :=
  match indexOf self value with
  | Some i => Nat.eqb i index
  | None => false
  end.

(** [l.filter((value, index, self) => self.indexOf(value) === index)],
    when [l] is the part of [self] that starts at [index]. *)
Fixpoint filter_first (self : list A) (index : nat) (l : list A) : list A :=
  match l with
  | [] => []
  | value :: rest =>
      if first_at self value index
      then value :: filter_first self (S index) rest
      else filter_first self (S index) rest
  end.

Definition unique (values : list A) : list A := filter_first values 0 values.

(** The values of [l] not met before, [seen] being those met so far. *)
Fixpoint unseen (seen l : list A) : list A :=
  match l with
  | [] => []
  | x :: rest =>
      if existsb (eqb x) seen
      then unseen (seen ++ [x]) rest
      else x :: unseen (seen ++ [x]) rest
  end.
End FirstOccurrences.

(** [loadIccids()], given the [iccid] field of the records parsed from
    iccids.csv: [rows.map(row => row.iccid).filter(...)]. *)
Definition loadIccids (values : list string) : list string :=
  unique String.eqb values.

(** ** Vocabulary of the further statements about [processIccid] *)

(** The first of the calls made outside the outer [try]/[catch] that
    rejects, with its message: those of [initBrowser], then
    [browser.close()]. *)
Definition lifecycle_failure (v : program) (d : driver) (id : string)
  : option string :=
  match on_browser d id at_launch with
  | Some e => Some e
  | None =>
      match on_browser d id at_newContext with
      | Some e => Some e
      | None =>
          match v, on_browser d id at_addInitScript with
          | server, Some e => Some e
          | _, _ => on_browser d id at_browser_close
          end
      end
  end.

(** [initBrowser] rejects after [chromium.launch()] has resolved. *)
Definition setup_fails_after_launch (v : program) (d : driver) (id : string)
  (e : string) : Prop :=
  on_browser d id at_launch = None /\
  (on_browser d id at_newContext = Some e \/
   (v = server /\ on_browser d id at_newContext = None /\
    on_browser d id at_addInitScript = Some e)).

(** The calls of an attempt in the order of the source text, each with its
    call site, when [n] random numbers have been drawn before. *)
Definition script (v : program) (cfg : Config) (rnd : nat -> float) (id : string)
  (n : nat) : list (site * api) :=
  let input := ("." ++ iccid_input (selectors cfg))%string in
  [(at_goto, goto (url cfg) long_wait); (at_title, title)] ++
  match v with
  | cli => []
  | server =>
      [(at_mouse_move, mouse_move (rnd n * 800)%float (rnd (S n) * 600)%float);
       (at_mouse_delay, waitForTimeout (delay_of (rnd (S (S n)))))]
  end ++
  [(at_wait_input, waitForSelector input long_wait);
   (at_fill, fill input id);
   (at_scroll, evaluate_scrollTo_bottom);
   (at_scroll_delay,
    waitForTimeout (delay_of (rnd (match v with cli => n | server => 3 + n end))));
   (at_wait_next, waitForSelector (next_button (selectors cfg)) long_wait);
   (at_click_next, click (next_button (selectors cfg)));
   (at_step1_activated, wait_marker text_activated);
   (at_step1_issue, wait_marker text_issue);
   (at_step1_processing, wait_marker text_processing);
   (at_wait_activate, waitForSelector (activate_button (selectors cfg)) long_wait);
   (at_click_activate, click (activate_button (selectors cfg)));
   (at_step2_activated, wait_marker text_activated);
   (at_step2_processing, wait_marker text_processing)].

Definition site_and_request (e : event) : site * api := (origin e, request e).

(** Navigation fails in the first attempt and no second page can be
    opened. *)
Definition d_no_second_page : driver :=
  mkDriver (fun _ _ => None)
           (fun _ k s => match k, s with
                         | O, at_goto => Some "net::ERR_NAME_NOT_RESOLVED"
                         | S _, at_newPage =>
                             Some "browserContext.newPage: Target closed"
                         | _, _ => None
                         end).

(** Navigation fails and the page cannot be closed either. *)
Definition d_goto_and_close_reject : driver :=
  mkDriver (fun _ _ => None)
           (fun _ _ s => match s with
                         | at_goto => Some "net::ERR_NAME_NOT_RESOLVED"
                         | at_page_close => Some "page.close: Target crashed"
                         | _ => None
                         end).

(** ** Vocabulary of the further statements about [main] *)

(** The elements of [l] at the indices [j], [j + K], [j + 2 K], ...
    ([j < K]). *)
Fixpoint stride {A} (K j : nat) (l : list A) : list A :=
  match l with
  | [] => []
  | x :: rest =>
      match j with
      | O => x :: stride K (K - 1) rest
      | S j' => stride K j' rest
      end
  end.

(** [results.filter(r => r.status === 'invalid_iccid').map(r => ({ iccid:
    r.iccid }))]: the records of one field are represented by the field. *)
Definition invalidIccids (results : list Outcome) : list string :=
  map iccid (filter (fun r => String.eqb (status r) "invalid_iccid") results).

(** [if (invalidIccids.length > 0)]: the command line variant writes
    invalid_iccids.csv, the server variant logs the list. *)
Definition reports_invalid (results : list Outcome) : bool :=
  0 <? length (invalidIccids results).

(** [browser.close()] rejects for the first identifier. *)
Definition d_close_fails_for_first : driver :=
  mkDriver (fun id s => match s with
                        | at_browser_close =>
                            if String.eqb id iccid0
                            then Some "browser.close: Connection closed"
                            else None
                        | _ => None
                        end)
           (fun _ _ _ => None).

(** The system-issue text shows up for the second identifier, the
    "already activated" text for the others. *)
Definition d_second_is_invalid : driver :=
  mkDriver (fun _ _ => None)
           (fun id _ s => match s with
                          | at_step1_activated =>
                              if String.eqb id iccid1
                              then Some "Timeout 5000ms exceeded"
                              else None
                          | _ => None
                          end).

(** The final state of [main(1)] of the server variant on two identifiers
    under [d_second_is_invalid]. *)
Definition w_second_invalid : run :=
  let p := Server.callback cfg0 d_second_is_invalid rnds0 in
  mkRun [mkSlot (snd (p iccid0) ++ snd (p iccid1)) Idle []]
        [mkOutcome iccid0 "already_activated" text_activated;
         mkOutcome iccid1 "invalid_iccid" text_issue].

(** A state of [main(1)] of the server variant on two identifiers, the
    browser of the first of which cannot be closed: the chain is rejected
    after all the calls of the first identifier. *)
Definition w_close_broken : run :=
  let p := Server.callback cfg0 d_close_fails_for_first rnds0 in
  mkRun [mkSlot (snd (p iccid0))
                (Broken iccid0 "browser.close: Connection closed")
                [iccid1]]
        [].

(** ** Further vocabulary and inputs *)

(** The call sites the server variant passes before the first marker is
    awaited. *)
Definition prelude_server : list site :=
  [at_goto; at_title; at_mouse_move; at_mouse_delay; at_wait_input; at_fill;
   at_scroll; at_scroll_delay; at_wait_next; at_click_next].

Definition prelude_of (v : program) : list site :=
  match v with
  | cli => prelude_cli
  | server => prelude_server
  end.

(** Attempt [k] of [processIccid(id, maxRetries)] is started: the browser
    is set up, and each attempt before [k] opened its page, threw and
    closed its page. *)
Definition attempt_starts (v : program) (cfg : Config) (d : driver)
  (rnd : nat -> float) (id : string) (maxRetries k : nat) : Prop :=
  k < maxRetries /\
  setup_resolves v d id /\
  (forall j, j < k ->
     on_page d id j at_newPage = None /\
     (exists m, verdict_of v cfg d rnd id j = Throw m) /\
     on_page d id j at_page_close = None) /\
  on_page d id k at_newPage = None.

(** The five statuses an attempt classifies to. *)
Definition classified (s : string) : Prop :=
  s = "success" \/ s = "already_activated" \/ s = "processing" \/
  s = "invalid_iccid" \/ s = "activation_failed".

Definition closed_message : string :=
  "Target page, context or browser has been closed".

(** Navigation fails in every attempt and the browser cannot be closed in
    the end. *)
Definition d_nav_fails_close_rejects : driver :=
  mkDriver (fun _ s => match s with
                       | at_browser_close => Some closed_message
                       | _ => None
                       end)
           (fun _ k s => match s with
                         | at_goto => Some (nav_message k)
                         | _ => None
                         end).

(** Every call resolves but the [page.close()] of each attempt. *)
Definition d_page_close_rejects : driver :=
  mkDriver (fun _ _ => None)
           (fun _ _ s => match s with
                         | at_page_close => Some closed_message
                         | _ => None
                         end).

(** No marker of step 1 shows up, the success text shows up after the
    click, and [page.close()] rejects. *)
Definition d_success_page_close_rejects : driver :=
  mkDriver (fun _ _ => None)
           (fun _ _ s => match s with
                         | at_step1_activated | at_step1_issue
                         | at_step1_processing => Some "Timeout 5000ms exceeded"
                         | at_page_close => Some closed_message
                         | _ => None
                         end).

(** ** Objects a call of [processIccid] works on *)

Definition object_eqb (a b : object) : bool :=
  match a, b with
  | Chromium, Chromium => true
  | Browser m, Browser n | Context m, Context n | Page m, Page n => Nat.eqb m n
  | _, _ => false
  end.

(** Every call of the trace goes to the [chromium] module or to an object
    that an earlier call of the same trace returned; [made] lists the
    objects returned so far. *)
Fixpoint uses_own (made : list object) (t : list event) : bool :=
  match t with
  | [] => true
  | e :: t' =>
      match target e with
      | Chromium => true
      | o => existsb (object_eqb o) made
      end &&
      uses_own match response e with
               | Made o => o :: made
               | _ => made
               end t'
  end.

(** ** Properties of one attempt *)

Ltac leaf :=
  cbn; do 2 eexists;
  repeat (split; [reflexivity|]);
  split; [repeat constructor|];
  unfold known_status; cbn; intuition (auto; discriminate).

Ltac on_site d id k s :=
  destruct (on_page d id k s) eqn:?; cbn; try solve [leaf].

Lemma ActivateSim_body_contract cfg d rnd :
  body_contract (ActivateSim.attempt_body cfg d rnd)
                (ActivateSim.attempt_verdict cfg d rnd).
Proof.
  intros id k page s.
  unfold ActivateSim.attempt_verdict, ActivateSim.attempt_body.
  cbv [bind call random try_catch assign_result return_result ret initial_store].
  on_site d id k at_goto.
  on_site d id k at_title.
  on_site d id k at_wait_input.
  on_site d id k at_fill.
  on_site d id k at_scroll.
  on_site d id k at_scroll_delay.
  on_site d id k at_wait_next.
  on_site d id k at_click_next.
  on_site d id k at_step1_activated.
  on_site d id k at_step1_issue.
  on_site d id k at_step1_processing.
  on_site d id k at_wait_activate.
  on_site d id k at_click_activate.
  on_site d id k at_step2_activated.
  on_site d id k at_step2_processing.
Qed.

Lemma Server_body_contract cfg d rnd :
  body_contract (Server.attempt_body cfg d rnd)
                (Server.attempt_verdict cfg d rnd).
Proof.
  intros id k page s.
  unfold Server.attempt_verdict, Server.attempt_body.
  cbv [bind call random try_catch assign_result return_result ret initial_store].
  on_site d id k at_goto.
  on_site d id k at_title.
  on_site d id k at_mouse_move.
  on_site d id k at_mouse_delay.
  on_site d id k at_wait_input.
  on_site d id k at_fill.
  on_site d id k at_scroll.
  on_site d id k at_scroll_delay.
  on_site d id k at_wait_next.
  on_site d id k at_click_next.
  on_site d id k at_step1_activated.
  on_site d id k at_step1_issue.
  on_site d id k at_step1_processing.
  on_site d id k at_wait_activate.
  on_site d id k at_click_activate.
  on_site d id k at_step2_activated.
  on_site d id k at_step2_processing.
Qed.

(** ** The shape of the calls of a retry loop *)

Lemma known_status_error : known_status "error".
Proof. unfold known_status; auto 10. Qed.

Section Loop.
Variable d : driver.
Variable body : string -> nat -> nat -> M unit.
Variable verdict : string -> nat -> completion unit.
Hypothesis contract : body_contract body verdict.

Lemma retry_loop_inv id ctx n :
  forall a s c t s',
    retry_loop_of d body id ctx n a s = (c, t, s') ->
    iccid (result s) = id ->
    known_status (status (result s)) ->
    attempts ctx (heap s) t /\
    heap s <= heap s' /\
    iccid (result s') = id /\
    known_status (status (result s')) /\
    (forall r, c = Return r -> r = result s').
Proof.
  induction n as [|n IH]; intros a s c t s' H Hid Hst.
  - cbn in H. inversion H; subst c t s'.
    repeat split; auto; try constructor. discriminate.
  - cbn [retry_loop_of] in H. cbv [bind create] in H.
    destruct (on_page d id a at_newPage) as [e|].
    + inversion H; subst c t s'.
      repeat split; auto; try constructor. discriminate.
    + unfold try_finally, try_catch in H.
      destruct (contract id a (heap s)
                  (mkStore (S (heap s)) (draws s) (result s)))
        as (tb & s1 & E & Hh & Ht & Hv).
      rewrite E in H. cbn in Hh.
      destruct (verdict id a) as [u|r|m]; [contradiction| |].
      * destruct Hv as (Hr & Hri & Hrs & _).
        unfold call in H.
        destruct (on_page d id a at_page_close) as [e|] eqn:Ec;
          inversion H; subst c t s'; clear H;
          (split; [ | repeat split; try lia; try congruence ]).
        -- change (Failed e) with (reply_of (Some e)).
           now apply attempts_last.
        -- change Done with (reply_of None).
           now apply attempts_last.
      * cbn in Hv. unfold set_error_detail, call in H.
        destruct (on_page d id a at_page_close) as [e|].
        -- inversion H; subst c t s'; clear H. cbn.
           rewrite Hv. cbn.
           split; [ | repeat split; try lia; try congruence ].
           rewrite !app_nil_r.
           change (Failed e) with (reply_of (Some e)).
           now apply attempts_last.
        -- cbn in H.
           match type of H with
           | context [retry_loop_of _ _ _ _ _ _ ?s0] =>
               destruct (retry_loop_of d body id ctx n (S a) s0)
                 as [[c2 t2] s2] eqn:E2
           end.
           apply IH in E2; cbn; try (rewrite Hv; auto; fail).
           cbn in E2. destruct E2 as (A1 & A2 & A3 & A4 & A5).
           rewrite Hh in A1, A2.
           inversion H; subst c t s'; clear H.
           split; [ | repeat split; auto; try lia ].
           rewrite !app_nil_r, <- app_assoc. cbn.
           now apply attempts_more.
Qed.
End Loop.

(** ** The shape of the calls of [processIccid] *)

Lemma ActivateSim_init_contract d : init_contract (ActivateSim.initBrowser d).
Proof.
  intros id s Hs. unfold ActivateSim.initBrowser. cbv [bind create ret].
  rewrite Hs.
  destruct (on_browser d id at_launch); cbn.
  - do 3 eexists. split; [reflexivity|]. split; [reflexivity|]. constructor.
  - destruct (on_browser d id at_newContext); cbn.
    + do 3 eexists. split; [reflexivity|]. split; [reflexivity|]. constructor.
    + do 3 eexists. split; [reflexivity|]. split; [reflexivity|].
      repeat split. constructor.
Qed.

Lemma Server_init_contract d : init_contract (Server.initBrowser d).
Proof.
  intros id s Hs. unfold Server.initBrowser. cbv [bind create ret call].
  rewrite Hs.
  destruct (on_browser d id at_launch); cbn.
  - do 3 eexists. split; [reflexivity|]. split; [reflexivity|]. constructor.
  - destruct (on_browser d id at_newContext); cbn.
    + do 3 eexists. split; [reflexivity|]. split; [reflexivity|]. constructor.
    + destruct (on_browser d id at_addInitScript); cbn.
      * do 3 eexists. split; [reflexivity|]. split; [reflexivity|]. constructor.
      * do 3 eexists. split; [reflexivity|]. split; [reflexivity|].
        repeat split. constructor.
Qed.

Section Process.
Variable d : driver.
Variable init : string -> M (nat * nat).
Variable body : string -> nat -> nat -> M unit.
Variable verdict : string -> nat -> completion unit.
Hypothesis init_ok : init_contract init.
Hypothesis contract : body_contract body verdict.

Lemma process_of_shape id n c t s' :
  process_of d init body id n (initial_store id) = (c, t, s') ->
  process_calls (is_fulfilled (settle c)) t /\
  (forall r, settle c = Fulfilled r -> iccid r = id /\ known_status (status r)).
Proof.
  unfold process_of. intros H.
  cbv [bind] in H.
  destruct (init_ok id (initial_store id) eq_refl) as (c0 & t0 & s0 & E0 & R0 & H0).
  rewrite E0 in H.
  destruct c0 as [bc|r0|e0]; [|contradiction|].
  2:{ inversion H; subst c t s'. cbn. split; [now constructor|discriminate]. }
  destruct H0 as (-> & Hh & Hs). cbn [fst snd] in H.
  unfold assign_result in H. cbn [fst snd] in H.
  unfold try_finally, try_catch in H.
  match type of H with
  | context [retry_loop_of _ _ _ _ _ _ ?s1] =>
      destruct (retry_loop_of d body id 1 n 0 s1) as [[c1 t1] s1'] eqn:E1
  end.
  apply (retry_loop_inv d body verdict contract) in E1;
    [ | reflexivity | apply known_status_error ].
  cbn in E1. rewrite Hh in E1. destruct E1 as (A1 & A2 & A3 & A4 & A5).
  unfold call, set_error_detail, return_result in H.
  destruct c1 as [u|r1|e1]; destruct (on_browser d id at_browser_close) as [e|];
    cbn in H; inversion H; subst c t s'; clear H; cbn;
    rewrite ?app_nil_r.
  all: split;
    [ first [ apply (calls_run t0 t1 None); assumption
            | apply (calls_run t0 t1 (Some e)); assumption ]
    | try discriminate ].
  - intros r Hr. inversion Hr; subst r. cbn. auto.
  - intros r Hr. inversion Hr; subst r. rewrite (A5 r1 eq_refl). auto.
  - intros r Hr. inversion Hr; subst r. cbn. auto.
Qed.
End Process.

(** ** Browsers and pages open during one [processIccid] *)

Lemma bounded_nil u : within_bound u -> bounded u [].
Proof.
  intros H done todo E. symmetry in E.
  apply app_eq_nil in E. destruct E as [-> _]. exact H.
Qed.

Lemma bounded_cons u e t :
  within_bound u -> bounded (track u e) t -> bounded u (e :: t).
Proof.
  intros Hu Ht [|e' done] todo E; [exact Hu|].
  cbn in E. injection E as <- E. cbn. now apply (Ht done todo).
Qed.

Lemma bounded_start u t : bounded u t -> within_bound u.
Proof. intros H. exact (H [] t eq_refl). Qed.

Lemma bounded_tail u e t : bounded u (e :: t) -> bounded (track u e) t.
Proof. intros H done todo E. apply (H (e :: done) todo). cbn. now rewrite E. Qed.

Lemma bounded_app t1 : forall u t2,
  bounded u t1 -> bounded (fold_left track t1 u) t2 -> bounded u (t1 ++ t2).
Proof.
  induction t1 as [|e t1 IH]; intros u t2 H1 H2; [exact H2|].
  cbn. apply bounded_cons.
  - exact (bounded_start _ _ H1).
  - apply IH; [now apply bounded_tail | exact H2].
Qed.

Lemma track_page_call p u e : page_call p e -> track u e = u.
Proof.
  intros (_ & H & _). unfold track.
  destruct (request e); cbn in H; try discriminate; reflexivity.
Qed.

Lemma fold_page_calls p calls : forall u,
  Forall (page_call p) calls -> fold_left track calls u = u.
Proof.
  induction calls as [|e calls IH]; intros u H; [reflexivity|].
  inversion H; subst. cbn. rewrite (track_page_call p); auto.
Qed.

Lemma bounded_page_calls p calls : forall u,
  within_bound u -> Forall (page_call p) calls -> bounded u calls.
Proof.
  induction calls as [|e calls IH]; intros u Hu H.
  - now apply bounded_nil.
  - inversion H; subst. apply bounded_cons; [exact Hu|].
    rewrite (track_page_call p); auto.
Qed.

Lemma attempts_bounded ctx h t :
  attempts ctx h t ->
  bounded (mkUsage 1 0) t /\
  browsers (fold_left track t (mkUsage 1 0)) = 1 /\
  pages (fold_left track t (mkUsage 1 0)) <= 1.
Proof.
  assert (W10 : within_bound (mkUsage 1 0)) by (split; cbn; lia).
  assert (W11 : within_bound (mkUsage 1 1)) by (split; cbn; lia).
  induction 1 as [h|h e|h calls r Hc|h calls rest Hc Hr IH].
  - split; [now apply bounded_nil|]. cbn. lia.
  - split; [|cbn; lia].
    apply bounded_cons; [exact W10|]. now apply bounded_nil.
  - split.
    + apply bounded_cons; [exact W10|]. cbn.
      apply bounded_app; [now apply (bounded_page_calls h)|].
      rewrite (fold_page_calls h calls); auto.
      apply bounded_cons; [exact W11|]. apply bounded_nil.
      destruct r; cbn; split; cbn; lia.
    + cbn. rewrite fold_left_app, (fold_page_calls h calls); auto.
      destruct r; cbn; lia.
  - destruct IH as (B & F1 & F2). split.
    + apply bounded_cons; [exact W10|]. cbn.
      apply bounded_app; [now apply (bounded_page_calls h)|].
      rewrite (fold_page_calls h calls); auto.
      apply bounded_cons; [exact W11|]. exact B.
    + cbn. rewrite fold_left_app, (fold_page_calls h calls); auto.
Qed.

Lemma process_calls_bounded b t :
  process_calls b t ->
  bounded (mkUsage 0 0) t /\
  within_bound (usage_after t) /\
  (b = true -> usage_after t = mkUsage 0 0).
Proof.
  assert (W00 : within_bound (mkUsage 0 0)) by (split; cbn; lia).
  assert (W10 : within_bound (mkUsage 1 0)) by (split; cbn; lia).
  intros H. destruct H as [t Hs|t0 loop r Hs Hl].
  - inversion Hs; subst; (split; [|split; [|discriminate]]);
      try (split; cbn; lia);
      repeat (apply bounded_cons; [assumption|cbn]);
      now apply bounded_nil.
  - destruct (attempts_bounded _ _ _ Hl) as (B & F1 & F2).
    assert (E0 : fold_left track t0 (mkUsage 0 0) = mkUsage 1 0)
      by (inversion Hs; reflexivity).
    assert (B0 : bounded (mkUsage 0 0) t0).
    { inversion Hs; subst;
        repeat (apply bounded_cons; [assumption|cbn]);
        now apply bounded_nil. }
    unfold usage_after. rewrite !fold_left_app, E0.
    set (u := fold_left track loop (mkUsage 1 0)) in *.
    split; [|split].
    + apply bounded_app; [exact B0|]. rewrite E0.
      apply bounded_app; [exact B|]. fold u.
      apply bounded_cons; [split; lia|].
      apply bounded_nil. destruct r; cbn; split; cbn; lia.
    + destruct r; cbn; split; cbn; lia.
    + destruct r; [discriminate|]. intros _. cbn. now rewrite F1.
Qed.

(** ** The promise pool *)

Lemma enqueue_length ids : forall pool pool',
  enqueue pool ids = Some pool' -> length pool' = length pool.
Proof.
  induction ids as [|id ids IH]; intros pool pool' H; cbn in H.
  - now inversion H.
  - destruct pool as [|worker pool0]; [discriminate|].
    apply IH in H. rewrite H, length_app. cbn. lia.
Qed.

Lemma enqueue_some ids : forall pool,
  pool <> [] -> exists pool', enqueue pool ids = Some pool'.
Proof.
  induction ids as [|id ids IH]; intros pool Hp; cbn.
  - eauto.
  - destruct pool as [|worker pool0]; [contradiction|].
    apply IH. now destruct pool0.
Qed.

Lemma enqueue_concat ids : forall pool pool',
  enqueue pool ids = Some pool' ->
  Permutation (concat pool') (concat pool ++ ids).
Proof.
  induction ids as [|id ids IH]; intros pool pool' H; cbn in H.
  - inversion H; subst. now rewrite app_nil_r.
  - destruct pool as [|worker pool0]; [discriminate|].
    apply IH in H. rewrite H. clear H IH.
    rewrite concat_app. cbn. rewrite app_nil_r, <- !app_assoc.
    apply Permutation_app_swap_app.
Qed.

Lemma list_sum_bound {A} (f : A -> nat) (l : list A) :
  Forall (fun x => f x <= 1) l -> list_sum (map f l) <= length l.
Proof.
  induction 1 as [|x l Hx Hl IH]; cbn; [lia|].
  unfold list_sum in IH. lia.
Qed.

Section Scheduler.
Variable proc : string -> settled * list event.
Hypothesis proc_calls :
  forall id, process_calls (is_fulfilled (fst (proc id))) (snd (proc id)).
Hypothesis proc_outcome :
  forall id r, fst (proc id) = Fulfilled r ->
    iccid r = id /\ known_status (status r).

Lemma slot_ok_bound s : slot_ok proc s -> within_bound (usage_after (log s)).
Proof.
  unfold slot_ok. destruct (doing s) as [|id todo|id m]; intros H.
  - rewrite H. split; cbn; lia.
  - destruct H as (before & done & -> & Hb & Hd).
    unfold usage_after in *. rewrite fold_left_app, Hb.
    destruct (process_calls_bounded _ _ (proc_calls id)) as (B & _).
    apply (B done todo). now symmetry.
  - exact H.
Qed.

Lemma slot_step_ok s res s' res' :
  slot_step proc s res s' res' -> slot_ok proc s -> slot_ok proc s'.
Proof.
  destruct 1 as [l id rest res|l id e todo rest res|l id rest res r Hr
                |l id rest res m Hm]; unfold slot_ok; cbn; intros H.
  - exists l, []. rewrite app_nil_r. auto.
  - destruct H as (before & done & -> & Hb & Hd).
    exists before, (done ++ [e]).
    rewrite <- !app_assoc. cbn. auto.
  - destruct H as (before & done & -> & Hb & Hd).
    rewrite app_nil_r in Hd. subst done.
    unfold usage_after in *. rewrite fold_left_app, Hb.
    destruct (process_calls_bounded _ _ (proc_calls id)) as (_ & _ & Z).
    apply Z. now rewrite Hr.
  - destruct H as (before & done & -> & Hb & Hd).
    rewrite app_nil_r in Hd. subst done.
    unfold usage_after in *. rewrite fold_left_app, Hb.
    now destruct (process_calls_bounded _ _ (proc_calls id)) as (_ & Z & _).
Qed.

Lemma run_inv_start pool iccids width :
  enqueue (new_pool width) iccids = Some pool ->
  run_inv proc iccids width (start pool).
Proof.
  intros H. split; cbn.
  - rewrite length_map.
    etransitivity; [exact (enqueue_length _ _ _ H)|].
    unfold new_pool. apply repeat_length.
  - apply Forall_forall. intros s Hs.
    apply in_map_iff in Hs. destruct Hs as (p & <- & _). reflexivity.
  - rewrite map_map. cbn. rewrite map_id.
    rewrite (enqueue_concat _ _ _ H).
    unfold new_pool. clear H.
    induction width as [|k IH]; cbn; auto.
  - constructor.
Qed.

Lemma run_inv_step iccids width w w' :
  step proc w w' -> run_inv proc iccids width w -> run_inv proc iccids width w'.
Proof.
  destruct 1 as [before s after res s' res' Hs].
  intros [Hw Hok Hp Hst]; cbn in *. split; cbn.
  - rewrite length_app in *. cbn in *. exact Hw.
  - apply Forall_app in Hok. destruct Hok as (H1 & H2).
    inversion H2; subst. apply Forall_app. split; [exact H1|].
    constructor; [|assumption]. eapply slot_step_ok; eauto.
  - rewrite map_app, concat_app in *. cbn in *.
    destruct Hs as [l id rest res|l id e todo rest res|l id rest res r Hr
                   |l id rest res m Hm]; unfold owed in *; cbn in *;
      try exact Hp.
    destruct (proc_outcome id r Hr) as (Hi & _).
    etransitivity; [|exact Hp].
    rewrite map_app. cbn. rewrite Hi, <- !app_assoc. cbn.
    apply Permutation_app_head. apply Permutation_middle.
  - destruct Hs as [l id rest res|l id e todo rest res|l id rest res r Hr
                   |l id rest res m Hm]; try exact Hst.
    apply Forall_app. split; [exact Hst|].
    constructor; [|constructor]. now apply (proc_outcome id).
Qed.

Lemma run_inv_reachable iccids width pool w :
  enqueue (new_pool width) iccids = Some pool ->
  reachable proc (start pool) w ->
  run_inv proc iccids width w.
Proof.
  intros H. induction 1 as [|w1 w2 _ IH Hs].
  - now apply run_inv_start.
  - eapply run_inv_step; eauto.
Qed.
End Scheduler.

(** ** Claims about one activation attempt *)

Lemma resolves_cli d id k :
  resolves d id k prelude_cli ->
  on_page d id k at_goto = None /\ on_page d id k at_title = None /\
  on_page d id k at_wait_input = None /\ on_page d id k at_fill = None /\
  on_page d id k at_scroll = None /\ on_page d id k at_scroll_delay = None /\
  on_page d id k at_wait_next = None /\ on_page d id k at_click_next = None.
Proof.
  unfold resolves, prelude_cli. intros H.
  repeat match goal with
         | H : Forall _ (_ :: _) |- _ => inversion H; subst; clear H
         end.
  repeat split; assumption.
Qed.

Ltac run_prelude H :=
  destruct (resolves_cli _ _ _ H) as (G1 & G2 & G3 & G4 & G5 & G6 & G7 & G8);
  unfold completion_of, calls_of, ActivateSim.attempt_body;
  cbv [bind call random try_catch assign_result return_result ret];
  rewrite G1, G2, G3, G4, G5, G6, G7, G8; cbn.

(** C3. When the prelude of an attempt resolves, the three markers of step 1
    are awaited one after the other, each with the short bound of its own,
    and the first one that shows up decides: the "already activated" text
    gives [already_activated] without any click on "Activate Now", then the
    "system issue" text gives [invalid_iccid], then the "being processed"
    text gives [processing]; only when all three waits fail does the attempt
    go on to the "Activate Now" button. *)
Theorem step1_markers_in_priority_order cfg d rnd id k page s :
  resolves d id k prelude_cli ->
  let x := ActivateSim.attempt_body cfg d rnd id k page s in
  match on_page d id k at_step1_activated,
        on_page d id k at_step1_issue,
        on_page d id k at_step1_processing with
  | None, _, _ =>
      completion_of x = Return (mkOutcome id "already_activated" text_activated) /\
      calls_at at_click_activate (calls_of x) = [] /\
      marker_waits (calls_of x) = [wait_marker text_activated]
  | Some _, None, _ =>
      completion_of x = Return (mkOutcome id "invalid_iccid" text_issue) /\
      calls_at at_click_activate (calls_of x) = [] /\
      marker_waits (calls_of x) =
        [wait_marker text_activated; wait_marker text_issue]
  | Some _, Some _, None =>
      completion_of x = Return (mkOutcome id "processing" detail_processing) /\
      calls_at at_click_activate (calls_of x) = [] /\
      marker_waits (calls_of x) =
        [wait_marker text_activated; wait_marker text_issue;
         wait_marker text_processing]
  | Some _, Some _, Some _ =>
      firstn 3 (marker_waits (calls_of x)) =
        [wait_marker text_activated; wait_marker text_issue;
         wait_marker text_processing] /\
      calls_at at_wait_activate (calls_of x) =
        [mkEvent at_wait_activate (Page page)
           (waitForSelector (activate_button (selectors cfg)) long_wait)
           (reply_of (on_page d id k at_wait_activate))]
  end.
Proof.
  intros H x. subst x. run_prelude H.
  destruct (on_page d id k at_step1_activated); cbn; [|auto].
  destruct (on_page d id k at_step1_issue); cbn; [|auto].
  destruct (on_page d id k at_step1_processing); cbn; [|auto].
  destruct (on_page d id k at_wait_activate); cbn; [auto|].
  destruct (on_page d id k at_click_activate); cbn; [auto|].
  destruct (on_page d id k at_step2_activated); cbn; [|auto].
  destruct (on_page d id k at_step2_processing); cbn; auto.
Qed.

Lemma step1_markers_in_priority_order_witness :
  completion_of
    (ActivateSim.attempt_body cfg0 d_all_ok rnd0 "8985200000000000017" 0 2
       (initial_store "8985200000000000017")) =
    Return (mkOutcome "8985200000000000017" "already_activated"
              "Your SIM card has been successfully activated") /\
  calls_at at_click_activate
    (calls_of
       (ActivateSim.attempt_body cfg0 d_all_ok rnd0 "8985200000000000017" 0 2
          (initial_store "8985200000000000017"))) = [] /\
  marker_waits
    (calls_of
       (ActivateSim.attempt_body cfg0 d_all_ok rnd0 "8985200000000000017" 0 2
          (initial_store "8985200000000000017"))) =
    [wait_marker text_activated].
Proof.
  apply (step1_markers_in_priority_order cfg0 d_all_ok rnd0
           "8985200000000000017" 0 2 (initial_store "8985200000000000017")).
  repeat constructor.
Defined.

(** C4. When the prelude resolves and none of the three markers of step 1
    shows up, the next calls are the wait for and the click on "Activate
    Now"; once the click has resolved the outcome is [success] if the
    success text shows up, else [processing] if the "being processed" text
    shows up, else [activation_failed] with the detail
    "No expected response received".  If the button cannot be clicked the
    attempt throws. *)
Theorem step2_classification cfg d rnd id k page s :
  resolves d id k prelude_cli ->
  step1_silent d id k ->
  let x := ActivateSim.attempt_body cfg d rnd id k page s in
  match on_page d id k at_wait_activate, on_page d id k at_click_activate with
  | None, None =>
      calls_at at_click_activate (calls_of x) =
        [mkEvent at_click_activate (Page page)
           (click (activate_button (selectors cfg))) Done] /\
      match on_page d id k at_step2_activated,
            on_page d id k at_step2_processing with
      | None, _ =>
          completion_of x =
            Return (mkOutcome id "success"
                      "Your SIM card has been successfully activated")
      | Some _, None =>
          completion_of x =
            Return (mkOutcome id "processing"
                      "Your activation order is being processed, please try again later")
      | Some _, Some _ =>
          exists r,
            completion_of x = Return r /\
            r = mkOutcome id "activation_failed" "No expected response received" /\
            String.prefix "no expected response" (lower (error_detail r)) = true
      end
  | Some e, _ => completion_of x = Throw e
  | None, Some e => completion_of x = Throw e
  end.
Proof.
  intros H (S1 & S2 & S3) x. subst x. run_prelude H.
  destruct (on_page d id k at_step1_activated); cbn; [|contradiction].
  destruct (on_page d id k at_step1_issue); cbn; [|contradiction].
  destruct (on_page d id k at_step1_processing); cbn; [|contradiction].
  destruct (on_page d id k at_wait_activate); cbn; [auto|].
  destruct (on_page d id k at_click_activate); cbn; [auto|].
  destruct (on_page d id k at_step2_activated); cbn; [|auto].
  destruct (on_page d id k at_step2_processing); cbn; [|auto].
  split; [reflexivity|]. eexists. split; [reflexivity|]. split; reflexivity.
Qed.

Lemma step2_classification_witness :
  calls_at at_click_activate
    (calls_of
       (ActivateSim.attempt_body cfg0 d_silent rnd0 "8985200000000000017" 0 2
          (initial_store "8985200000000000017"))) =
    [mkEvent at_click_activate (Page 2) (click "#activate") Done] /\
  exists r,
    completion_of
      (ActivateSim.attempt_body cfg0 d_silent rnd0 "8985200000000000017" 0 2
         (initial_store "8985200000000000017")) = Return r /\
    r = mkOutcome "8985200000000000017" "activation_failed"
          "No expected response received" /\
    String.prefix "no expected response" (lower (error_detail r)) = true.
Proof.
  apply (step2_classification cfg0 d_silent rnd0 "8985200000000000017" 0 2
           (initial_store "8985200000000000017")).
  - repeat constructor.
  - repeat split; discriminate.
Defined.

Lemma step2_success_example :
  completion_of
    (ActivateSim.attempt_body cfg0 d_step1_silent rnd0 "8985200000000000017"
       0 2 (initial_store "8985200000000000017")) =
  Return (mkOutcome "8985200000000000017" "success"
            "Your SIM card has been successfully activated").
Proof. reflexivity. Qed.

Ltac marker_leaf :=
  cbn; intros Hr; try discriminate Hr;
  injection Hr as <-; cbn; unfold step1_silent;
  repeat split; intros;
  repeat match goal with
         | H : _ /\ _ |- _ => destruct H
         end;
  try discriminate; try congruence; try reflexivity.

Ltac marker_site d id k s :=
  destruct (on_page d id k s) eqn:?; try solve [marker_leaf].

(** In both programs the status [already_activated] and the status
    [success] come from waits for one and the same selector.  Whenever an
    attempt returns an Outcome, its status is [already_activated] exactly
    when that text shows up in the wait of step 1, which is then the last
    call of the attempt and no click on "Activate Now" was made, and it is
    [success] exactly when no marker of step 1 shows up and the text shows
    up in the wait that follows the click on "Activate Now"; in both cases
    the detail of the Outcome is that text. *)
Lemma returned_status_by_position
  (v : program) cfg d rnd id k page s r :
  let x := attempt_body_of v cfg d rnd id k page s in
  completion_of x = Return r ->
  (status r = "already_activated" <->
     on_page d id k at_step1_activated = None) /\
  (status r = "success" <->
     step1_silent d id k /\ on_page d id k at_step2_activated = None) /\
  (status r = "already_activated" ->
     error_detail r = "Your SIM card has been successfully activated" /\
     calls_at at_click_activate (calls_of x) = [] /\
     lastn 1 (calls_of x) =
       [mkEvent at_step1_activated (Page page)
          (waitForSelector "text=Your SIM card has been successfully activated"
             short_wait) Done]) /\
  (status r = "success" ->
     error_detail r = "Your SIM card has been successfully activated" /\
     lastn 2 (calls_of x) =
       [mkEvent at_click_activate (Page page)
          (click (activate_button (selectors cfg))) Done;
        mkEvent at_step2_activated (Page page)
          (waitForSelector "text=Your SIM card has been successfully activated"
             short_wait) Done]).
Proof.
  intros x. subst x. unfold completion_of, calls_of.
  destruct v; cbn [attempt_body_of].
  - unfold ActivateSim.attempt_body.
    cbv [bind call random try_catch assign_result return_result ret].
    marker_site d id k at_goto.
    marker_site d id k at_title.
    marker_site d id k at_wait_input.
    marker_site d id k at_fill.
    marker_site d id k at_scroll.
    marker_site d id k at_scroll_delay.
    marker_site d id k at_wait_next.
    marker_site d id k at_click_next.
    marker_site d id k at_step1_activated.
    marker_site d id k at_step1_issue.
    marker_site d id k at_step1_processing.
    marker_site d id k at_wait_activate.
    marker_site d id k at_click_activate.
    marker_site d id k at_step2_activated.
    marker_site d id k at_step2_processing.
  - unfold Server.attempt_body.
    cbv [bind call random try_catch assign_result return_result ret].
    marker_site d id k at_goto.
    marker_site d id k at_title.
    marker_site d id k at_mouse_move.
    marker_site d id k at_mouse_delay.
    marker_site d id k at_wait_input.
    marker_site d id k at_fill.
    marker_site d id k at_scroll.
    marker_site d id k at_scroll_delay.
    marker_site d id k at_wait_next.
    marker_site d id k at_click_next.
    marker_site d id k at_step1_activated.
    marker_site d id k at_step1_issue.
    marker_site d id k at_step1_processing.
    marker_site d id k at_wait_activate.
    marker_site d id k at_click_activate.
    marker_site d id k at_step2_activated.
    marker_site d id k at_step2_processing.
Qed.

(** ** The retry loop *)

Lemma sessions_app t1 t2 : sessions (t1 ++ t2) = sessions t1 ++ sessions t2.
Proof.
  induction t1 as [|e t1 IH]; [reflexivity|].
  cbn. destruct (request e), (response e); cbn; now rewrite ?IH.
Qed.

Lemma sessions_page_calls p calls :
  Forall (page_call p) calls -> sessions calls = [].
Proof.
  induction 1 as [|e calls (_ & He & _) _ IH]; [reflexivity|].
  cbn. destruct (request e); cbn in He; try discriminate; exact IH.
Qed.

Section Retry.
Variable d : driver.
Variable body : string -> nat -> nat -> M unit.
Variable verdict : string -> nat -> completion unit.
Hypothesis contract : body_contract body verdict.

(** An iteration whose body throws and whose page closes: the loop goes on
    with the message stored in [result]. *)
Lemma iteration_throws id ctx n a s m :
  on_page d id a at_newPage = None ->
  verdict id a = Throw m ->
  on_page d id a at_page_close = None ->
  exists calls s1,
    Forall (page_call (heap s)) calls /\
    heap s1 = S (heap s) /\
    result s1 = with_detail (result s) m /\
    forall c t s',
      retry_loop_of d body id ctx n (S a) s1 = (c, t, s') ->
      retry_loop_of d body id ctx (S n) a s =
        (c, mkEvent at_newPage (Context ctx) newPage (Made (Page (heap s)))
            :: calls ++ mkEvent at_page_close (Page (heap s)) close Done :: t,
         s').
Proof.
  intros Hn Hv Hc.
  destruct (contract id a (heap s) (mkStore (S (heap s)) (draws s) (result s)))
    as (tb & s1 & E & Hh & Ht & Hr).
  rewrite Hv in E, Hr. cbn in Hh, Hr.
  exists tb, (mkStore (heap s1) (draws s1) (with_detail (result s1) m)).
  cbn. repeat split; auto.
  - now rewrite Hr.
  - intros c t s' H.
    cbn [retry_loop_of]. cbv [bind create try_finally try_catch].
    rewrite Hn, E. unfold set_error_detail, call. rewrite Hc. cbn.
    unfold with_detail in H. rewrite H. cbn.
    now rewrite !app_nil_r, <- app_assoc.
Qed.

(** An iteration whose body returns an Outcome: the loop is left. *)
Lemma iteration_returns id ctx n a s r :
  on_page d id a at_newPage = None ->
  verdict id a = Return r ->
  exists calls s1,
    Forall (page_call (heap s)) calls /\
    result s1 = r /\
    retry_loop_of d body id ctx (S n) a s =
      (match on_page d id a at_page_close with
       | None => Return r
       | Some e => Throw e
       end,
       mkEvent at_newPage (Context ctx) newPage (Made (Page (heap s)))
       :: calls ++ [mkEvent at_page_close (Page (heap s)) close
                      (reply_of (on_page d id a at_page_close))],
       s1).
Proof.
  intros Hn Hv.
  destruct (contract id a (heap s) (mkStore (S (heap s)) (draws s) (result s)))
    as (tb & s1 & E & Hh & Ht & Hr).
  rewrite Hv in E, Hr. destruct Hr as (Hr & _).
  exists tb, s1. repeat split; auto.
  cbn [retry_loop_of]. cbv [bind create try_finally try_catch].
  rewrite Hn, E. unfold call.
  destruct (on_page d id a at_page_close); cbn; now rewrite ?app_nil_r.
Qed.

Lemma loop_all_throw id ctx msg n :
  forall a s,
    (forall j, a <= j < a + n ->
       on_page d id j at_newPage = None /\
       verdict id j = Throw (msg j) /\
       on_page d id j at_page_close = None) ->
    exists t s',
      retry_loop_of d body id ctx n a s = (Normal tt, t, s') /\
      length (sessions t) = n /\
      result s' = match n with
                  | O => result s
                  | S _ => with_detail (result s) (msg (a + n - 1))
                  end.
Proof.
  induction n as [|n IH]; intros a s H.
  - exists [], s. repeat split.
  - destruct (H a ltac:(lia)) as (Hn & Hv & Hc).
    destruct (iteration_throws id ctx n a s (msg a) Hn Hv Hc)
      as (calls & s1 & Hcalls & Hh & Hr & Hstep).
    destruct (IH (S a) s1) as (t & s' & E & Hs & Hres).
    { intros j Hj. apply H. lia. }
    eexists _, s'. split; [apply Hstep; exact E|]. split.
    + cbn. rewrite sessions_app, (sessions_page_calls _ _ Hcalls). cbn.
      now rewrite Hs.
    + rewrite Hres, Hr. destruct n.
      * f_equal. f_equal. lia.
      * unfold with_detail. cbn. f_equal. f_equal. lia.
Qed.

Lemma loop_returns id ctx r k :
  forall n a s,
    k < n ->
    (forall j, a <= j < a + k ->
       on_page d id j at_newPage = None /\
       (exists m, verdict id j = Throw m) /\
       on_page d id j at_page_close = None) ->
    on_page d id (a + k) at_newPage = None ->
    verdict id (a + k) = Return r ->
    exists t s',
      retry_loop_of d body id ctx n a s =
        (match on_page d id (a + k) at_page_close with
         | None => Return r
         | Some e => Throw e
         end, t, s') /\
      length (sessions t) = k + 1 /\
      result s' = r.
Proof.
  induction k as [|k IH]; intros n a s Hk H Hn Hv.
  - destruct n as [|n]; [lia|]. rewrite Nat.add_0_r in *.
    destruct (iteration_returns id ctx n a s r Hn Hv)
      as (calls & s1 & Hcalls & Hr & E).
    eexists _, s1. split; [exact E|]. split; [|exact Hr].
    cbn. rewrite sessions_app, (sessions_page_calls _ _ Hcalls).
    cbn. now destruct (on_page d id a at_page_close).
  - destruct n as [|n]; [lia|].
    destruct (H a ltac:(lia)) as (Hn0 & (m & Hv0) & Hc0).
    destruct (iteration_throws id ctx n a s m Hn0 Hv0 Hc0)
      as (calls & s1 & Hcalls & Hh & Hr & Hstep).
    destruct (IH n (S a) s1) as (t & s' & E & Hs & Hres).
    + lia.
    + intros j Hj. apply H. lia.
    + now replace (S a + k) with (a + S k) by lia.
    + now replace (S a + k) with (a + S k) by lia.
    + replace (S a + k) with (a + S k) in E by lia.
      eexists _, s'. split; [apply Hstep; exact E|]. split; [|exact Hres].
      cbn. rewrite sessions_app, (sessions_page_calls _ _ Hcalls). cbn.
      rewrite Hs. lia.
Qed.
End Retry.

(** ** [processIccid] around its retry loop *)

Lemma body_contract_of v cfg d rnd :
  body_contract (attempt_body_of v cfg d rnd) (verdict_of v cfg d rnd).
Proof.
  destruct v; [apply ActivateSim_body_contract | apply Server_body_contract].
Qed.

Lemma init_contract_of v d : init_contract (initBrowser_of v d).
Proof.
  destruct v; [apply ActivateSim_init_contract | apply Server_init_contract].
Qed.

Lemma processIccid_of_eq v cfg d rnd id n :
  processIccid_of v cfg d rnd id n =
  match process_of d (initBrowser_of v d) (attempt_body_of v cfg d rnd) id n
          (initial_store id) with
  | (c, t, _) => (settle c, t)
  end.
Proof. destruct v; reflexivity. Qed.

Lemma setup_resolves_init v d id s :
  setup_resolves v d id ->
  exists t0,
    initBrowser_of v d id s =
      (Normal (heap s, S (heap s)), t0,
       mkStore (S (S (heap s))) (draws s) (result s)) /\
    sessions t0 = [].
Proof.
  intros (H1 & H2 & H3).
  destruct v; cbn [initBrowser_of];
    unfold ActivateSim.initBrowser, Server.initBrowser;
    cbv [bind create ret call]; rewrite H1, H2, ?H3; cbn;
    eexists; split; reflexivity.
Qed.

Lemma process_after_loop v cfg d rnd id n c1 t1 s1 :
  setup_resolves v d id ->
  retry_loop_of d (attempt_body_of v cfg d rnd) id 1 n 0
    (mkStore 2 0 (mkOutcome id "error" "")) = (c1, t1, s1) ->
  fst (processIccid_of v cfg d rnd id n) =
    settle_after_loop d id c1 (result s1) /\
  sessions (snd (processIccid_of v cfg d rnd id n)) = sessions t1.
Proof.
  intros Hs Hl. rewrite processIccid_of_eq. unfold process_of.
  destruct (setup_resolves_init v d id (initial_store id) Hs) as (t0 & E0 & S0).
  cbv [bind]. rewrite E0. cbn [fst snd heap draws result initial_store].
  unfold assign_result, try_finally, try_catch. cbn [heap draws result].
  rewrite Hl. unfold settle_after_loop, call, set_error_detail, return_result.
  destruct c1 as [u|r1|e1];
    destruct (on_browser d id at_browser_close) as [e|]; cbn;
    rewrite ?app_nil_r, ?sessions_app, ?S0; cbn;
    rewrite ?app_nil_r; auto.
Qed.

Lemma returned_is_classified v cfg d rnd id k r :
  verdict_of v cfg d rnd id k = Return r ->
  iccid r = id /\ classified (status r).
Proof.
  intros Hv.
  destruct (body_contract_of v cfg d rnd id k 0 (initial_store id))
    as (t & s' & _ & _ & _ & H).
  rewrite Hv in H. destruct H as (_ & Hi & Hk & He).
  split; [exact Hi|]. unfold classified.
  destruct Hk as [?|[?|[?|[?|[?|?]]]]]; auto 6. contradiction.
Qed.

(** C5. When [initBrowser] resolves and each of the [maxRetries] attempts
    opens its page, throws and closes its page, [processIccid] settles by
    the [browser.close()] of its outer [finally]: when that call resolves,
    the promise is fulfilled with status [error] and, as detail, the
    message thrown by the last attempt; when it rejects, the promise is
    rejected with the message of [browser.close()] and there is no
    Outcome. *)
Theorem exhausted_retries_settle_by_browser_close
  (v : program) cfg d rnd id maxRetries (msg : nat -> string) :
  0 < maxRetries ->
  setup_resolves v d id ->
  (forall k, k < maxRetries ->
     on_page d id k at_newPage = None /\
     verdict_of v cfg d rnd id k = Throw (msg k) /\
     on_page d id k at_page_close = None) ->
  fst (processIccid_of v cfg d rnd id maxRetries) =
    match on_browser d id at_browser_close with
    | None => Fulfilled (mkOutcome id "error" (msg (maxRetries - 1)))
    | Some e => Rejected e
    end /\
  length (sessions (snd (processIccid_of v cfg d rnd id maxRetries))) =
    maxRetries.
Proof.
  intros Hn Hs H.
  destruct (loop_all_throw d _ _ (body_contract_of v cfg d rnd) id 1 msg
              maxRetries 0 (mkStore 2 0 (mkOutcome id "error" "")))
    as (t & s' & E & Hlen & Hres).
  { intros j Hj. apply H. lia. }
  destruct (process_after_loop v cfg d rnd id maxRetries _ _ _ Hs E) as (P1 & P2).
  rewrite P1, P2. split; [|exact Hlen].
  unfold settle_after_loop. rewrite Hres.
  destruct (on_browser d id at_browser_close); [reflexivity|].
  destruct maxRetries; [lia|]. reflexivity.
Qed.

(** Navigation fails in both attempts and [browser.close()] rejects: the
    promise of [processIccid] is rejected after two pages. *)
Lemma exhausted_retries_settle_by_browser_close_witness :
  fst (ActivateSim.processIccid cfg0 d_nav_fails_close_rejects rnd0 iccid0 2) =
    Rejected "Target page, context or browser has been closed" /\
  length (sessions (snd (ActivateSim.processIccid cfg0
                           d_nav_fails_close_rejects rnd0 iccid0 2))) = 2.
Proof.
  apply (exhausted_retries_settle_by_browser_close cli cfg0
           d_nav_fails_close_rejects rnd0 iccid0 2 nav_message).
  - lia.
  - repeat split.
  - intros k Hk. destruct k as [|[|k]]; [repeat split..|lia].
Defined.

(** C6, as the code has it.  When attempt [k] is started and returns a
    classified Outcome [r], no further attempt is made: exactly [k + 1]
    pages are ever opened.  When the [browser.close()] of the outer
    [finally] resolves, [processIccid] is fulfilled with the identifier and
    the status of [r]: with [r] itself when the [page.close()] that ends
    the attempt resolves, and with [r] carrying the message of
    [page.close()] as its detail when that call rejects. *)
Theorem classified_outcome_ends_retries
  (v : program) cfg d rnd id maxRetries k r :
  attempt_starts v cfg d rnd id maxRetries k ->
  verdict_of v cfg d rnd id k = Return r ->
  iccid r = id /\ classified (status r) /\
  length (sessions (snd (processIccid_of v cfg d rnd id maxRetries))) = k + 1 /\
  (on_browser d id at_browser_close = None ->
   fst (processIccid_of v cfg d rnd id maxRetries) =
     Fulfilled match on_page d id k at_page_close with
               | None => r
               | Some e => with_detail r e
               end).
Proof.
  intros (Hk & Hs & H & Hn) Hv.
  destruct (returned_is_classified v cfg d rnd id k r Hv) as (Hi & Hc).
  split; [exact Hi|]. split; [exact Hc|].
  destruct (loop_returns d _ _ (body_contract_of v cfg d rnd) id 1 r k
              maxRetries 0 (mkStore 2 0 (mkOutcome id "error" "")))
    as (t & s' & E & Hlen & Hres); auto.
  { intros j Hj. apply H. lia. }
  cbn [Nat.add] in E.
  destruct (process_after_loop v cfg d rnd id maxRetries _ _ _ Hs E) as (P1 & P2).
  rewrite P1, P2. split; [exact Hlen|].
  intros Hb. unfold settle_after_loop. rewrite Hres, Hb.
  now destruct (on_page d id k at_page_close).
Qed.

(** The first attempt cannot navigate, the second one is classified
    [already_activated]: the third attempt is never made. *)
Lemma classified_outcome_ends_retries_witness :
  length (sessions (snd (ActivateSim.processIccid cfg0 d_nav_fails_once rnd0
                           iccid0 3))) = 2 /\
  fst (ActivateSim.processIccid cfg0 d_nav_fails_once rnd0 iccid0 3) =
    Fulfilled (mkOutcome iccid0 "already_activated" text_activated).
Proof.
  destruct (classified_outcome_ends_retries cli cfg0 d_nav_fails_once rnd0
              iccid0 3 1 (mkOutcome iccid0 "already_activated" text_activated))
    as (_ & _ & H1 & H2).
  - split; [lia|]. split; [repeat split|]. split; [|reflexivity].
    intros j Hj. destruct j as [|j]; [|lia].
    split; [reflexivity|]. split; [|reflexivity].
    exists "net::ERR_NAME_NOT_RESOLVED". reflexivity.
  - reflexivity.
  - split; [exact H1|]. apply H2. reflexivity.
Defined.

(** C6, as stated, fails: the first attempt is classified
    [already_activated], and the Outcome [processIccid] returns is not the
    one the attempt produced, its [page.close()] having rejected. *)
Lemma classified_outcome_is_rewritten_when_page_close_rejects :
  ActivateSim.attempt_verdict cfg0 d_page_close_rejects rnd0 iccid0 0 =
    Return (mkOutcome iccid0 "already_activated" text_activated) /\
  fst (ActivateSim.processIccid cfg0 d_page_close_rejects rnd0 iccid0 2) =
    Fulfilled (mkOutcome iccid0 "already_activated"
                 "Target page, context or browser has been closed") /\
  fst (ActivateSim.processIccid cfg0 d_page_close_rejects rnd0 iccid0 2) <>
    Fulfilled (mkOutcome iccid0 "already_activated" text_activated).
Proof.
  split; [reflexivity|]. split; [reflexivity|]. discriminate.
Qed.

(** [activation_failed] is an Outcome like the others: it is returned by the
    first attempt and no second page is opened. *)
Lemma activation_failed_is_not_retried :
  fst (ActivateSim.processIccid cfg0 d_silent rnd0 iccid0 2) =
    Fulfilled (mkOutcome iccid0 "activation_failed" "No expected response received") /\
  length (sessions (snd (ActivateSim.processIccid cfg0 d_silent rnd0 iccid0 2))) = 1.
Proof. split; reflexivity. Qed.

(** A driver on which every call made for [id] resolves, so that the
    "already activated" text always shows up: the Outcome is
    [already_activated], reached in the first attempt, and "Activate Now"
    is never clicked. *)
Lemma always_activated_stub v cfg d rnd id n :
  (forall s, on_browser d id s = None) ->
  (forall k s, on_page d id k s = None) ->
  fst (processIccid_of v cfg d rnd id (S n)) =
    Fulfilled (mkOutcome id "already_activated" text_activated) /\
  calls_at at_click_activate (snd (processIccid_of v cfg d rnd id (S n))) = [] /\
  length (sessions (snd (processIccid_of v cfg d rnd id (S n)))) = 1.
Proof.
  intros Hb Hp.
  destruct v; cbn [processIccid_of];
    unfold ActivateSim.processIccid, Server.processIccid,
      ActivateSim.processIccid_body, Server.processIccid_body,
      ActivateSim.initBrowser, Server.initBrowser;
    cbn [ActivateSim.retry_loop Server.retry_loop];
    unfold ActivateSim.attempt_body, Server.attempt_body;
    cbv [bind call create random try_catch try_finally assign_result
         return_result ret set_error_detail initial_store];
    rewrite !Hb, !Hp; cbn; repeat split.
Qed.

(** ** The marker text read at two places *)

Lemma resolves_server d id k :
  resolves d id k prelude_server ->
  on_page d id k at_goto = None /\ on_page d id k at_title = None /\
  on_page d id k at_mouse_move = None /\ on_page d id k at_mouse_delay = None /\
  on_page d id k at_wait_input = None /\ on_page d id k at_fill = None /\
  on_page d id k at_scroll = None /\ on_page d id k at_scroll_delay = None /\
  on_page d id k at_wait_next = None /\ on_page d id k at_click_next = None.
Proof.
  unfold resolves, prelude_server. intros H.
  repeat match goal with
         | H : Forall _ (_ :: _) |- _ => inversion H; subst; clear H
         end.
  repeat split; assumption.
Qed.

(** An attempt whose prelude resolves and whose "Activate Now" button can
    be clicked when it is reached always returns an Outcome. *)
Lemma attempt_returns v cfg d rnd id k :
  resolves d id k (prelude_of v) ->
  (step1_silent d id k ->
   on_page d id k at_wait_activate = None /\
   on_page d id k at_click_activate = None) ->
  exists r, verdict_of v cfg d rnd id k = Return r.
Proof.
  intros Hp Hb. unfold step1_silent in Hb.
  destruct v; cbn [verdict_of prelude_of] in *.
  - destruct (resolves_cli _ _ _ Hp)
      as (G1 & G2 & G3 & G4 & G5 & G6 & G7 & G8).
    unfold ActivateSim.attempt_verdict, ActivateSim.attempt_body.
    cbv [bind call random try_catch assign_result return_result ret].
    rewrite G1, G2, G3, G4, G5, G6, G7, G8. cbn.
    destruct (on_page d id k at_step1_activated); cbn; [|eauto].
    destruct (on_page d id k at_step1_issue); cbn; [|eauto].
    destruct (on_page d id k at_step1_processing); cbn; [|eauto].
    destruct Hb as (B1 & B2); [repeat split; discriminate|].
    rewrite B1, B2. cbn.
    destruct (on_page d id k at_step2_activated); cbn; [|eauto].
    destruct (on_page d id k at_step2_processing); cbn; eauto.
  - destruct (resolves_server _ _ _ Hp)
      as (G1 & G2 & G3 & G4 & G5 & G6 & G7 & G8 & G9 & G10).
    unfold Server.attempt_verdict, Server.attempt_body.
    cbv [bind call random try_catch assign_result return_result ret].
    rewrite G1, G2, G3, G4, G5, G6, G7, G8, G9, G10. cbn.
    destruct (on_page d id k at_step1_activated); cbn; [|eauto].
    destruct (on_page d id k at_step1_issue); cbn; [|eauto].
    destruct (on_page d id k at_step1_processing); cbn; [|eauto].
    destruct Hb as (B1 & B2); [repeat split; discriminate|].
    rewrite B1, B2. cbn.
    destruct (on_page d id k at_step2_activated); cbn; [|eauto].
    destruct (on_page d id k at_step2_processing); cbn; eauto.
Qed.

(** ** The two programs compared *)

Lemma body_contract_on_ext body id v v' :
  (forall k, v k = v' k) ->
  body_contract_on body id v -> body_contract_on body id v'.
Proof.
  intros E H k page s. destruct (H k page s) as (t & s' & H1 & H2 & H3 & H4).
  exists t, s'. rewrite <- E. auto.
Qed.

(** Two bodies with the same completions drive the loop to the same
    completion and the same [result]. *)
Lemma loops_agree d body1 body2 id v ctx1 ctx2 n :
  body_contract_on body1 id v ->
  body_contract_on body2 id v ->
  forall a s1 s2,
    result s1 = result s2 ->
    exists c t1 t2 s1' s2',
      retry_loop_of d body1 id ctx1 n a s1 = (c, t1, s1') /\
      retry_loop_of d body2 id ctx2 n a s2 = (c, t2, s2') /\
      result s1' = result s2'.
Proof.
  intros C1 C2. induction n as [|n IH]; intros a s1 s2 Hr.
  - exists (Normal tt), [], [], s1, s2. auto.
  - cbn [retry_loop_of]. cbv [bind create try_finally try_catch].
    destruct (on_page d id a at_newPage) as [e|].
    { do 5 eexists. split; [reflexivity|]. split; [reflexivity|]. exact Hr. }
    destruct (C1 a (heap s1) (mkStore (S (heap s1)) (draws s1) (result s1)))
      as (tb1 & u1 & E1 & _ & _ & V1).
    destruct (C2 a (heap s2) (mkStore (S (heap s2)) (draws s2) (result s2)))
      as (tb2 & u2 & E2 & _ & _ & V2).
    rewrite E1, E2. unfold call, set_error_detail.
    destruct (v a) as [u|r|m]; [contradiction| |].
    + destruct V1 as (V1 & _), V2 as (V2 & _).
      destruct (on_page d id a at_page_close); cbn;
        do 5 eexists; (split; [reflexivity|]); (split; [reflexivity|]);
        congruence.
    + cbn in V1, V2.
      destruct (on_page d id a at_page_close); cbn.
      * do 5 eexists. split; [reflexivity|]. split; [reflexivity|].
        cbn. congruence.
      * match goal with
        | |- context [retry_loop_of d body1 id ctx1 n (S a) ?x1] =>
            match goal with
            | |- context [retry_loop_of d body2 id ctx2 n (S a) ?x2] =>
                destruct (IH (S a) x1 x2)
                  as (c & t1 & t2 & s1' & s2' & L1 & L2 & L3)
            end
        end.
        { cbn. congruence. }
        rewrite L1, L2.
        do 5 eexists. split; [reflexivity|]. split; [reflexivity|]. exact L3.
Qed.

Ltac same_site d id k s :=
  destruct (on_page d id k s); cbn; try reflexivity.

Lemma verdicts_agree cfg d rnd rnd' id k :
  on_page d id k at_mouse_move = None ->
  on_page d id k at_mouse_delay = None ->
  ActivateSim.attempt_verdict cfg d rnd id k =
  Server.attempt_verdict cfg d rnd' id k.
Proof.
  intros H1 H2.
  unfold ActivateSim.attempt_verdict, Server.attempt_verdict,
    ActivateSim.attempt_body, Server.attempt_body.
  cbv [bind call random try_catch assign_result return_result ret initial_store].
  rewrite H1, H2.
  same_site d id k at_goto.
  same_site d id k at_title.
  same_site d id k at_wait_input.
  same_site d id k at_fill.
  same_site d id k at_scroll.
  same_site d id k at_scroll_delay.
  same_site d id k at_wait_next.
  same_site d id k at_click_next.
  same_site d id k at_step1_activated.
  same_site d id k at_step1_issue.
  same_site d id k at_step1_processing.
  same_site d id k at_wait_activate.
  same_site d id k at_click_activate.
  same_site d id k at_step2_activated.
  same_site d id k at_step2_processing.
Qed.

(** C9, as the code has it.  For one identifier, one configuration and one
    driver, the two programs settle [processIccid] alike, whatever the
    random numbers drawn on either side, provided the calls that only the
    server variant makes ([addInitScript], the mouse move and the delay
    after it) resolve. *)
Theorem variants_agree_when_server_only_calls_resolve
  cfg d rnd rnd' id maxRetries :
  server_only_calls_resolve d id ->
  fst (ActivateSim.processIccid cfg d rnd id maxRetries) =
  fst (Server.processIccid cfg d rnd' id maxRetries).
Proof.
  intros (Hscript & Hmouse).
  destruct (on_browser d id at_launch) as [e|] eqn:El.
  { unfold ActivateSim.processIccid, Server.processIccid,
      ActivateSim.processIccid_body, Server.processIccid_body,
      ActivateSim.initBrowser, Server.initBrowser.
    cbv [bind create]. rewrite El. reflexivity. }
  destruct (on_browser d id at_newContext) as [e|] eqn:Ec.
  { unfold ActivateSim.processIccid, Server.processIccid,
      ActivateSim.processIccid_body, Server.processIccid_body,
      ActivateSim.initBrowser, Server.initBrowser.
    cbv [bind create]. rewrite El. cbn. rewrite Ec. reflexivity. }
  assert (S1 : setup_resolves cli d id) by (repeat split; assumption).
  assert (S2 : setup_resolves server d id) by (repeat split; assumption).
  destruct (loops_agree d (ActivateSim.attempt_body cfg d rnd)
              (Server.attempt_body cfg d rnd') id
              (ActivateSim.attempt_verdict cfg d rnd id) 1 1 maxRetries)
    with (a := 0) (s1 := mkStore 2 0 (mkOutcome id "error" ""))
         (s2 := mkStore 2 0 (mkOutcome id "error" ""))
    as (c & t1 & t2 & s1' & s2' & L1 & L2 & L3).
  - apply ActivateSim_body_contract.
  - apply (body_contract_on_ext _ _ (Server.attempt_verdict cfg d rnd' id)).
    + intros k. symmetry. apply verdicts_agree; apply Hmouse.
    + apply Server_body_contract.
  - reflexivity.
  - destruct (process_after_loop cli cfg d rnd id maxRetries _ _ _ S1 L1)
      as (P1 & _).
    destruct (process_after_loop server cfg d rnd' id maxRetries _ _ _ S2 L2)
      as (P2 & _).
    cbn [processIccid_of] in P1, P2. rewrite P1, P2, L3. reflexivity.
Qed.

Lemma variants_agree_when_server_only_calls_resolve_witness :
  fst (ActivateSim.processIccid cfg0 d_nav_fails_once rnd0 iccid0 2) =
  fst (Server.processIccid cfg0 d_nav_fails_once (fun _ => 0.25%float) iccid0 2).
Proof.
  apply variants_agree_when_server_only_calls_resolve.
  split; [reflexivity|]. intros k. destruct k; split; reflexivity.
Defined.

(** C9, as stated, fails: one driver, two different classified Outcomes. *)
Lemma variants_disagree_when_mouse_move_rejects :
  fst (ActivateSim.processIccid cfg0 d_mouse_rejects_once rnd0 iccid0 2) =
    Fulfilled (mkOutcome iccid0 "already_activated" text_activated) /\
  fst (Server.processIccid cfg0 d_mouse_rejects_once rnd0 iccid0 2) =
    Fulfilled (mkOutcome iccid0 "invalid_iccid" text_issue) /\
  fst (ActivateSim.processIccid cfg0 d_mouse_rejects_once rnd0 iccid0 2) <>
  fst (Server.processIccid cfg0 d_mouse_rejects_once rnd0 iccid0 2).
Proof.
  split; [reflexivity|]. split; [reflexivity|]. discriminate.
Qed.

(** The random numbers only reach the arguments of the mouse move and of
    the delays: they never influence how an attempt completes. *)
Lemma verdict_ignores_random_draws v cfg d rnd rnd' id k :
  verdict_of v cfg d rnd id k = verdict_of v cfg d rnd' id k.
Proof.
  destruct v; cbn [verdict_of];
    unfold ActivateSim.attempt_verdict, Server.attempt_verdict,
      ActivateSim.attempt_body, Server.attempt_body;
    cbv [bind call random try_catch assign_result return_result ret
         initial_store].
  - same_site d id k at_goto.
    same_site d id k at_title.
    same_site d id k at_wait_input.
    same_site d id k at_fill.
    same_site d id k at_scroll.
    same_site d id k at_scroll_delay.
    same_site d id k at_wait_next.
    same_site d id k at_click_next.
    same_site d id k at_step1_activated.
    same_site d id k at_step1_issue.
    same_site d id k at_step1_processing.
    same_site d id k at_wait_activate.
    same_site d id k at_click_activate.
    same_site d id k at_step2_activated.
    same_site d id k at_step2_processing.
  - same_site d id k at_goto.
    same_site d id k at_title.
    same_site d id k at_mouse_move.
    same_site d id k at_mouse_delay.
    same_site d id k at_wait_input.
    same_site d id k at_fill.
    same_site d id k at_scroll.
    same_site d id k at_scroll_delay.
    same_site d id k at_wait_next.
    same_site d id k at_click_next.
    same_site d id k at_step1_activated.
    same_site d id k at_step1_issue.
    same_site d id k at_step1_processing.
    same_site d id k at_wait_activate.
    same_site d id k at_click_activate.
    same_site d id k at_step2_activated.
    same_site d id k at_step2_processing.
Qed.

(** [Math.random() * 300 + 200] is computed in binary64: on the largest
    number below 1 the product rounds to the number just below 300, and the
    delay is 499.99999999999994, the number just below 500. *)
Lemma delay_of_largest_draw :
  delay_of 0x1.fffffffffffffp-1%float = 0x1.f3fffffffffffp+8%float /\
  delay_of 0%float = 200%float.
Proof. split; reflexivity. Qed.

(** ** Pages and contexts of the attempts *)

Lemma site_eqb_eq a b : site_eqb a b = true -> a = b.
Proof. destruct a, b; cbn; intros H; try discriminate H; reflexivity. Qed.

Lemma calls_at_app s t1 t2 : calls_at s (t1 ++ t2) = calls_at s t1 ++ calls_at s t2.
Proof. apply filter_app. Qed.

Lemma calls_at_page_calls s p calls :
  lifecycle_site s = true -> Forall (page_call p) calls -> calls_at s calls = [].
Proof.
  intros Hs. induction 1 as [|e calls (_ & _ & He) _ IH]; [reflexivity|].
  unfold calls_at in *. cbn. rewrite IH.
  destruct (site_eqb (origin e) s) eqn:E; [|reflexivity].
  apply site_eqb_eq in E. congruence.
Qed.

Lemma scoped_page_calls h calls : forall rest,
  Forall (page_call h) calls ->
  scoped (Some h) (calls ++ rest) = scoped (Some h) rest.
Proof.
  induction calls as [|e calls IH]; intros rest H; [reflexivity|].
  inversion H as [|? ? (Ht & Hl & _) Hc]; subst.
  cbn. rewrite Ht, Nat.eqb_refl. cbn.
  destruct (request e); cbn in Hl; try discriminate; now apply IH.
Qed.

Lemma attempts_scoped ctx h t :
  attempts ctx h t ->
  forall rest, scoped None (t ++ rest) = scoped None rest.
Proof.
  induction 1 as [h|h e|h calls r Hc|h calls rest' Hc Hr IH]; intros rest.
  - reflexivity.
  - reflexivity.
  - cbn. rewrite <- app_assoc, scoped_page_calls by assumption.
    cbn. now rewrite Nat.eqb_refl.
  - cbn. rewrite <- app_assoc, scoped_page_calls by assumption.
    cbn. rewrite Nat.eqb_refl. cbn. apply IH.
Qed.

Lemma attempts_sessions ctx h t :
  attempts ctx h t ->
  exists k, sessions t = map (fun i => (Context ctx, Page i)) (seq h k).
Proof.
  induction 1 as [h|h e|h calls r Hc|h calls rest' Hc Hr (k & IH)].
  - now exists 0.
  - now exists 0.
  - exists 1. cbn.
    rewrite sessions_app, (sessions_page_calls _ _ Hc). reflexivity.
  - exists (S k). cbn.
    rewrite sessions_app, (sessions_page_calls _ _ Hc). cbn.
    now rewrite IH.
Qed.

Lemma setup_sessions b t0 : setup b t0 -> sessions t0 = [].
Proof. now destruct 1. Qed.

Lemma setup_scoped b t0 rest :
  setup b t0 -> scoped None (t0 ++ rest) = scoped None rest.
Proof. now destruct 1. Qed.

Lemma processIccid_of_calls v cfg d rnd id n :
  process_calls (is_fulfilled (fst (processIccid_of v cfg d rnd id n)))
                (snd (processIccid_of v cfg d rnd id n)) /\
  (forall r, fst (processIccid_of v cfg d rnd id n) = Fulfilled r ->
     iccid r = id /\ known_status (status r)).
Proof.
  rewrite processIccid_of_eq.
  destruct (process_of d (initBrowser_of v d) (attempt_body_of v cfg d rnd) id n
              (initial_store id)) as [[c t] s'] eqn:E.
  cbn [fst snd].
  eapply process_of_shape; eauto using init_contract_of, body_contract_of.
Qed.

Lemma NoDup_pages ctx k : forall h,
  NoDup (map snd (map (fun i => (Context ctx, Page i)) (seq h k))).
Proof.
  induction k as [|k IH]; intros h; cbn; constructor; [|apply IH].
  rewrite map_map. cbn. intros Hin.
  apply in_map_iff in Hin. destruct Hin as (i & Hi & Hseq).
  apply in_seq in Hseq. injection Hi as ->. lia.
Qed.

(** *** The calls made at a call site *)

Lemma calls_at_attempts s ctx h t :
  lifecycle_site s = true -> s <> at_newPage -> s <> at_page_close ->
  attempts ctx h t -> calls_at s t = [].
Proof.
  intros Hs N1 N2.
  assert (Hn : forall o a r, calls_at s [mkEvent at_newPage o a r] = [])
    by (intros; destruct s; cbn; auto; contradiction).
  assert (Hc : forall o a r, calls_at s [mkEvent at_page_close o a r] = [])
    by (intros; destruct s; cbn; auto; contradiction).
  induction 1 as [h|h e|h calls r Hcalls|h calls rest Hcalls Hr IH].
  - reflexivity.
  - apply Hn.
  - change (calls_at s ([mkEvent at_newPage (Context ctx) newPage (Made (Page h))]
                        ++ calls
                        ++ [mkEvent at_page_close (Page h) close (reply_of r)])
            = []).
    now rewrite !calls_at_app, Hn, Hc, (calls_at_page_calls s h calls Hs Hcalls).
  - change (calls_at s ([mkEvent at_newPage (Context ctx) newPage (Made (Page h))]
                        ++ calls
                        ++ [mkEvent at_page_close (Page h) close Done] ++ rest)
            = []).
    now rewrite !calls_at_app, Hn, Hc, IH,
      (calls_at_page_calls s h calls Hs Hcalls).
Qed.

(** *** Calls on objects of one's own *)

Definition has (made : list object) (o : object) : Prop :=
  existsb (object_eqb o) made = true.

Lemma object_eqb_refl o : object_eqb o o = true.
Proof. destruct o; cbn; auto using Nat.eqb_refl. Qed.

Lemma has_here made o : has (o :: made) o.
Proof. unfold has. cbn. now rewrite object_eqb_refl. Qed.

Lemma has_later made o o' : has made o -> has (o' :: made) o.
Proof. unfold has. cbn. intros ->. apply orb_true_r. Qed.

Lemma uses_own_page_calls h calls : forall made rest,
  Forall (page_call h) calls ->
  has made (Page h) ->
  (forall made', (forall o, has made o -> has made' o) ->
                 uses_own made' rest = true) ->
  uses_own made (calls ++ rest) = true.
Proof.
  induction calls as [|e calls IH]; intros made rest H Hp Hrest.
  - apply Hrest. auto.
  - inversion H as [|? ? (Ht & _) Hc]; subst.
    cbn. rewrite Ht. unfold has in Hp. rewrite Hp. cbn.
    apply IH; [exact Hc| |].
    + destruct (response e); auto using has_later.
    + intros made' Hm. apply Hrest. intros o Ho. apply Hm.
      destruct (response e); auto using has_later.
Qed.

Lemma uses_own_attempts ctx h t :
  attempts ctx h t ->
  forall made rest,
    has made (Context ctx) ->
    (forall made', (forall o, has made o -> has made' o) ->
                   uses_own made' rest = true) ->
    uses_own made (t ++ rest) = true.
Proof.
  induction 1 as [h|h e|h calls r Hc|h calls rest' Hc Hr IH];
    intros made rest Hctx Hrest.
  - apply Hrest. auto.
  - cbn. unfold has in Hctx. rewrite Hctx. cbn. apply Hrest. auto.
  - cbn. unfold has in Hctx. rewrite Hctx. cbn. rewrite <- app_assoc.
    apply (uses_own_page_calls h); [exact Hc|apply has_here|].
    intros made' Hm. cbn.
    specialize (Hm (Page h) (has_here _ _)) as Hp. unfold has in Hp.
    rewrite Hp. cbn. apply Hrest. intros o Ho.
    assert (Ho' : has made' o) by (apply Hm; now apply has_later).
    destruct r; exact Ho'.
  - cbn. unfold has in Hctx. rewrite Hctx. cbn. rewrite <- app_assoc.
    apply (uses_own_page_calls h); [exact Hc|apply has_here|].
    intros made' Hm. cbn.
    specialize (Hm (Page h) (has_here _ _)) as Hp. unfold has in Hp.
    rewrite Hp. cbn. apply IH.
    + apply Hm. apply has_later. exact Hctx.
    + intros made'' Hm'. apply Hrest. intros o Ho. apply Hm', Hm.
      now apply has_later.
Qed.

Lemma uses_own_process_calls b t : process_calls b t -> uses_own [] t = true.
Proof.
  destruct 1 as [t Hs|t0 loop r Hs Hl].
  - inversion Hs; reflexivity.
  - assert (H : uses_own [Context 1; Browser 0]
                  (loop ++ [mkEvent at_browser_close (Browser 0) close
                              (reply_of r)]) = true).
    { apply (uses_own_attempts _ _ _ Hl); [reflexivity|].
      intros made' Hm. cbn.
      specialize (Hm (Browser 0) eq_refl) as Hb. unfold has in Hb.
      now rewrite Hb. }
    inversion Hs; subst; cbn; exact H.
Qed.

(** The calls of [processIccid] when [initBrowser] resolves. *)
Lemma processIccid_of_trace v cfg d rnd id n :
  setup_resolves v d id ->
  exists t0 loop,
    setup true t0 /\ attempts 1 2 loop /\
    snd (processIccid_of v cfg d rnd id n) =
      t0 ++ loop ++
      [mkEvent at_browser_close (Browser 0) close
         (reply_of (on_browser d id at_browser_close))].
Proof.
  intros Hs. rewrite processIccid_of_eq. unfold process_of. cbv [bind].
  destruct (init_contract_of v d id (initial_store id) eq_refl)
    as (c0 & t0 & s0 & E0 & R0 & H0).
  destruct (setup_resolves_init v d id (initial_store id) Hs) as (t0' & E0' & _).
  rewrite E0 in E0'. injection E0' as -> -> ->.
  rewrite E0. destruct H0 as (_ & _ & Hsetup). cbn [fst snd].
  unfold assign_result, try_finally, try_catch. cbn [fst snd heap draws result
    initial_store].
  match goal with
  | |- context [retry_loop_of _ _ _ _ _ _ ?s1] =>
      destruct (retry_loop_of d (attempt_body_of v cfg d rnd) id 1 n 0 s1)
        as [[c1 t1] s1'] eqn:E1
  end.
  apply (retry_loop_inv d _ _ (body_contract_of v cfg d rnd)) in E1;
    [ | reflexivity | apply known_status_error ].
  cbn in E1. destruct E1 as (A1 & _).
  exists t0', t1. split; [exact Hsetup|]. split; [exact A1|].
  unfold call, set_error_detail, return_result.
  destruct c1 as [u|r1|e1]; destruct (on_browser d id at_browser_close);
    cbn; now rewrite ?app_nil_r.
Qed.

Lemma setup_calls b t0 :
  setup b t0 ->
  length (calls_at at_launch t0) = 1 /\
  length (calls_at at_newContext t0) <= 1 /\
  calls_at at_browser_close t0 = [] /\
  (b = true ->
   In (mkEvent at_launch Chromium launch (Made (Browser 0))) t0 /\
   In (mkEvent at_newContext (Browser 0) newContext (Made (Context 1))) t0).
Proof.
  destruct 1; cbn; repeat split; auto; try discriminate.
Qed.

(** C2, as the code has it.  In a call of [processIccid], every attempt
    runs on a page of its own: the pages opened are pairwise distinct, every
    call of an attempt goes to the page opened for it, and [close()] is
    called on that page before anything else happens, whatever way the
    attempt ends.  The browsing context is another matter: all the pages
    of the call are opened in the one context of the call,
    [chromium.launch()] being called exactly once in a call and
    [browser.newContext()] at most once.  Every call goes to the
    [chromium] module or to an object that an earlier call of the same
    [processIccid] returned: no browser, context or page comes from
    elsewhere, so none is shared with the call for another identifier.
    When [initBrowser] resolves, whatever happens afterwards,
    [browser.close()] is called exactly once, as the last call, on the
    browser the call launched. *)
Theorem each_attempt_gets_a_new_page_in_the_shared_context
  (v : program) cfg d rnd id maxRetries :
  let t := snd (processIccid_of v cfg d rnd id maxRetries) in
  NoDup (map snd (sessions t)) /\
  scoped None t = true /\
  Forall (fun s => fst s = Context 1) (sessions t) /\
  length (calls_at at_launch t) = 1 /\
  length (calls_at at_newContext t) <= 1 /\
  uses_own [] t = true /\
  (setup_resolves v d id ->
   exists t',
     t = t' ++ [mkEvent at_browser_close (Browser 0) close
                  (reply_of (on_browser d id at_browser_close))] /\
     calls_at at_browser_close t' = [] /\
     In (mkEvent at_launch Chromium launch (Made (Browser 0))) t' /\
     In (mkEvent at_newContext (Browser 0) newContext (Made (Context 1))) t').
Proof.
  intros t. subst t.
  destruct (processIccid_of_calls v cfg d rnd id maxRetries) as (H & _).
  pose proof (uses_own_process_calls _ _ H) as Hown.
  split; [|split; [|split; [|split; [|split; [|split; [exact Hown|]]]]]].
  - destruct H as [t Hs|t0 loop r Hs Hl].
    + rewrite (setup_sessions _ _ Hs). constructor.
    + destruct (attempts_sessions _ _ _ Hl) as (k & Hk).
      rewrite !sessions_app, (setup_sessions _ _ Hs), Hk. cbn.
      rewrite app_nil_r. apply NoDup_pages.
  - destruct H as [t Hs|t0 loop r Hs Hl].
    + rewrite <- (app_nil_r t), (setup_scoped _ _ _ Hs). reflexivity.
    + rewrite (setup_scoped _ _ _ Hs), (attempts_scoped _ _ _ Hl). reflexivity.
  - destruct H as [t Hs|t0 loop r Hs Hl].
    + rewrite (setup_sessions _ _ Hs). constructor.
    + destruct (attempts_sessions _ _ _ Hl) as (k & Hk).
      rewrite !sessions_app, (setup_sessions _ _ Hs), Hk. cbn.
      rewrite app_nil_r. apply Forall_forall. intros s Hin.
      apply in_map_iff in Hin. now destruct Hin as (i & <- & _).
  - destruct H as [t Hs|t0 loop r Hs Hl].
    + now destruct (setup_calls _ _ Hs).
    + rewrite !calls_at_app,
        (calls_at_attempts at_launch _ _ _ eq_refl ltac:(discriminate)
           ltac:(discriminate) Hl).
      cbn. rewrite app_nil_r. now destruct (setup_calls _ _ Hs).
  - destruct H as [t Hs|t0 loop r Hs Hl].
    + now destruct (setup_calls _ _ Hs) as (_ & ? & _).
    + rewrite !calls_at_app,
        (calls_at_attempts at_newContext _ _ _ eq_refl ltac:(discriminate)
           ltac:(discriminate) Hl).
      cbn. rewrite app_nil_r. now destruct (setup_calls _ _ Hs) as (_ & ? & _).
  - intros Hs.
    destruct (processIccid_of_trace v cfg d rnd id maxRetries Hs)
      as (t0 & loop & Hsetup & Hl & E).
    destruct (setup_calls _ _ Hsetup) as (_ & _ & C0 & Hin).
    destruct (Hin eq_refl) as (I1 & I2).
    exists (t0 ++ loop). split; [now rewrite E, app_assoc|].
    split.
    + now rewrite calls_at_app, C0,
        (calls_at_attempts at_browser_close _ _ _ eq_refl ltac:(discriminate)
           ltac:(discriminate) Hl).
    + split; apply in_or_app; now left.
Qed.

(** C2, as stated, fails: the second attempt runs in the browsing context
    the first attempt ran in. *)
Lemma retries_share_the_browsing_context :
  sessions (snd (ActivateSim.processIccid cfg0 d_nav_fails rnd0 iccid0 2)) =
    [(Context 1, Page 2); (Context 1, Page 3)] /\
  ~ session_per_attempt
      (snd (ActivateSim.processIccid cfg0 d_nav_fails rnd0 iccid0 2)).
Proof.
  split; [reflexivity|].
  intros (H & _). cbn in H.
  inversion H as [|x l Hin _]; subst. apply Hin. now left.
Qed.

(** ** Runs of [main] *)

Lemma main_of_start K iccids w0 :
  main_of K iccids = Some w0 ->
  exists pool, enqueue (new_pool K) iccids = Some pool /\ w0 = start pool.
Proof.
  unfold main_of. destruct (enqueue (new_pool K) iccids) as [pool|];
    [|discriminate].
  intros H. injection H as <-. now exists pool.
Qed.

Lemma callback_of_calls v cfg d rnd id :
  process_calls (is_fulfilled (fst (callback_of v cfg d rnd id)))
                (snd (callback_of v cfg d rnd id)).
Proof.
  destruct v; cbn [callback_of];
    unfold ActivateSim.callback, Server.callback.
  - apply (processIccid_of_calls cli).
  - apply (processIccid_of_calls server).
Qed.

Lemma callback_of_outcome v cfg d rnd id r :
  fst (callback_of v cfg d rnd id) = Fulfilled r ->
  iccid r = id /\ known_status (status r).
Proof.
  destruct v; cbn [callback_of];
    unfold ActivateSim.callback, Server.callback.
  - apply (processIccid_of_calls cli).
  - apply (processIccid_of_calls server).
Qed.

Lemma runs_in_inv v cfg d rnd K iccids w :
  runs_in v cfg d rnd K iccids w ->
  run_inv (callback_of v cfg d rnd) iccids K w.
Proof.
  intros H.
  assert (H' : runs_of (callback_of v cfg d rnd) K iccids w)
    by (destruct v; exact H).
  destruct H' as (w0 & Hm & Hr).
  apply main_of_start in Hm. destruct Hm as (pool & Hp & ->).
  eapply run_inv_reachable; eauto using callback_of_calls, callback_of_outcome.
Qed.

(** C7. At every state of a run of [main(maxWorkers)], in either program,
    the number of browsers open and the number of pages open are at most
    [maxWorkers]; a browser or a page whose [close()] rejected is counted
    as still open. *)
Theorem open_sessions_never_exceed_maxWorkers
  (v : program) cfg d rnd maxWorkers iccids w :
  runs_in v cfg d rnd maxWorkers iccids w ->
  open_browsers w <= maxWorkers /\ open_pages w <= maxWorkers.
Proof.
  intros H. apply runs_in_inv in H. destruct H as [Hw Hok _ _].
  unfold open_browsers, open_pages. rewrite <- Hw.
  split; apply list_sum_bound; eapply Forall_impl; try exact Hok;
    intros s Hs;
    apply (slot_ok_bound _ (callback_of_calls v cfg d rnd)) in Hs;
    destruct Hs; assumption.
Qed.

(** *** Making a run progress *)

Section Progress.
Variable proc : string -> settled * list event.

Lemma reachable_trans w1 w2 w3 :
  reachable proc w1 w2 -> reachable proc w2 w3 -> reachable proc w1 w3.
Proof.
  intros H12 H23. induction H23 as [|w w' _ IH Hs]; [exact H12|].
  eapply reach_step; eauto.
Qed.

Lemma reachable_awaits before after id rest res todo : forall l,
  reachable proc
    (mkRun (before ++ mkSlot l (Busy id todo) rest :: after) res)
    (mkRun (before ++ mkSlot (l ++ todo) (Busy id []) rest :: after) res).
Proof.
  induction todo as [|e todo IH]; intros l.
  - rewrite app_nil_r. constructor.
  - eapply reachable_trans.
    + eapply reach_step; [constructor|]. apply step_slot. apply step_await.
    + replace (l ++ e :: todo) with ((l ++ [e]) ++ todo)
        by now rewrite <- app_assoc.
      apply IH.
Qed.

(** One callback of a chain, from its start to the push of its Outcome. *)
Lemma reachable_callback before after l id rest res r :
  fst (proc id) = Fulfilled r ->
  reachable proc
    (mkRun (before ++ mkSlot l Idle (id :: rest) :: after) res)
    (mkRun (before ++ mkSlot (l ++ snd (proc id)) Idle rest :: after)
           (res ++ [r])).
Proof.
  intros Hr.
  eapply reach_step.
  - eapply reachable_trans.
    + eapply reach_step; [constructor|]. apply step_slot. apply step_begin.
    + apply reachable_awaits.
  - apply step_slot. now apply step_push.
Qed.
End Progress.

(** *** The summary *)

Lemma summary_counts_partition results :
  Forall (fun r => known_status (status r)) results ->
  count_status results (fun s => String.eqb s "success") +
  count_status results (fun s => String.eqb s "already_activated") +
  count_status results (fun s => String.eqb s "processing") +
  count_status results (fun s => String.eqb s "invalid_iccid") +
  count_status results
    (fun s => String.eqb s "activation_failed" || String.eqb s "error") =
  length results.
Proof.
  unfold count_status.
  induction 1 as [|r results Hr _ IH]; [reflexivity|].
  cbn [filter length].
  destruct Hr as [E|[E|[E|[E|[E|E]]]]]; rewrite E; cbn; lia.
Qed.

Lemma failed_bucket_splits results :
  count_status results
    (fun s => String.eqb s "activation_failed" || String.eqb s "error") =
  count_status results (fun s => String.eqb s "activation_failed") +
  count_status results (fun s => String.eqb s "error").
Proof.
  unfold count_status.
  induction results as [|r results IH]; [reflexivity|].
  cbn [filter].
  destruct (String.eqb_spec (status r) "activation_failed") as [E|E].
  - rewrite E. cbn. lia.
  - destruct (String.eqb (status r) "error"); cbn; lia.
Qed.

Lemma completed_owes_nothing ss :
  Forall fulfilled_slot ss -> concat (map owed ss) = [].
Proof.
  induction 1 as [|s ss (Hd & Hp) _ IH]; [reflexivity|].
  cbn [map concat]. rewrite IH, app_nil_r. unfold owed. now rewrite Hd, Hp.
Qed.

(** When [Promise.all(pool)] resolves, the Outcomes pushed are those of the
    identifiers, one each. *)
Lemma completed_run_outcomes v cfg d rnd K iccids w :
  runs_in v cfg d rnd K iccids w ->
  completed w ->
  Permutation (map iccid (results w)) iccids /\
  Forall (fun r => known_status (status r)) (results w).
Proof.
  intros H Hc. apply runs_in_inv in H. destruct H as [_ _ Hp Hs].
  split; [|exact Hs]. unfold completed in Hc.
  rewrite (completed_owes_nothing (slots w) Hc), app_nil_r in Hp. exact Hp.
Qed.

(** No identifier of a duplicate-free list ever has two Outcomes. *)
Lemma no_identifier_gets_two_outcomes v cfg d rnd K iccids w :
  NoDup iccids ->
  runs_in v cfg d rnd K iccids w ->
  NoDup (map iccid (results w)).
Proof.
  intros Hnd H. apply runs_in_inv in H. destruct H as [_ _ Hp _].
  apply (Permutation_NoDup (Permutation_sym Hp)) in Hnd.
  now apply NoDup_app_remove_r in Hnd.
Qed.

(** C8. Once [Promise.all(pool)] has resolved, the summary of the server
    variant splits the Outcomes into its five buckets: the counts add up to
    [total], which is the number of Outcomes; [failed] counts the Outcomes
    with status [activation_failed] or [error] and [invalid] those with
    status [invalid_iccid]. *)
Theorem summary_is_a_partition cfg d rnd maxWorkers iccids w :
  Server.runs cfg d rnd maxWorkers iccids w ->
  completed w ->
  let s := Server.main_summary iccids w in
  success s + already_activated s + processing s + invalid s + failed s =
    total s /\
  total s = length (results w) /\
  failed s =
    count_status (results w) (fun x => String.eqb x "activation_failed") +
    count_status (results w) (fun x => String.eqb x "error") /\
  invalid s = count_status (results w) (fun x => String.eqb x "invalid_iccid").
Proof.
  intros H Hc s.
  destruct (completed_run_outcomes server cfg d rnd maxWorkers iccids w H Hc)
    as (Hp & Hs).
  assert (Hlen : length iccids = length (results w)).
  { rewrite <- (Permutation_length Hp). apply length_map. }
  subst s. unfold Server.main_summary, summary. cbn.
  rewrite Hlen. repeat split.
  - now apply summary_counts_partition.
  - apply failed_bucket_splits.
Qed.

Lemma open_sessions_never_exceed_maxWorkers_witness :
  open_browsers w_both_launched = 2 /\
  open_browsers w_both_launched <= 2 /\ open_pages w_both_launched <= 2.
Proof.
  split; [reflexivity|].
  apply (open_sessions_never_exceed_maxWorkers cli cfg0 d_all_ok rnds0 2
           [iccid0; iccid1]).
  exists (start [[iccid0]; [iccid1]]). split; [reflexivity|].
  set (p := ActivateSim.callback cfg0 d_all_ok rnds0).
  eapply reach_step; [eapply reach_step; [eapply reach_step;
    [eapply reach_step; [apply reach_here|]|]|]|].
  - apply (step_slot p [] _ [_]). apply step_begin.
  - apply (step_slot p [] _ [_]).
    apply (step_await p [] iccid0 _ (skipn 1 (snd (p iccid0)))).
  - apply (step_slot p [_] _ []). apply step_begin.
  - apply (step_slot p [_] _ []).
    apply (step_await p [] iccid1 _ (skipn 1 (snd (p iccid1)))).
Defined.

Lemma summary_is_a_partition_witness :
  Server.main_summary [iccid0; iccid1] w_both_done = mkSummary 2 0 1 0 0 1 /\
  (let s := Server.main_summary [iccid0; iccid1] w_both_done in
   success s + already_activated s + processing s + invalid s + failed s =
     total s /\
   total s = length (results w_both_done) /\
   failed s =
     count_status (results w_both_done)
       (fun x => String.eqb x "activation_failed") +
     count_status (results w_both_done) (fun x => String.eqb x "error") /\
   invalid s =
     count_status (results w_both_done)
       (fun x => String.eqb x "invalid_iccid")).
Proof.
  split; [reflexivity|].
  apply (summary_is_a_partition cfg0 d_nav_fails_for_second rnds0 1).
  - exists (start [[iccid0; iccid1]]). split; [reflexivity|].
    set (p := Server.callback cfg0 d_nav_fails_for_second rnds0).
    exact (reachable_trans p _ _ _
             (reachable_callback p [] [] [] iccid0 [iccid1] []
                (mkOutcome iccid0 "already_activated" text_activated) eq_refl)
             (reachable_callback p [] [] (snd (p iccid0)) iccid1 []
                [mkOutcome iccid0 "already_activated" text_activated]
                (mkOutcome iccid1 "error" "net::ERR_CONNECTION_RESET") eq_refl)).
  - repeat constructor.
Defined.

(** ** A launch failure escapes [processIccid] *)

(** [initBrowser()] is awaited before the outer [try]: when it rejects,
    [processIccid] rejects. *)
Lemma processIccid_rejects_when_launch_fails v cfg d rnd id n e :
  on_browser d id at_launch = Some e ->
  processIccid_of v cfg d rnd id n =
    (Rejected e, [mkEvent at_launch Chromium launch (Failed e)]).
Proof.
  intros H.
  destruct v; cbn [processIccid_of];
    unfold ActivateSim.processIccid, Server.processIccid,
      ActivateSim.processIccid_body, Server.processIccid_body,
      ActivateSim.initBrowser, Server.initBrowser;
    cbv [bind create]; now rewrite H.
Qed.

(** [browser.close()] is awaited in the outer [finally]: when it rejects,
    [processIccid] rejects. *)
Lemma processIccid_rejects_when_browser_close_fails v cfg d rnd id n e :
  setup_resolves v d id ->
  on_browser d id at_browser_close = Some e ->
  fst (processIccid_of v cfg d rnd id n) = Rejected e.
Proof.
  intros Hs Hc.
  destruct (retry_loop_of d (attempt_body_of v cfg d rnd) id 1 n 0
              (mkStore 2 0 (mkOutcome id "error" ""))) as [[c1 t1] s1] eqn:E.
  destruct (process_after_loop v cfg d rnd id n _ _ _ Hs E) as (P & _).
  rewrite P. unfold settle_after_loop. now rewrite Hc.
Qed.

(** *** A rejected callback and the rest of its chain *)

Lemma split_after_prefix {A} (x : A) (done : list A) :
  forall pre post rest,
    pre ++ x :: post = done ++ rest ->
    ~ In x done ->
    exists mid, rest = mid ++ x :: post.
Proof.
  induction done as [|y done IH]; intros pre post rest E Hx.
  - exists pre. now cbn in E.
  - destruct pre as [|z pre]; cbn in E; injection E as -> E.
    + exfalso. apply Hx. now left.
    + apply (IH pre post rest E). intros Hin. apply Hx. now right.
Qed.

Lemma Forall2_pick {A B} (R : A -> B -> Prop) l l' x :
  Forall2 R l l' -> In x l -> exists y, In y l' /\ R x y.
Proof.
  induction 1 as [|a b l l' Hab _ IH]; intros Hin; [contradiction|].
  destruct Hin as [->|Hin].
  - exists b. split; [now left|exact Hab].
  - destruct (IH Hin) as (y & Hy & Hxy). exists y. split; [now right|exact Hxy].
Qed.

Section Chains.
Variable proc : string -> settled * list event.

Lemma slot_step_follows chain s res s' res' :
  slot_step proc s res s' res' -> follows proc chain s -> follows proc chain s'.
Proof.
  destruct 1 as [l id rest res|l id e todo rest res|l id rest res r Hr
                |l id rest res m Hm]; intros (done & E & Hd);
    unfold owed in E; cbn in E.
  - now exists done.
  - now exists done.
  - exists (done ++ [id]). unfold owed. cbn. split.
    + now rewrite <- app_assoc.
    + apply Forall_app. split; [exact Hd|].
      constructor; [|constructor]. now rewrite Hr.
  - now exists done.
Qed.

Lemma reachable_follows pool w :
  reachable proc (start pool) w -> Forall2 (follows proc) pool (slots w).
Proof.
  induction 1 as [|w1 w2 _ IH Hs].
  - cbn. induction pool as [|chain pool IHp]; constructor; [|exact IHp].
    now exists [].
  - destruct Hs as [before s after res s' res' Hs]. cbn in *.
    apply Forall2_app_inv_r in IH.
    destruct IH as (p1 & p2 & H1 & H2 & ->).
    inversion H2 as [|chain s0 p2' after' Hc H2']; subst.
    apply Forall2_app; [exact H1|].
    constructor; [|exact H2']. eapply slot_step_follows; eauto.
Qed.

Lemma rejected_callback_stays_owed pool w chain pre bad post m :
  reachable proc (start pool) w ->
  In chain pool ->
  chain = pre ++ bad :: post ->
  fst (proc bad) = Rejected m ->
  exists s mid, In s (slots w) /\ owed s = mid ++ bad :: post.
Proof.
  intros Hr Hin -> Hbad.
  apply reachable_follows in Hr.
  destruct (Forall2_pick _ _ _ _ Hr Hin) as (s & Hs & done & E & Hd).
  destruct (split_after_prefix bad done pre post (owed s) E) as (mid & Hmid).
  - intros Hx. rewrite Forall_forall in Hd. apply Hd in Hx.
    rewrite Hbad in Hx. discriminate.
  - now exists s, mid.
Qed.
End Chains.

(** C1, where the code departs from it.  Let Chromium fail to launch for
    an identifier [bad] of a duplicate-free list.  Then, in either program
    and at every state of the run, no Outcome has been pushed for [bad] nor
    for any identifier chained behind it in the pool, and
    [Promise.all(pool)] has not resolved: these identifiers get zero
    Outcomes, and the failure of [bad] halts those behind it. *)
Theorem launch_failure_leaves_identifiers_without_outcome
  (v : program) cfg d rnd maxWorkers iccids pool chain pre bad post e w :
  NoDup iccids ->
  enqueue (new_pool maxWorkers) iccids = Some pool ->
  In chain pool ->
  chain = pre ++ bad :: post ->
  on_browser d bad at_launch = Some e ->
  runs_in v cfg d rnd maxWorkers iccids w ->
  (forall x, In x (bad :: post) -> ~ In x (map iccid (results w))) /\
  ~ completed w.
Proof.
  intros Hnd Hp Hin Hchain Hl Hruns.
  assert (Hinv := runs_in_inv _ _ _ _ _ _ _ Hruns).
  assert (Hr : reachable (callback_of v cfg d rnd) (start pool) w).
  { assert (H' : runs_of (callback_of v cfg d rnd) maxWorkers iccids w)
      by (destruct v; exact Hruns).
    destruct H' as (w0 & Hm & Hw). unfold main_of in Hm.
    rewrite Hp in Hm. now injection Hm as <-. }
  assert (Hbad : fst (callback_of v cfg d rnd bad) = Rejected e).
  { destruct v; cbn [callback_of]; unfold ActivateSim.callback, Server.callback.
    - now rewrite (processIccid_rejects_when_launch_fails cli _ _ _ _ _ _ Hl).
    - now rewrite (processIccid_rejects_when_launch_fails server _ _ _ _ _ _ Hl). }
  destruct (rejected_callback_stays_owed _ pool w chain pre bad post e
              Hr Hin Hchain Hbad) as (s & mid & Hs & Hs').
  destruct Hinv as [_ _ Hperm _].
  split.
  - intros x Hx Hres.
    assert (Howed : In x (concat (map owed (slots w)))).
    { apply in_concat. exists (owed s). split; [now apply in_map|].
      rewrite Hs'. apply in_or_app. now right. }
    apply (Permutation_NoDup (Permutation_sym Hperm)) in Hnd.
    apply NoDup_app_remove_l in Hnd as Hnd2.
    clear -Hnd Hres Howed.
    induction (map iccid (results w)) as [|y l IH]; [contradiction|].
    cbn in Hnd. inversion Hnd as [|? ? Hy Hnd']; subst.
    destruct Hres as [->|Hres]; [|now apply IH].
    apply Hy. apply in_or_app. now right.
  - intros Hc. unfold completed in Hc. rewrite Forall_forall in Hc.
    destruct (Hc s Hs) as (Hd & Hpend).
    unfold owed in Hs'. rewrite Hd, Hpend in Hs'.
    now destruct mid.
Qed.

Lemma launch_failure_leaves_identifiers_without_outcome_witness :
  fst (ActivateSim.callback cfg0 d_launch_fails_for_first rnds0 iccid0) =
    Rejected "browserType.launch: Failed to launch chromium" /\
  enqueue (new_pool ActivateSim.default_maxWorkers) four_iccids =
    Some [[iccid1]; [iccid2]; [iccid0; iccid3]] /\
  results w_chain_broken =
    [mkOutcome iccid1 "already_activated" text_activated;
     mkOutcome iccid2 "already_activated" text_activated] /\
  (forall x, In x [iccid0; iccid3] ->
             ~ In x (map iccid (results w_chain_broken))) /\
  ~ completed w_chain_broken.
Proof.
  split; [reflexivity|]. split; [reflexivity|]. split; [reflexivity|].
  apply (launch_failure_leaves_identifiers_without_outcome cli cfg0
           d_launch_fails_for_first rnds0 ActivateSim.default_maxWorkers
           four_iccids [[iccid1]; [iccid2]; [iccid0; iccid3]]
           [iccid0; iccid3] [] iccid0 [iccid3]
           "browserType.launch: Failed to launch chromium").
  - repeat constructor; cbn; intuition discriminate.
  - reflexivity.
  - cbn. auto.
  - reflexivity.
  - reflexivity.
  - exists (start [[iccid1]; [iccid2]; [iccid0; iccid3]]).
    split; [reflexivity|].
    set (p := ActivateSim.callback cfg0 d_launch_fails_for_first rnds0).
    eapply reachable_trans; [eapply reachable_trans|].
    + exact (reachable_callback p []
               [mkSlot [] Idle [iccid2]; mkSlot [] Idle [iccid0; iccid3]]
               [] iccid1 [] []
               (mkOutcome iccid1 "already_activated" text_activated) eq_refl).
    + exact (reachable_callback p [mkSlot (snd (p iccid1)) Idle []]
               [mkSlot [] Idle [iccid0; iccid3]] [] iccid2 []
               [mkOutcome iccid1 "already_activated" text_activated]
               (mkOutcome iccid2 "already_activated" text_activated) eq_refl).
    + eapply reach_step; [eapply reach_step; [eapply reach_step;
        [apply reach_here|]|]|].
      * apply (step_slot p [_; _] _ []). apply step_begin.
      * apply (step_slot p [_; _] _ []). apply (step_await p [] iccid0 _ []).
      * apply (step_slot p [_; _] _ []).
        apply (step_reject p _ iccid0 [iccid3] _
                 "browserType.launch: Failed to launch chromium").
        reflexivity.
Defined.

(** Every failure raised inside the outer [try] is turned into an Outcome:
    once [initBrowser()] and [browser.close()] resolve, [processIccid] is
    fulfilled, whatever the other calls do. *)
Lemma processIccid_fulfilled_when_browser_lifecycle_resolves
  v cfg d rnd id n :
  setup_resolves v d id ->
  on_browser d id at_browser_close = None ->
  exists r, fst (processIccid_of v cfg d rnd id n) = Fulfilled r /\
            iccid r = id /\ known_status (status r).
Proof.
  intros Hs Hc.
  destruct (retry_loop_of d (attempt_body_of v cfg d rnd) id 1 n 0
              (mkStore 2 0 (mkOutcome id "error" ""))) as [[c1 t1] s1] eqn:E.
  destruct (process_after_loop v cfg d rnd id n _ _ _ Hs E) as (P & _).
  unfold settle_after_loop in P. rewrite Hc in P.
  eexists. split; [exact P|].
  apply (processIccid_of_calls v cfg d rnd id n). exact P.
Qed.

(** *** Runs in which no [processIccid] rejects *)

Section Completion.
Variable proc : string -> settled * list event.

Lemma drain_chain before after pend : forall l res,
  Forall (fun id => is_fulfilled (fst (proc id)) = true) pend ->
  exists l' res',
    reachable proc
      (mkRun (before ++ mkSlot l Idle pend :: after) res)
      (mkRun (before ++ mkSlot l' Idle [] :: after) res').
Proof.
  induction pend as [|id pend IH]; intros l res H.
  - exists l, res. constructor.
  - inversion H as [|? ? Hid Hrest]; subst.
    destruct (fst (proc id)) as [r|m] eqn:E; [|discriminate].
    destruct (IH (l ++ snd (proc id)) (res ++ [r]) Hrest) as (l' & res' & R).
    exists l', res'. eapply reachable_trans; [|exact R].
    now apply reachable_callback.
Qed.

Lemma drain_slots todo : forall finished res,
  Forall fulfilled_slot finished ->
  Forall (fun s => doing s = Idle /\
                   Forall (fun id => is_fulfilled (fst (proc id)) = true)
                          (pending s)) todo ->
  exists w, reachable proc (mkRun (finished ++ todo) res) w /\ completed w.
Proof.
  induction todo as [|s todo IH]; intros finished res Hf Ht.
  - exists (mkRun (finished ++ []) res). split; [constructor|].
    unfold completed. cbn. now rewrite app_nil_r.
  - inversion Ht as [|? ? (Hd & Hp) Hrest]; subst.
    destruct s as [l ph pend]. cbn in Hd, Hp. subst ph.
    destruct (drain_chain finished todo pend l res Hp) as (l' & res' & R).
    destruct (IH (finished ++ [mkSlot l' Idle []]) res') as (w & Rw & Cw).
    + apply Forall_app. split; [exact Hf|]. now repeat constructor.
    + exact Hrest.
    + exists w. split; [|exact Cw].
      eapply reachable_trans; [exact R|].
      now rewrite <- app_assoc in Rw.
Qed.

(** When the [processIccid] of every identifier is fulfilled, [main] can
    run until [Promise.all(pool)] resolves. *)
Lemma main_of_completes maxWorkers iccids w0 :
  Forall (fun id => is_fulfilled (fst (proc id)) = true) iccids ->
  main_of maxWorkers iccids = Some w0 ->
  exists w, reachable proc w0 w /\ completed w.
Proof.
  intros Hall Hm. apply main_of_start in Hm. destruct Hm as (pool & Hp & ->).
  apply (drain_slots (map (mkSlot [] Idle) pool) [] []); [constructor|].
  apply Forall_forall. intros s Hs.
  apply in_map_iff in Hs. destruct Hs as (chain & <- & Hin). cbn.
  split; [reflexivity|].
  apply Forall_forall. intros id Hid.
  assert (Hc : In id (concat pool)) by (apply in_concat; eauto).
  apply (Permutation_in _ (enqueue_concat _ _ _ Hp)) in Hc.
  apply in_app_or in Hc. destruct Hc as [Hc|Hc].
  - exfalso. unfold new_pool in Hc. clear -Hc.
    induction maxWorkers; cbn in Hc; auto.
  - rewrite Forall_forall in Hall. now apply Hall.
Qed.
End Completion.

(** With a pool of at least one promise, [main] of either program gives
    every identifier exactly one Outcome when the browser of every
    identifier can be launched and closed. *)
Lemma one_outcome_each_when_browsers_launch_and_close
  v cfg d rnd maxWorkers iccids :
  0 < maxWorkers ->
  (forall id, setup_resolves v d id /\ on_browser d id at_browser_close = None) ->
  exists w,
    runs_in v cfg d rnd maxWorkers iccids w /\ completed w /\
    Permutation (map iccid (results w)) iccids.
Proof.
  intros HK Hd.
  destruct (enqueue_some iccids (new_pool maxWorkers)) as (pool & Hp).
  { destruct maxWorkers; [lia|discriminate]. }
  assert (Hm : main_of maxWorkers iccids = Some (start pool))
    by (unfold main_of; now rewrite Hp).
  destruct (main_of_completes (callback_of v cfg d rnd) maxWorkers iccids
              (start pool)) as (w & Hr & Hc); [|exact Hm|].
  { apply Forall_forall. intros id _.
    destruct (Hd id) as (Hs & Hb).
    destruct (processIccid_fulfilled_when_browser_lifecycle_resolves
                v cfg d (rnd id) id default_maxRetries Hs Hb) as (r & Hf & _).
    destruct v; cbn [callback_of processIccid_of] in *;
      unfold ActivateSim.callback, Server.callback; now rewrite Hf. }
  assert (Hruns : runs_in v cfg d rnd maxWorkers iccids w).
  { destruct v; exists (start pool); split; assumption. }
  exists w. split; [exact Hruns|]. split; [exact Hc|].
  now apply (completed_run_outcomes v cfg d rnd maxWorkers iccids w).
Qed.

(** ** loadIccids keeps the first occurrence of every value *)

Section FirstOccurrencesFacts.
Context {A : Type}.
Variable eqb : A -> A -> bool.
Hypothesis eqb_spec : forall x y, reflect (x = y) (eqb x y).

Lemma existsb_eqb_In x l : existsb (eqb x) l = true <-> In x l.
Proof.
  rewrite existsb_exists. split.
  - intros (y & Hy & E). destruct (eqb_spec x y); [now subst|discriminate].
  - intros H. exists x. split; [exact H|]. now destruct (eqb_spec x x).
Qed.

Lemma indexOf_from_app x pre rest : forall i,
  indexOf_from eqb i (pre ++ x :: rest) x =
    if existsb (eqb x) pre
    then indexOf_from eqb i pre x
    else Some (i + length pre).
Proof.
  induction pre as [|y pre IH]; intros i; cbn.
  - destruct (eqb_spec x x); [|contradiction]. f_equal. lia.
  - destruct (eqb_spec x y) as [<-|Hxy]; cbn.
    + now destruct (eqb_spec x x).
    + destruct (eqb_spec y x) as [->|_]; [contradiction|].
      rewrite IH. destruct (existsb (eqb x) pre); [reflexivity|].
      f_equal. lia.
Qed.

Lemma indexOf_from_bound x l : forall i j,
  indexOf_from eqb i l x = Some j -> i <= j < i + length l.
Proof.
  induction l as [|y l IH]; intros i j H; cbn in *; [discriminate|].
  destruct (eqb y x).
  - injection H as <-. lia.
  - apply IH in H. lia.
Qed.

Lemma first_at_app x pre rest :
  first_at eqb (pre ++ x :: rest) x (length pre) = negb (existsb (eqb x) pre).
Proof.
  unfold first_at, indexOf. rewrite indexOf_from_app.
  destruct (existsb (eqb x) pre) eqn:E; cbn.
  - destruct (indexOf_from eqb 0 pre x) as [j|] eqn:Ej; [|reflexivity].
    apply indexOf_from_bound in Ej. apply Nat.eqb_neq. lia.
  - apply Nat.eqb_refl.
Qed.

Lemma filter_first_unseen l : forall pre,
  filter_first eqb (pre ++ l) (length pre) l = unseen eqb pre l.
Proof.
  induction l as [|x l IH]; intros pre; [reflexivity|].
  cbn [filter_first unseen]. rewrite first_at_app.
  specialize (IH (pre ++ [x])).
  rewrite <- app_assoc, length_app in IH. cbn in IH.
  rewrite Nat.add_1_r in IH. rewrite IH.
  now destruct (existsb (eqb x) pre).
Qed.

Lemma unique_unseen l : unique eqb l = unseen eqb [] l.
Proof. exact (filter_first_unseen l []). Qed.

Lemma unseen_In l : forall seen x,
  In x (unseen eqb seen l) <-> In x l /\ ~ In x seen.
Proof.
  induction l as [|y l IH]; intros seen x; cbn; [tauto|].
  destruct (existsb (eqb y) seen) eqn:E.
  - apply existsb_eqb_In in E. rewrite IH, in_app_iff. cbn.
    split.
    + intros (H1 & H2). tauto.
    + intros ([->|H1] & H2); [contradiction|]. split; [exact H1|].
      intros [H|[->|[]]]; tauto.
  - assert (Hy : ~ In y seen).
    { intros H. apply existsb_eqb_In in H. congruence. }
    cbn. rewrite IH, in_app_iff. cbn. split.
    + intros [->|(H1 & H2)]; tauto.
    + intros ([->|H1] & H2); [now left|].
      destruct (eqb_spec y x) as [->|Hn]; [now left|].
      right. split; [exact H1|]. intros [H|[H|[]]]; tauto.
Qed.

Lemma unseen_NoDup l : forall seen, NoDup (unseen eqb seen l).
Proof.
  induction l as [|y l IH]; intros seen; cbn; [constructor|].
  destruct (existsb (eqb y) seen); [apply IH|].
  constructor; [|apply IH].
  rewrite unseen_In, in_app_iff. cbn. tauto.
Qed.

Lemma unseen_filter l : forall p q,
  unseen eqb (p ++ q) l =
  filter (fun x => negb (existsb (eqb x) p)) (unseen eqb q l).
Proof.
  induction l as [|y l IH]; intros p q; cbn; [reflexivity|].
  rewrite existsb_app, <- app_assoc, IH.
  destruct (existsb (eqb y) q); cbn.
  - now rewrite orb_true_r.
  - rewrite orb_false_r. now destruct (existsb (eqb y) p).
Qed.

Lemma unseen_app l1 : forall seen l2,
  unseen eqb seen (l1 ++ l2) =
  unseen eqb seen l1 ++ unseen eqb (seen ++ l1) l2.
Proof.
  induction l1 as [|y l1 IH]; intros seen l2; cbn.
  - now rewrite app_nil_r.
  - rewrite IH, <- app_assoc. cbn.
    now destruct (existsb (eqb y) seen).
Qed.

Lemma unseen_fresh l : forall seen,
  NoDup l -> (forall x, In x l -> ~ In x seen) -> unseen eqb seen l = l.
Proof.
  induction l as [|y l IH]; intros seen Hnd Hs; [reflexivity|].
  inversion Hnd as [|? ? Hy Hl]; subst. cbn.
  destruct (existsb (eqb y) seen) eqn:E.
  - apply existsb_eqb_In in E. exfalso. apply (Hs y); [now left|exact E].
  - f_equal. apply IH; [exact Hl|].
    intros x Hx Hin. apply in_app_or in Hin.
    destruct Hin as [Hin|[->|[]]]; [|contradiction].
    apply (Hs x); [now right|exact Hin].
Qed.
End FirstOccurrencesFacts.

(** X1. Whatever the values read from the file, [loadIccids] returns each
    of them exactly once: the list it returns is duplicate-free and has the
    same members as its input. *)
Theorem loadIccids_is_duplicate_free_and_complete values :
  NoDup (loadIccids values) /\
  forall x, In x (loadIccids values) <-> In x values.
Proof.
  unfold loadIccids. rewrite (unique_unseen _ String.eqb_spec). split.
  - apply (unseen_NoDup _ String.eqb_spec).
  - intros x. rewrite (unseen_In _ String.eqb_spec). cbn. tauto.
Qed.

(** X2. [loadIccids] keeps first occurrences, in the order of the file:
    on two blocks of values it returns what it returns on the first block,
    followed by what it returns on the second block less the values of the
    first. *)
Theorem loadIccids_keeps_first_occurrences_in_order l1 l2 :
  loadIccids (l1 ++ l2) =
  loadIccids l1 ++
  filter (fun x => negb (existsb (String.eqb x) l1)) (loadIccids l2).
Proof.
  unfold loadIccids. rewrite !(unique_unseen _ String.eqb_spec).
  rewrite unseen_app. cbn. f_equal.
  rewrite <- (app_nil_r l1) at 1.
  apply (unseen_filter _ l2 l1 []).
Qed.

(** X3. A duplicate-free list of values is returned as it is: nothing is
    dropped and nothing is reordered. *)
Theorem loadIccids_fixes_duplicate_free_lists values :
  NoDup values -> loadIccids values = values.
Proof.
  intros H. unfold loadIccids. rewrite (unique_unseen _ String.eqb_spec).
  apply (unseen_fresh _ String.eqb_spec); auto.
Qed.

Lemma loadIccids_fixes_duplicate_free_lists_witness :
  loadIccids [iccid1; iccid0; iccid2] = [iccid1; iccid0; iccid2].
Proof.
  apply loadIccids_fixes_duplicate_free_lists.
  repeat constructor; cbn; intuition discriminate.
Defined.

(** The spec's example of a file with a repeated identifier. *)
Lemma loadIccids_example :
  loadIccids [iccid0; iccid1; iccid0; iccid2] = [iccid0; iccid1; iccid2].
Proof. reflexivity. Qed.

(** ** Further properties of [processIccid] *)

(** X4. Whenever [processIccid] is fulfilled, in either program, the
    Outcome carries the identifier it was called with and one of the six
    statuses [success], [already_activated], [processing], [invalid_iccid],
    [activation_failed], [error]. *)
Theorem fulfilled_outcome_is_well_formed (v : program) cfg d rnd id n r :
  fst (processIccid_of v cfg d rnd id n) = Fulfilled r ->
  iccid r = id /\ known_status (status r).
Proof. apply processIccid_of_calls. Qed.

Lemma fulfilled_outcome_is_well_formed_witness :
  iccid (mkOutcome iccid0 "error" "net::ERR_CONNECTION_RESET") = iccid0 /\
  known_status (status (mkOutcome iccid0 "error" "net::ERR_CONNECTION_RESET")).
Proof.
  apply (fulfilled_outcome_is_well_formed server cfg0 d_nav_fails rnd0 iccid0 2).
  reflexivity.
Defined.

(** X5. How [processIccid] settles is decided by the calls made outside its
    outer [try]/[catch] alone: it rejects with the message of the first of
    [chromium.launch()], [browser.newContext()], [context.addInitScript()]
    (server variant) and [browser.close()] that rejects, and it is fulfilled
    with an Outcome when none of them does, whatever happens on the
    pages. *)
Theorem processIccid_settles_by_browser_lifecycle
  (v : program) cfg d rnd id n :
  match lifecycle_failure v d id with
  | Some e => fst (processIccid_of v cfg d rnd id n) = Rejected e
  | None => exists r, fst (processIccid_of v cfg d rnd id n) = Fulfilled r
  end.
Proof.
  unfold lifecycle_failure.
  destruct (on_browser d id at_launch) as [e|] eqn:El.
  { now rewrite (processIccid_rejects_when_launch_fails v cfg d rnd id n e El). }
  destruct (on_browser d id at_newContext) as [e|] eqn:Ec.
  { destruct v; cbn [processIccid_of];
      unfold ActivateSim.processIccid, Server.processIccid,
        ActivateSim.processIccid_body, Server.processIccid_body,
        ActivateSim.initBrowser, Server.initBrowser;
      cbv [bind create call]; rewrite El; cbn; now rewrite Ec. }
  destruct v.
  - assert (Hs : setup_resolves cli d id) by (repeat split; assumption).
    destruct (on_browser d id at_browser_close) as [e|] eqn:Eb.
    + now apply processIccid_rejects_when_browser_close_fails.
    + destruct (processIccid_fulfilled_when_browser_lifecycle_resolves
                  cli cfg d rnd id n Hs Eb) as (r & Hr & _).
      now exists r.
  - destruct (on_browser d id at_addInitScript) as [e|] eqn:Ei.
    { cbn [processIccid_of].
      unfold Server.processIccid, Server.processIccid_body, Server.initBrowser.
      cbv [bind create call]. rewrite El. cbn. rewrite Ec. cbn.
      now rewrite Ei. }
    assert (Hs : setup_resolves server d id) by (repeat split; assumption).
    destruct (on_browser d id at_browser_close) as [e|] eqn:Eb.
    + now apply processIccid_rejects_when_browser_close_fails.
    + destruct (processIccid_fulfilled_when_browser_lifecycle_resolves
                  server cfg d rnd id n Hs Eb) as (r & Hr & _).
      now exists r.
Qed.

(** X6. At no moment of a call of [processIccid] is more than one browser
    or more than one page open: the page of an attempt is closed, or the
    loop is left, before the next one is opened. *)
Theorem processIccid_opens_one_page_at_a_time (v : program) cfg d rnd id n :
  bounded (mkUsage 0 0) (snd (processIccid_of v cfg d rnd id n)).
Proof.
  destruct (processIccid_of_calls v cfg d rnd id n) as (H & _).
  now apply process_calls_bounded in H.
Qed.

(** X7. When [processIccid] is fulfilled, nothing it opened is left open:
    its browser has been closed, and its pages with it. *)
Theorem fulfilled_processIccid_leaves_nothing_open
  (v : program) cfg d rnd id n r :
  fst (processIccid_of v cfg d rnd id n) = Fulfilled r ->
  usage_after (snd (processIccid_of v cfg d rnd id n)) = mkUsage 0 0.
Proof.
  intros Hr.
  destruct (processIccid_of_calls v cfg d rnd id n) as (H & _).
  apply process_calls_bounded in H. destruct H as (_ & _ & H).
  apply H. now rewrite Hr.
Qed.

Lemma fulfilled_processIccid_leaves_nothing_open_witness :
  usage_after (snd (ActivateSim.processIccid cfg0
                      (rejecting [] [at_page_close]) rnd0 iccid0 2)) =
  mkUsage 0 0.
Proof.
  apply (fulfilled_processIccid_leaves_nothing_open cli cfg0
           (rejecting [] [at_page_close]) rnd0 iccid0 2
           (mkOutcome iccid0 "already_activated" "Timeout 5000ms exceeded")).
  reflexivity.
Defined.

(** X8. When [chromium.launch()] resolves and a later call of
    [initBrowser] rejects, [processIccid] rejects with that message and
    the browser it launched is never closed: [browser.close()] is not even
    called. *)
Theorem failed_setup_leaks_the_browser (v : program) cfg d rnd id n e :
  setup_fails_after_launch v d id e ->
  fst (processIccid_of v cfg d rnd id n) = Rejected e /\
  usage_after (snd (processIccid_of v cfg d rnd id n)) = mkUsage 1 0 /\
  calls_at at_browser_close (snd (processIccid_of v cfg d rnd id n)) = [].
Proof.
  intros (Hl & [Hc|(-> & Hc & Hs)]).
  - destruct v; cbn [processIccid_of];
      unfold ActivateSim.processIccid, Server.processIccid,
        ActivateSim.processIccid_body, Server.processIccid_body,
        ActivateSim.initBrowser, Server.initBrowser;
      cbv [bind create call]; rewrite Hl; cbn; rewrite Hc; cbn; auto.
  - cbn [processIccid_of].
    unfold Server.processIccid, Server.processIccid_body, Server.initBrowser.
    cbv [bind create call]. rewrite Hl. cbn. rewrite Hc. cbn. rewrite Hs.
    cbn. auto.
Qed.

Lemma failed_setup_leaks_the_browser_witness :
  fst (Server.processIccid cfg0 (rejecting [at_addInitScript] []) rnd0 iccid0 2) =
    Rejected "Target closed" /\
  usage_after (snd (Server.processIccid cfg0 (rejecting [at_addInitScript] [])
                      rnd0 iccid0 2)) = mkUsage 1 0 /\
  calls_at at_browser_close
    (snd (Server.processIccid cfg0 (rejecting [at_addInitScript] []) rnd0
            iccid0 2)) = [].
Proof.
  apply (failed_setup_leaks_the_browser server cfg0
           (rejecting [at_addInitScript] []) rnd0 iccid0 2 "Target closed").
  split; [reflexivity|]. right. repeat split.
Defined.

(** ** Further properties of the retry loop *)

Lemma newPage_calls_of_iteration ctx h calls r1 r2 rest :
  Forall (page_call h) calls ->
  length (calls_at at_newPage
            (mkEvent at_newPage (Context ctx) newPage r1
             :: calls ++ mkEvent at_page_close (Page h) close r2 :: rest)) =
  S (length (calls_at at_newPage rest)).
Proof.
  intros H.
  change (length (calls_at at_newPage
            ([mkEvent at_newPage (Context ctx) newPage r1] ++ calls ++
             [mkEvent at_page_close (Page h) close r2] ++ rest)) =
          S (length (calls_at at_newPage rest))).
  rewrite !calls_at_app, (calls_at_page_calls at_newPage h calls eq_refl H).
  reflexivity.
Qed.

Section RetryExits.
Variable d : driver.
Variable body : string -> nat -> nat -> M unit.
Variable verdict : string -> nat -> completion unit.
Hypothesis contract : body_contract body verdict.

Lemma verdict_not_normal id a u : verdict id a <> Normal u.
Proof.
  intros H.
  destruct (contract id a 0 (initial_store id)) as (t & s' & _ & _ & _ & Hv).
  now rewrite H in Hv.
Qed.

Lemma returned_status_not_error id a r :
  verdict id a = Return r -> status r <> "error" /\ iccid r = id.
Proof.
  intros H.
  destruct (contract id a 0 (initial_store id)) as (t & s' & _ & _ & _ & Hv).
  rewrite H in Hv. tauto.
Qed.

(** [context.newPage()] rejects: the loop is left at once. *)
Lemma iteration_unopened id ctx n a s e :
  on_page d id a at_newPage = Some e ->
  retry_loop_of d body id ctx (S n) a s =
    (Throw e, [mkEvent at_newPage (Context ctx) newPage (Failed e)], s).
Proof.
  intros H. cbn [retry_loop_of]. cbv [bind create]. now rewrite H.
Qed.

(** The body throws and [page.close()] rejects: the loop is left. *)
Lemma iteration_throws_close_rejects id ctx n a s m e :
  on_page d id a at_newPage = None ->
  verdict id a = Throw m ->
  on_page d id a at_page_close = Some e ->
  exists calls s1,
    Forall (page_call (heap s)) calls /\
    result s1 = with_detail (result s) m /\
    retry_loop_of d body id ctx (S n) a s =
      (Throw e,
       mkEvent at_newPage (Context ctx) newPage (Made (Page (heap s)))
       :: calls ++ [mkEvent at_page_close (Page (heap s)) close (Failed e)],
       s1).
Proof.
  intros Hn Hv Hc.
  destruct (contract id a (heap s) (mkStore (S (heap s)) (draws s) (result s)))
    as (tb & s1 & E & Hh & Ht & Hr).
  rewrite Hv in E, Hr. cbn in Hr.
  exists tb, (mkStore (heap s1) (draws s1) (with_detail (result s1) m)).
  cbn. repeat split; auto.
  - now rewrite Hr.
  - cbn [retry_loop_of]. cbv [bind create try_finally try_catch].
    rewrite Hn, E. unfold set_error_detail, call. rewrite Hc. cbn.
    now rewrite !app_nil_r.
Qed.

(** What a loop of [n] iterations does, whatever the driver: it starts at
    most [n] attempts, and either leaves the status of [result] as it was
    or ends on the Outcome returned by one of its attempts. *)
Lemma loop_summary id ctx n :
  forall a s c t s',
    retry_loop_of d body id ctx n a s = (c, t, s') ->
    length (calls_at at_newPage t) <= n /\
    ((iccid (result s') = iccid (result s) /\
      status (result s') = status (result s) /\
      forall r, c <> Return r) \/
     (exists k r,
        a <= k < a + n /\ verdict id k = Return r /\ result s' = r /\
        (c = Return r \/
         exists e, c = Throw e /\ on_page d id k at_page_close = Some e))).
Proof.
  induction n as [|n IH]; intros a s c t s' H.
  - cbn in H. injection H as <- <- <-. split; [cbn; lia|].
    left. repeat split. discriminate.
  - destruct (on_page d id a at_newPage) as [e|] eqn:Hn.
    { rewrite (iteration_unopened id ctx n a s e Hn) in H.
      injection H as <- <- <-. split; [cbn; lia|].
      left. repeat split. discriminate. }
    destruct (verdict id a) as [u|r|m] eqn:Hv.
    + now apply verdict_not_normal in Hv.
    + destruct (iteration_returns d body verdict contract id ctx n a s r Hn Hv)
        as (calls & s1 & Hcalls & Hr & E).
      rewrite E in H. injection H as <- <- <-. split.
      * rewrite (newPage_calls_of_iteration _ _ _ _ _ [] Hcalls). cbn. lia.
      * right. exists a, r. split; [lia|]. split; [exact Hv|].
        split; [exact Hr|].
        destruct (on_page d id a at_page_close) as [e|]; [right|left]; eauto.
    + destruct (on_page d id a at_page_close) as [e|] eqn:Hc.
      * destruct (iteration_throws_close_rejects id ctx n a s m e Hn Hv Hc)
          as (calls & s1 & Hcalls & Hr & E).
        rewrite E in H. injection H as <- <- <-. split.
        -- rewrite (newPage_calls_of_iteration _ _ _ _ _ [] Hcalls). cbn. lia.
        -- left. rewrite Hr. repeat split. discriminate.
      * destruct (iteration_throws d body verdict contract id ctx n a s m
                    Hn Hv Hc) as (calls & s1 & Hcalls & Hh & Hr & Hstep).
        destruct (retry_loop_of d body id ctx n (S a) s1)
          as [[c2 t2] s2] eqn:E2.
        rewrite (Hstep _ _ _ eq_refl) in H. injection H as <- <- <-.
        destruct (IH _ _ _ _ _ E2) as (L & R). split.
        -- rewrite (newPage_calls_of_iteration _ _ _ _ _ t2 Hcalls). lia.
        -- destruct R as [(R1 & R2 & R3)|(k & r & Hk & R)].
           ++ left. rewrite R1, R2, Hr. repeat split. exact R3.
           ++ right. exists k, r. split; [lia|exact R].
Qed.

(** The attempts before [k] throw and close their pages, and the loop is
    left in attempt [k] on a rejection of [newPage()] or, the body having
    thrown, of [page.close()]. *)
Lemma loop_leaves_on_rejection id ctx e k :
  forall n a s,
    k < n ->
    (forall j, a <= j < a + k ->
       on_page d id j at_newPage = None /\
       (exists m, verdict id j = Throw m) /\
       on_page d id j at_page_close = None) ->
    (on_page d id (a + k) at_newPage = Some e \/
     (on_page d id (a + k) at_newPage = None /\
      (exists m, verdict id (a + k) = Throw m) /\
      on_page d id (a + k) at_page_close = Some e)) ->
    exists t s',
      retry_loop_of d body id ctx n a s = (Throw e, t, s') /\
      iccid (result s') = iccid (result s) /\
      status (result s') = status (result s) /\
      length (sessions t) =
        match on_page d id (a + k) at_newPage with
        | Some _ => k
        | None => S k
        end.
Proof.
  induction k as [|k IH]; intros n a s Hk H Hexit.
  - destruct n as [|n]; [lia|]. rewrite Nat.add_0_r in *.
    destruct Hexit as [Hn|(Hn & (m & Hv) & Hc)].
    + rewrite (iteration_unopened id ctx n a s e Hn), Hn.
      do 2 eexists. repeat split.
    + destruct (iteration_throws_close_rejects id ctx n a s m e Hn Hv Hc)
        as (calls & s1 & Hcalls & Hr & E).
      rewrite E, Hn. do 2 eexists. split; [reflexivity|].
      rewrite Hr. repeat split. cbn.
      now rewrite sessions_app, (sessions_page_calls _ _ Hcalls).
  - destruct n as [|n]; [lia|].
    destruct (H a ltac:(lia)) as (Hn0 & (m & Hv0) & Hc0).
    destruct (iteration_throws d body verdict contract id ctx n a s m
                Hn0 Hv0 Hc0) as (calls & s1 & Hcalls & Hh & Hr & Hstep).
    destruct (IH n (S a) s1) as (t & s' & E & Hi & Hs & Hlen).
    + lia.
    + intros j Hj. apply H. lia.
    + now replace (S a + k) with (a + S k) by lia.
    + replace (S a + k) with (a + S k) in Hlen by lia.
      eexists _, s'. split; [apply Hstep; exact E|].
      rewrite Hi, Hs, Hr. repeat split.
      cbn. rewrite sessions_app, (sessions_page_calls _ _ Hcalls). cbn.
      rewrite Hlen. now destruct (on_page d id (a + S k) at_newPage).
Qed.
End RetryExits.

(** X9. Whatever the driver does, [processIccid] starts at most
    [maxRetries] attempts: [context.newPage()] is called at most
    [maxRetries] times. *)
Theorem attempts_never_exceed_maxRetries (v : program) cfg d rnd id maxRetries :
  length (calls_at at_newPage (snd (processIccid_of v cfg d rnd id maxRetries)))
    <= maxRetries.
Proof.
  rewrite processIccid_of_eq. unfold process_of. cbv [bind].
  destruct (init_contract_of v d id (initial_store id) eq_refl)
    as (c0 & t0 & s0 & E0 & _ & H0).
  rewrite E0.
  assert (Ht0 : forall b, setup b t0 -> calls_at at_newPage t0 = [])
    by (intros b Hb; now destruct Hb).
  destruct c0 as [bc|r0|e0]; [|contradiction|].
  2:{ cbn -[calls_at]. rewrite (Ht0 false H0). cbn. lia. }
  destruct H0 as (-> & _ & Hs). cbn [fst snd].
  unfold assign_result, try_finally, try_catch. cbn [fst snd].
  match goal with
  | |- context [retry_loop_of _ _ _ _ _ _ ?s1] =>
      destruct (retry_loop_of d (attempt_body_of v cfg d rnd) id 1
                  maxRetries 0 s1) as [[c1 t1] s1'] eqn:E1
  end.
  apply (loop_summary d _ _ (body_contract_of v cfg d rnd)) in E1.
  destruct E1 as (L & _).
  unfold call, set_error_detail, return_result.
  destruct c1 as [u|r1|e1]; destruct (on_browser d id at_browser_close);
    cbn -[calls_at]; rewrite ?app_nil_r, !calls_at_app, (Ht0 true Hs);
    cbn; rewrite app_nil_r; exact L.
Qed.

Lemma fulfilled_needs_lifecycle v cfg d rnd id n r :
  fst (processIccid_of v cfg d rnd id n) = Fulfilled r ->
  setup_resolves v d id /\ on_browser d id at_browser_close = None.
Proof.
  intros H.
  destruct (on_browser d id at_launch) as [e|] eqn:El.
  { rewrite (processIccid_rejects_when_launch_fails v cfg d rnd id n e El) in H.
    discriminate. }
  destruct (on_browser d id at_newContext) as [e|] eqn:Ec.
  { exfalso. revert H.
    destruct v; cbn [processIccid_of];
      unfold ActivateSim.processIccid, Server.processIccid,
        ActivateSim.processIccid_body, Server.processIccid_body,
        ActivateSim.initBrowser, Server.initBrowser;
      cbv [bind create call]; rewrite El; cbn; rewrite Ec; discriminate. }
  assert (Hs : setup_resolves v d id).
  { split; [exact El|]. split; [exact Ec|]. destruct v; [exact I|].
    destruct (on_browser d id at_addInitScript) as [e|] eqn:Ei; [|reflexivity].
    exfalso. revert H. cbn [processIccid_of].
    unfold Server.processIccid, Server.processIccid_body, Server.initBrowser.
    cbv [bind create call]. rewrite El. cbn. rewrite Ec. cbn. rewrite Ei.
    discriminate. }
  split; [exact Hs|].
  destruct (on_browser d id at_browser_close) as [e|] eqn:Eb; [|reflexivity].
  rewrite (processIccid_rejects_when_browser_close_fails v cfg d rnd id n e Hs Eb)
    in H.
  discriminate.
Qed.

(** X10. When [context.newPage()] rejects in attempt [k], the attempts
    before it having thrown, the remaining attempts are given up:
    [processIccid] is fulfilled with status [error] and the message of
    [newPage()] as detail, and only [k] pages were ever opened. *)
Theorem newPage_rejection_ends_the_retries
  (v : program) cfg d rnd id maxRetries k e :
  k < maxRetries ->
  setup_resolves v d id ->
  on_browser d id at_browser_close = None ->
  (forall j, j < k ->
     on_page d id j at_newPage = None /\
     (exists m, verdict_of v cfg d rnd id j = Throw m) /\
     on_page d id j at_page_close = None) ->
  on_page d id k at_newPage = Some e ->
  fst (processIccid_of v cfg d rnd id maxRetries) =
    Fulfilled (mkOutcome id "error" e) /\
  length (sessions (snd (processIccid_of v cfg d rnd id maxRetries))) = k.
Proof.
  intros Hk Hs Hb H Hn.
  destruct (loop_leaves_on_rejection d _ _ (body_contract_of v cfg d rnd)
              id 1 e k maxRetries 0 (mkStore 2 0 (mkOutcome id "error" "")))
    as (t & s' & E & Hi & Hst & Hlen); auto.
  { intros j Hj. apply H. lia. }
  cbn [Nat.add] in Hlen. rewrite Hn in Hlen.
  destruct (process_after_loop v cfg d rnd id maxRetries _ _ _ Hs E) as (P1 & P2).
  rewrite P1, P2. split; [|exact Hlen].
  unfold settle_after_loop, with_detail. rewrite Hb, Hi, Hst. reflexivity.
Qed.

Lemma newPage_rejection_ends_the_retries_witness :
  fst (ActivateSim.processIccid cfg0 d_no_second_page rnd0 iccid0 3) =
    Fulfilled (mkOutcome iccid0 "error" "browserContext.newPage: Target closed") /\
  length (sessions (snd (ActivateSim.processIccid cfg0 d_no_second_page rnd0
                           iccid0 3))) = 1.
Proof.
  apply (newPage_rejection_ends_the_retries cli cfg0 d_no_second_page rnd0
           iccid0 3 1).
  - lia.
  - repeat split.
  - reflexivity.
  - intros j Hj. destruct j as [|j]; [|lia].
    split; [reflexivity|]. split; [|reflexivity].
    exists "net::ERR_NAME_NOT_RESOLVED". reflexivity.
  - reflexivity.
Defined.

(** X11. When an attempt throws and the [page.close()] of its [finally]
    rejects in turn, the remaining attempts are given up as well:
    [processIccid] is fulfilled with status [error] and, as detail, the
    message of [page.close()], not the one the attempt threw. *)
Theorem page_close_rejection_ends_the_retries
  (v : program) cfg d rnd id maxRetries k m e :
  k < maxRetries ->
  setup_resolves v d id ->
  on_browser d id at_browser_close = None ->
  (forall j, j < k ->
     on_page d id j at_newPage = None /\
     (exists m', verdict_of v cfg d rnd id j = Throw m') /\
     on_page d id j at_page_close = None) ->
  on_page d id k at_newPage = None ->
  verdict_of v cfg d rnd id k = Throw m ->
  on_page d id k at_page_close = Some e ->
  fst (processIccid_of v cfg d rnd id maxRetries) =
    Fulfilled (mkOutcome id "error" e) /\
  length (sessions (snd (processIccid_of v cfg d rnd id maxRetries))) = S k.
Proof.
  intros Hk Hs Hb H Hn Hv Hc.
  destruct (loop_leaves_on_rejection d _ _ (body_contract_of v cfg d rnd)
              id 1 e k maxRetries 0 (mkStore 2 0 (mkOutcome id "error" "")))
    as (t & s' & E & Hi & Hst & Hlen); auto.
  { intros j Hj. apply H. lia. }
  { right. cbn [Nat.add]. eauto. }
  cbn [Nat.add] in Hlen. rewrite Hn in Hlen.
  destruct (process_after_loop v cfg d rnd id maxRetries _ _ _ Hs E) as (P1 & P2).
  rewrite P1, P2. split; [|exact Hlen].
  unfold settle_after_loop, with_detail. rewrite Hb, Hi, Hst. reflexivity.
Qed.

Lemma page_close_rejection_ends_the_retries_witness :
  fst (Server.processIccid cfg0 d_goto_and_close_reject rnd0 iccid0 2) =
    Fulfilled (mkOutcome iccid0 "error" "page.close: Target crashed") /\
  length (sessions (snd (Server.processIccid cfg0 d_goto_and_close_reject rnd0
                           iccid0 2))) = 1.
Proof.
  apply (page_close_rejection_ends_the_retries server cfg0
           d_goto_and_close_reject rnd0 iccid0 2 0
           "net::ERR_NAME_NOT_RESOLVED").
  - lia.
  - repeat split.
  - reflexivity.
  - intros j Hj. lia.
  - reflexivity.
  - reflexivity.
  - reflexivity.
Defined.

(** X12. An Outcome whose status is not [error] is never made up by the
    retry loop: it is the Outcome returned by one of the [maxRetries]
    attempts, with its detail replaced by the message of [page.close()]
    when that call rejected. *)
Theorem non_error_outcome_comes_from_an_attempt
  (v : program) cfg d rnd id maxRetries r :
  fst (processIccid_of v cfg d rnd id maxRetries) = Fulfilled r ->
  status r <> "error" ->
  exists k r',
    k < maxRetries /\
    verdict_of v cfg d rnd id k = Return r' /\
    iccid r = iccid r' /\ status r = status r' /\
    (r = r' \/ on_page d id k at_page_close = Some (error_detail r)).
Proof.
  intros Hr Hst.
  destruct (fulfilled_needs_lifecycle v cfg d rnd id maxRetries r Hr) as (Hs & Hb).
  destruct (retry_loop_of d (attempt_body_of v cfg d rnd) id 1 maxRetries 0
              (mkStore 2 0 (mkOutcome id "error" ""))) as [[c1 t1] s1] eqn:E.
  destruct (process_after_loop v cfg d rnd id maxRetries _ _ _ Hs E) as (P & _).
  rewrite Hr in P. unfold settle_after_loop in P. rewrite Hb in P.
  injection P as ->.
  apply (loop_summary d _ _ (body_contract_of v cfg d rnd)) in E.
  destruct E as (_ & [(Hi & Hsame & Hc)|(k & r' & Hk & Hv & Hres & Hc)]).
  - exfalso. destruct c1 as [u|r1|e1]; cbn in Hst, Hsame.
    + now rewrite Hsame in Hst.
    + now apply (Hc r1).
    + now rewrite Hsame in Hst.
  - exists k, r'. split; [lia|]. split; [exact Hv|].
    destruct Hc as [->|(e & -> & Hclose)].
    + auto.
    + subst r'. cbn. repeat split. now right.
Qed.

Lemma non_error_outcome_comes_from_an_attempt_witness :
  exists k r',
    k < 2 /\
    ActivateSim.attempt_verdict cfg0 d_nav_fails_once rnd0 iccid0 k = Return r' /\
    iccid0 = iccid r' /\ "already_activated" = status r' /\
    (mkOutcome iccid0 "already_activated" text_activated = r' \/
     on_page d_nav_fails_once iccid0 k at_page_close = Some text_activated).
Proof.
  apply (non_error_outcome_comes_from_an_attempt cli cfg0 d_nav_fails_once rnd0
           iccid0 2 (mkOutcome iccid0 "already_activated" text_activated)).
  - reflexivity.
  - discriminate.
Defined.

(** X13. With [maxRetries] = 0 no attempt is made and no page is opened:
    the browser is launched and closed, and the Outcome is the initial
    one, status [error] with an empty detail. *)
Theorem zero_retries_give_an_empty_error (v : program) cfg d rnd id :
  setup_resolves v d id ->
  on_browser d id at_browser_close = None ->
  fst (processIccid_of v cfg d rnd id 0) = Fulfilled (mkOutcome id "error" "") /\
  calls_at at_newPage (snd (processIccid_of v cfg d rnd id 0)) = [] /\
  usage_after (snd (processIccid_of v cfg d rnd id 0)) = mkUsage 0 0.
Proof.
  intros (H1 & H2 & H3) Hb.
  destruct v; cbn [processIccid_of];
    unfold ActivateSim.processIccid, Server.processIccid,
      ActivateSim.processIccid_body, Server.processIccid_body,
      ActivateSim.initBrowser, Server.initBrowser;
    cbv [bind create call ret try_finally try_catch assign_result
         return_result ActivateSim.retry_loop Server.retry_loop];
    rewrite H1, H2, ?H3, Hb; cbn; auto.
Qed.

Lemma zero_retries_give_an_empty_error_witness :
  fst (Server.processIccid cfg0 d_all_ok rnd0 iccid0 0) =
    Fulfilled (mkOutcome iccid0 "error" "") /\
  calls_at at_newPage (snd (Server.processIccid cfg0 d_all_ok rnd0 iccid0 0)) = [] /\
  usage_after (snd (Server.processIccid cfg0 d_all_ok rnd0 iccid0 0)) =
    mkUsage 0 0.
Proof.
  apply (zero_retries_give_an_empty_error server cfg0 d_all_ok rnd0 iccid0).
  - repeat split.
  - reflexivity.
Defined.

(** ** Further properties of one attempt *)

Ltac script_leaf :=
  cbn; split;
  [ first [ now exists 0 | now exists 1 | now exists 2 | now exists 3
          | now exists 4 | now exists 5 | now exists 6 | now exists 7
          | now exists 8 | now exists 9 | now exists 10 | now exists 11
          | now exists 12 | now exists 13 | now exists 14 | now exists 15
          | now exists 16 | now exists 17 ]
  | repeat constructor ].

Ltac script_site d id k s :=
  destruct (on_page d id k s); try solve [script_leaf].

(** X14. In both programs the calls of an attempt are an initial segment
    of one fixed sequence, with the arguments of the source: go to the
    configured URL, read the title, (server variant: move the mouse, wait),
    wait for the input, type the identifier into it, scroll, wait, wait for
    and click "Next Step", await the three markers of step 1, wait for and
    click "Activate Now", await the two markers of step 2.  No call is made
    out of this order, none twice, and all go to the page of the attempt. *)
Theorem attempt_calls_follow_the_script (v : program) cfg d rnd id k page s :
  let t := calls_of (attempt_body_of v cfg d rnd id k page s) in
  (exists n, map site_and_request t = firstn n (script v cfg rnd id (draws s))) /\
  Forall (fun e => target e = Page page) t.
Proof.
  intros t. subst t. unfold calls_of, script, site_and_request, wait_marker.
  destruct v; cbn [attempt_body_of].
  - unfold ActivateSim.attempt_body.
    cbv [bind call random try_catch assign_result return_result ret].
    script_site d id k at_goto.
    script_site d id k at_title.
    script_site d id k at_wait_input.
    script_site d id k at_fill.
    script_site d id k at_scroll.
    script_site d id k at_scroll_delay.
    script_site d id k at_wait_next.
    script_site d id k at_click_next.
    script_site d id k at_step1_activated.
    script_site d id k at_step1_issue.
    script_site d id k at_step1_processing.
    script_site d id k at_wait_activate.
    script_site d id k at_click_activate.
    script_site d id k at_step2_activated.
    script_site d id k at_step2_processing.
  - unfold Server.attempt_body.
    cbv [bind call random try_catch assign_result return_result ret].
    script_site d id k at_goto.
    script_site d id k at_title.
    script_site d id k at_mouse_move.
    script_site d id k at_mouse_delay.
    script_site d id k at_wait_input.
    script_site d id k at_fill.
    script_site d id k at_scroll.
    script_site d id k at_scroll_delay.
    script_site d id k at_wait_next.
    script_site d id k at_click_next.
    script_site d id k at_step1_activated.
    script_site d id k at_step1_issue.
    script_site d id k at_step1_processing.
    script_site d id k at_wait_activate.
    script_site d id k at_click_activate.
    script_site d id k at_step2_activated.
    script_site d id k at_step2_processing.
Qed.

Ltac click_leaf :=
  cbn; intros Hclick; try (exfalso; now apply Hclick);
  repeat split; try discriminate; reflexivity.

Ltac click_site d id k s :=
  destruct (on_page d id k s) eqn:?; try solve [click_leaf].

(** X15. "Activate Now" is clicked in an attempt only after each of the
    three waits of step 1 has failed and the button has been found; it is
    then clicked exactly once. *)
Theorem activate_is_clicked_only_after_a_silent_step1
  (v : program) cfg d rnd id k page s :
  let t := calls_of (attempt_body_of v cfg d rnd id k page s) in
  calls_at at_click_activate t <> [] ->
  step1_silent d id k /\
  on_page d id k at_wait_activate = None /\
  calls_at at_click_activate t =
    [mkEvent at_click_activate (Page page)
       (click (activate_button (selectors cfg)))
       (reply_of (on_page d id k at_click_activate))].
Proof.
  intros t. subst t. unfold calls_of, step1_silent.
  destruct v; cbn [attempt_body_of].
  - unfold ActivateSim.attempt_body.
    cbv [bind call random try_catch assign_result return_result ret].
    click_site d id k at_goto.
    click_site d id k at_title.
    click_site d id k at_wait_input.
    click_site d id k at_fill.
    click_site d id k at_scroll.
    click_site d id k at_scroll_delay.
    click_site d id k at_wait_next.
    click_site d id k at_click_next.
    click_site d id k at_step1_activated.
    click_site d id k at_step1_issue.
    click_site d id k at_step1_processing.
    click_site d id k at_wait_activate.
    click_site d id k at_click_activate.
    click_site d id k at_step2_activated.
    click_site d id k at_step2_processing.
  - unfold Server.attempt_body.
    cbv [bind call random try_catch assign_result return_result ret].
    click_site d id k at_goto.
    click_site d id k at_title.
    click_site d id k at_mouse_move.
    click_site d id k at_mouse_delay.
    click_site d id k at_wait_input.
    click_site d id k at_fill.
    click_site d id k at_scroll.
    click_site d id k at_scroll_delay.
    click_site d id k at_wait_next.
    click_site d id k at_click_next.
    click_site d id k at_step1_activated.
    click_site d id k at_step1_issue.
    click_site d id k at_step1_processing.
    click_site d id k at_wait_activate.
    click_site d id k at_click_activate.
    click_site d id k at_step2_activated.
    click_site d id k at_step2_processing.
Qed.

Lemma activate_is_clicked_only_after_a_silent_step1_witness :
  step1_silent d_silent iccid0 0 /\
  on_page d_silent iccid0 0 at_wait_activate = None /\
  calls_at at_click_activate
    (calls_of (Server.attempt_body cfg0 d_silent rnd0 iccid0 0 2
                 (initial_store iccid0))) =
    [mkEvent at_click_activate (Page 2) (click "#activate") Done].
Proof.
  apply (activate_is_clicked_only_after_a_silent_step1 server cfg0 d_silent
           rnd0 iccid0 0 2 (initial_store iccid0)).
  discriminate.
Defined.

(** ** Further properties of [main] *)


Lemma stride_nth {A} (K : nat) (l : list A) : forall j m,
  j < K -> nth_error (stride K j l) m = nth_error l (j + m * K).
Proof.
  induction l as [|x l IH]; intros j m Hj; cbn.
  - now rewrite !nth_error_nil.
  - destruct j as [|j]; cbn.
    + destruct m as [|m]; [reflexivity|].
      cbn. rewrite IH by lia.
      replace (K + m * K) with (S (K - 1 + m * K)) by lia. reflexivity.
    + apply IH. lia.
Qed.

Lemma enqueue_strides K ids : forall pool pool',
  length pool = K ->
  enqueue pool ids = Some pool' ->
  forall j, j < K -> In (nth j pool [] ++ stride K j ids) pool'.
Proof.
  induction ids as [|x ids IH]; intros pool pool' Hlen H j Hj; cbn in H.
  - injection H as <-. cbn. rewrite app_nil_r. apply nth_In. lia.
  - destruct pool as [|c0 rest]; [discriminate|]. cbn in Hlen.
    assert (Hlen1 : length (rest ++ [c0 ++ [x]]) = K)
      by (rewrite length_app; cbn; lia).
    specialize (IH _ _ Hlen1 H).
    destruct j as [|j]; cbn.
    + specialize (IH (K - 1) ltac:(lia)).
      rewrite app_nth2 in IH by lia.
      replace (K - 1 - length rest) with 0 in IH by lia. cbn in IH.
      now rewrite <- app_assoc in IH.
    + specialize (IH j ltac:(lia)).
      rewrite app_nth1 in IH by lia. exact IH.
Qed.

(** X18. [main] deals the identifiers to the promises of the pool in
    turn: for every [j] below [maxWorkers], one chain of the pool runs
    the identifiers at the positions [j], [j + maxWorkers],
    [j + 2 maxWorkers], ... of the list, in that order.  The identifier at
    position [i + maxWorkers] thus waits for the one at position [i], and
    for no other. *)
Theorem main_deals_identifiers_round_robin maxWorkers iccids pool j :
  enqueue (new_pool maxWorkers) iccids = Some pool ->
  j < maxWorkers ->
  exists chain,
    In chain pool /\
    forall m, nth_error chain m = nth_error iccids (j + m * maxWorkers).
Proof.
  intros H Hj.
  exists (stride maxWorkers j iccids). split.
  - assert (Hlen : length (new_pool maxWorkers) = maxWorkers)
      by apply repeat_length.
    pose proof (enqueue_strides maxWorkers iccids _ _ Hlen H j Hj) as Hin.
    replace (nth j (new_pool maxWorkers) []) with (@nil string) in Hin;
      [exact Hin|].
    unfold new_pool. clear. revert j.
    induction maxWorkers as [|K IH]; intros [|j]; cbn; auto.
  - intros m. now apply stride_nth.
Qed.

Lemma main_deals_identifiers_round_robin_witness :
  exists chain,
    In chain [[iccid1]; [iccid2]; [iccid0; iccid3]] /\
    forall m, nth_error chain m = nth_error four_iccids (0 + m * 3).
Proof.
  apply (main_deals_identifiers_round_robin 3 four_iccids).
  - reflexivity.
  - lia.
Defined.

(** *** What the Outcomes pushed are *)

Section Pushed.
Variable proc : string -> settled * list event.
Hypothesis proc_outcome :
  forall id r, fst (proc id) = Fulfilled r -> iccid r = id.

(** Every Outcome pushed is the one [processIccid] was fulfilled with for
    its identifier. *)
Lemma pushed_are_fulfilled w0 w :
  results w0 = [] ->
  reachable proc w0 w ->
  Forall (fun r => fst (proc (iccid r)) = Fulfilled r) (results w).
Proof.
  intros H0. induction 1 as [|w1 w2 _ IH Hs].
  - rewrite H0. constructor.
  - destruct Hs as [before s after res s' res' Hs]. cbn in *.
    destruct Hs as [l id rest res|l id e todo rest res|l id rest res r Hr
                   |l id rest res m Hm]; try exact IH.
    apply Forall_app. split; [exact IH|].
    constructor; [|constructor].
    now rewrite (proc_outcome id r Hr).
Qed.

(** With a pool of one promise the Outcomes are pushed in the order of the
    identifiers. *)
Lemma single_chain_in_order iccids w :
  reachable proc (start [iccids]) w ->
  exists s, slots w = [s] /\ map iccid (results w) ++ owed s = iccids.
Proof.
  induction 1 as [|w1 w2 _ (s0 & Hsl & Ho) Hs].
  - exists (mkSlot [] Idle iccids). split; reflexivity.
  - destruct Hs as [before s after res s' res' Hs]. cbn in *.
    destruct before as [|x before]; cbn in Hsl;
      [|destruct before; discriminate].
    injection Hsl as <- ->. exists s'. split; [reflexivity|].
    destruct Hs as [l id rest res|l id e todo rest res|l id rest res r Hr
                   |l id rest res m Hm]; unfold owed in *; cbn in *;
      try exact Ho.
    rewrite map_app, <- app_assoc. cbn.
    now rewrite (proc_outcome id r Hr).
Qed.
End Pushed.

Lemma enqueue_single ids : forall chain,
  enqueue [chain] ids = Some [chain ++ ids].
Proof.
  induction ids as [|x ids IH]; intros chain; cbn.
  - now rewrite app_nil_r.
  - rewrite IH. now rewrite <- app_assoc.
Qed.

Lemma runs_in_reachable v cfg d rnd K iccids w :
  runs_in v cfg d rnd K iccids w ->
  exists pool,
    enqueue (new_pool K) iccids = Some pool /\
    reachable (callback_of v cfg d rnd) (start pool) w.
Proof.
  intros H.
  assert (H' : runs_of (callback_of v cfg d rnd) K iccids w)
    by (destruct v; exact H).
  destruct H' as (w0 & Hm & Hr).
  apply main_of_start in Hm. destruct Hm as (pool & Hp & ->). eauto.
Qed.

Lemma callback_of_iccid v cfg d rnd id r :
  fst (callback_of v cfg d rnd id) = Fulfilled r -> iccid r = id.
Proof. intros H. now apply (callback_of_outcome v cfg d rnd id r). Qed.

(** X19. With [maxWorkers] = 1, the default of the server variant, the
    Outcomes are pushed in the order of the identifiers: at every state of
    the run, the identifiers of the Outcomes pushed so far are an initial
    segment of the list. *)
Theorem single_worker_pushes_in_input_order (v : program) cfg d rnd iccids w :
  runs_in v cfg d rnd 1 iccids w ->
  exists rest, iccids = map iccid (results w) ++ rest.
Proof.
  intros H. apply runs_in_reachable in H. destruct H as (pool & Hp & Hr).
  cbn in Hp. rewrite enqueue_single in Hp. injection Hp as <-.
  destruct (single_chain_in_order _ (callback_of_iccid v cfg d rnd) iccids w Hr)
    as (s & _ & Ho).
  exists (owed s). now symmetry.
Qed.

Lemma single_worker_pushes_in_input_order_witness :
  exists rest, [iccid0; iccid1] = map iccid (results w_both_done) ++ rest.
Proof.
  apply (single_worker_pushes_in_input_order server cfg0 d_nav_fails_for_second
           rnds0).
  exists (start [[iccid0; iccid1]]). split; [reflexivity|].
  set (p := Server.callback cfg0 d_nav_fails_for_second rnds0).
  exact (reachable_trans p _ _ _
           (reachable_callback p [] [] [] iccid0 [iccid1] []
              (mkOutcome iccid0 "already_activated" text_activated) eq_refl)
           (reachable_callback p [] [] (snd (p iccid0)) iccid1 []
              [mkOutcome iccid0 "already_activated" text_activated]
              (mkOutcome iccid1 "error" "net::ERR_CONNECTION_RESET") eq_refl)).
Defined.

(** X20. The Outcomes collected do not depend on how the chains
    interleave nor on [maxWorkers]: once [Promise.all(pool)] has resolved,
    they are, up to their order, the values [processIccid] was fulfilled
    with for the identifiers of the list. *)
Theorem collected_outcomes_do_not_depend_on_the_schedule
  (v : program) cfg d rnd maxWorkers iccids w :
  runs_in v cfg d rnd maxWorkers iccids w ->
  completed w ->
  Permutation (map Fulfilled (results w))
              (map (fun id => fst (callback_of v cfg d rnd id)) iccids).
Proof.
  intros H Hc.
  destruct (completed_run_outcomes v cfg d rnd maxWorkers iccids w H Hc)
    as (Hp & _).
  apply runs_in_reachable in H. destruct H as (pool & _ & Hr).
  pose proof (pushed_are_fulfilled _ (callback_of_iccid v cfg d rnd)
                (start pool) w eq_refl Hr) as Hf.
  apply (Permutation_map (fun id => fst (callback_of v cfg d rnd id))) in Hp.
  rewrite map_map in Hp.
  erewrite map_ext_Forall in Hp; [exact Hp|].
  eapply Forall_impl; [|exact Hf]. intros r Hr'. cbn. now symmetry.
Qed.

Lemma collected_outcomes_do_not_depend_on_the_schedule_witness :
  Permutation (map Fulfilled (results w_both_done))
    (map (fun id => fst (Server.callback cfg0 d_nav_fails_for_second rnds0 id))
         [iccid0; iccid1]).
Proof.
  apply (collected_outcomes_do_not_depend_on_the_schedule server cfg0
           d_nav_fails_for_second rnds0 1 [iccid0; iccid1] w_both_done).
  - exists (start [[iccid0; iccid1]]). split; [reflexivity|].
    set (p := Server.callback cfg0 d_nav_fails_for_second rnds0).
    exact (reachable_trans p _ _ _
             (reachable_callback p [] [] [] iccid0 [iccid1] []
                (mkOutcome iccid0 "already_activated" text_activated) eq_refl)
             (reachable_callback p [] [] (snd (p iccid0)) iccid1 []
                [mkOutcome iccid0 "already_activated" text_activated]
                (mkOutcome iccid1 "error" "net::ERR_CONNECTION_RESET") eq_refl)).
  - repeat constructor.
Defined.

(** X21. [loadIccids] and [main] together: whatever values the file holds,
    repeated or not, no identifier ever has two Outcomes, and every Outcome
    is that of a value of the file. *)
Theorem no_value_of_the_file_is_processed_twice
  (v : program) cfg d rnd maxWorkers values w :
  runs_in v cfg d rnd maxWorkers (loadIccids values) w ->
  NoDup (map iccid (results w)) /\
  Forall (fun r => In (iccid r) values) (results w).
Proof.
  intros H. split.
  - apply (no_identifier_gets_two_outcomes v cfg d rnd maxWorkers
             (loadIccids values) w); [|exact H].
    unfold loadIccids. rewrite (unique_unseen _ String.eqb_spec).
    apply (unseen_NoDup _ String.eqb_spec).
  - apply runs_in_inv in H. destruct H as [_ _ Hp _].
    apply Forall_forall. intros r Hr.
    assert (Hin : In (iccid r) (loadIccids values)).
    { apply (Permutation_in _ Hp). apply in_or_app. left. now apply in_map. }
    unfold loadIccids in Hin. rewrite (unique_unseen _ String.eqb_spec) in Hin.
    now apply (unseen_In _ String.eqb_spec) in Hin.
Qed.

Lemma no_value_of_the_file_is_processed_twice_witness :
  loadIccids [iccid0; iccid1; iccid0] = [iccid0; iccid1] /\
  NoDup (map iccid (results w_both_done)) /\
  Forall (fun r => In (iccid r) [iccid0; iccid1; iccid0]) (results w_both_done).
Proof.
  split; [reflexivity|].
  apply (no_value_of_the_file_is_processed_twice server cfg0
           d_nav_fails_for_second rnds0 1 [iccid0; iccid1; iccid0] w_both_done).
  exists (start [[iccid0; iccid1]]). split; [reflexivity|].
  set (p := Server.callback cfg0 d_nav_fails_for_second rnds0).
  exact (reachable_trans p _ _ _
           (reachable_callback p [] [] [] iccid0 [iccid1] []
              (mkOutcome iccid0 "already_activated" text_activated) eq_refl)
           (reachable_callback p [] [] (snd (p iccid0)) iccid1 []
              [mkOutcome iccid0 "already_activated" text_activated]
              (mkOutcome iccid1 "error" "net::ERR_CONNECTION_RESET") eq_refl)).
Defined.

(** X22. Once [Promise.all(pool)] has resolved, the identifiers reported
    as invalid are exactly the identifiers of the list whose
    [processIccid] was fulfilled with status [invalid_iccid], and a report
    is made exactly when there is one. *)
Theorem invalid_report_lists_the_invalid_identifiers
  (v : program) cfg d rnd maxWorkers iccids w :
  runs_in v cfg d rnd maxWorkers iccids w ->
  completed w ->
  (forall id,
     In id (invalidIccids (results w)) <->
     In id iccids /\
     exists r, fst (callback_of v cfg d rnd id) = Fulfilled r /\
               status r = "invalid_iccid") /\
  (reports_invalid (results w) = true <-> invalidIccids (results w) <> []).
Proof.
  intros H Hc.
  destruct (completed_run_outcomes v cfg d rnd maxWorkers iccids w H Hc)
    as (Hp & _).
  apply runs_in_reachable in H. destruct H as (pool & _ & Hr).
  pose proof (pushed_are_fulfilled _ (callback_of_iccid v cfg d rnd)
                (start pool) w eq_refl Hr) as Hf.
  rewrite Forall_forall in Hf.
  split.
  - intros id. unfold invalidIccids. rewrite in_map_iff. split.
    + intros (r & <- & Hin). apply filter_In in Hin. destruct Hin as (Hin & Hs).
      split.
      * apply (Permutation_in _ Hp). now apply in_map.
      * exists r. split; [now apply Hf|]. now apply String.eqb_eq.
    + intros (Hin & r & Hfr & Hs).
      apply (Permutation_in _ (Permutation_sym Hp)) in Hin.
      apply in_map_iff in Hin. destruct Hin as (r' & <- & Hin').
      exists r'. split; [reflexivity|]. apply filter_In. split; [exact Hin'|].
      rewrite (Hf r' Hin') in Hfr. injection Hfr as <-.
      now apply String.eqb_eq.
  - unfold reports_invalid. destruct (invalidIccids (results w)); cbn.
    + split; [discriminate|intros Hn; now contradiction Hn].
    + split; [discriminate|reflexivity].
Qed.

Lemma invalid_report_lists_the_invalid_identifiers_witness :
  invalidIccids (results w_second_invalid) = [iccid1] /\
  (forall id,
     In id (invalidIccids (results w_second_invalid)) <->
     In id [iccid0; iccid1] /\
     exists r, fst (Server.callback cfg0 d_second_is_invalid rnds0 id) =
                 Fulfilled r /\
               status r = "invalid_iccid") /\
  (reports_invalid (results w_second_invalid) = true <->
   invalidIccids (results w_second_invalid) <> []).
Proof.
  split; [reflexivity|].
  apply (invalid_report_lists_the_invalid_identifiers server cfg0
           d_second_is_invalid rnds0 1 [iccid0; iccid1] w_second_invalid).
  - exists (start [[iccid0; iccid1]]). split; [reflexivity|].
    set (p := Server.callback cfg0 d_second_is_invalid rnds0).
    exact (reachable_trans p _ _ _
             (reachable_callback p [] [] [] iccid0 [iccid1] []
                (mkOutcome iccid0 "already_activated" text_activated) eq_refl)
             (reachable_callback p [] [] (snd (p iccid0)) iccid1 []
                [mkOutcome iccid0 "already_activated" text_activated]
                (mkOutcome iccid1 "invalid_iccid" text_issue) eq_refl)).
  - repeat constructor.
Defined.

(** X23. A [browser.close()] that rejects has the effect of a failed
    launch, at the other end of [processIccid]: the Outcome of the
    identifier, though computed, is never pushed, the identifiers chained
    behind it in the pool are never processed, and [Promise.all(pool)]
    does not resolve. *)
Theorem browser_close_rejection_loses_the_outcome
  (v : program) cfg d rnd maxWorkers iccids pool chain pre bad post e w :
  NoDup iccids ->
  enqueue (new_pool maxWorkers) iccids = Some pool ->
  In chain pool ->
  chain = pre ++ bad :: post ->
  setup_resolves v d bad ->
  on_browser d bad at_browser_close = Some e ->
  runs_in v cfg d rnd maxWorkers iccids w ->
  (forall x, In x (bad :: post) -> ~ In x (map iccid (results w))) /\
  ~ completed w.
Proof.
  intros Hnd Hp Hin Hchain Hs Hb Hruns.
  assert (Hinv := runs_in_inv _ _ _ _ _ _ _ Hruns).
  destruct (runs_in_reachable _ _ _ _ _ _ _ Hruns) as (pool' & Hp' & Hr).
  rewrite Hp in Hp'. injection Hp' as <-.
  assert (Hbad : fst (callback_of v cfg d rnd bad) = Rejected e).
  { destruct v; cbn [callback_of];
      unfold ActivateSim.callback, Server.callback.
    - exact (processIccid_rejects_when_browser_close_fails cli _ _ _ _ _ _ Hs Hb).
    - exact (processIccid_rejects_when_browser_close_fails server _ _ _ _ _ _
               Hs Hb). }
  destruct (rejected_callback_stays_owed _ pool w chain pre bad post e
              Hr Hin Hchain Hbad) as (s & mid & Hsl & Hs').
  destruct Hinv as [_ _ Hperm _].
  assert (Howed : forall x, In x (bad :: post) ->
                            In x (concat (map owed (slots w)))).
  { intros x Hx. apply in_concat. exists (owed s).
    split; [now apply in_map|]. rewrite Hs'. apply in_or_app. now right. }
  split.
  - intros x Hx Hres.
    apply (Permutation_NoDup (Permutation_sym Hperm)) in Hnd.
    specialize (Howed x Hx). revert Hnd Hres Howed. clear.
    induction (map iccid (results w)) as [|y l IH]; [contradiction|].
    cbn. intros Hnd Hres Howed. inversion Hnd as [|? ? Hy Hnd']; subst.
    destruct Hres as [->|Hres]; [|now apply IH].
    apply Hy. apply in_or_app. now right.
  - intros Hc. unfold completed in Hc. rewrite Forall_forall in Hc.
    destruct (Hc s Hsl) as (Hd & Hpend).
    unfold owed in Hs'. rewrite Hd, Hpend in Hs'.
    now destruct mid.
Qed.

Lemma browser_close_rejection_loses_the_outcome_witness :
  fst (fst (Server.retry_loop cfg0 d_close_fails_for_first rnd0 iccid0 1 2 0
              (mkStore 2 0 (mkOutcome iccid0 "error" "")))) =
    Return (mkOutcome iccid0 "already_activated" text_activated) /\
  (forall x, In x [iccid0; iccid1] -> ~ In x (map iccid (results w_close_broken))) /\
  ~ completed w_close_broken.
Proof.
  split; [reflexivity|].
  apply (browser_close_rejection_loses_the_outcome server cfg0
           d_close_fails_for_first rnds0 1 [iccid0; iccid1]
           [[iccid0; iccid1]] [iccid0; iccid1] [] iccid0 [iccid1]
           "browser.close: Connection closed").
  - repeat constructor; cbn; intuition discriminate.
  - reflexivity.
  - now left.
  - reflexivity.
  - repeat split.
  - reflexivity.
  - exists (start [[iccid0; iccid1]]). split; [reflexivity|].
    set (p := Server.callback cfg0 d_close_fails_for_first rnds0).
    eapply reach_step.
    + eapply reachable_trans.
      * eapply reach_step; [apply reach_here|].
        apply (step_slot p [] _ []). apply step_begin.
      * apply (reachable_awaits p [] [] iccid0 [iccid1] [] (snd (p iccid0)) []).
    + apply (step_slot p [] _ []).
      apply (step_reject p _ iccid0 [iccid1] []
               "browser.close: Connection closed").
      reflexivity.
Defined.

(** *** Runs that cannot get stuck *)

Section Finishing.
Variable proc : string -> settled * list event.

Definition can_finish (s : slot) : Prop :=
  (forall id m, doing s <> Broken id m) /\
  Forall (fun id => is_fulfilled (fst (proc id)) = true) (owed s).

Lemma finish_slot before after s res :
  can_finish s ->
  exists l' res',
    reachable proc (mkRun (before ++ s :: after) res)
                   (mkRun (before ++ mkSlot l' Idle [] :: after) res').
Proof.
  destruct s as [l ph pend]. intros (Hb & Ho). unfold owed in Ho. cbn in *.
  destruct ph as [|id todo|id m].
  - now apply drain_chain.
  - inversion Ho as [|? ? Hid Hrest]; subst.
    destruct (fst (proc id)) as [r|m] eqn:E; [|discriminate].
    destruct (drain_chain proc before after pend (l ++ todo) (res ++ [r]) Hrest)
      as (l' & res' & R).
    exists l', res'.
    eapply reachable_trans; [|exact R].
    eapply reach_step; [apply reachable_awaits|].
    apply step_slot. now apply step_push.
  - now contradiction (Hb id m).
Qed.

Lemma finish_slots todo : forall finished res,
  Forall fulfilled_slot finished ->
  Forall can_finish todo ->
  exists w, reachable proc (mkRun (finished ++ todo) res) w /\ completed w.
Proof.
  induction todo as [|s todo IH]; intros finished res Hf Ht.
  - exists (mkRun (finished ++ []) res). split; [constructor|].
    unfold completed. cbn. now rewrite app_nil_r.
  - inversion Ht as [|? ? Hs Hrest]; subst.
    destruct (finish_slot finished todo s res Hs) as (l' & res' & R).
    destruct (IH (finished ++ [mkSlot l' Idle []]) res') as (w & Rw & Cw).
    + apply Forall_app. split; [exact Hf|]. now repeat constructor.
    + exact Hrest.
    + exists w. split; [|exact Cw].
      eapply reachable_trans; [exact R|].
      now rewrite <- app_assoc in Rw.
Qed.
End Finishing.

(** X24. When the browser of every identifier of the list can be
    launched, set up and closed, a run never gets stuck, whatever else
    fails: at every state no chain is rejected, and the run can go on until
    [Promise.all(pool)] resolves, with one Outcome per identifier. *)
Theorem run_can_always_be_completed
  (v : program) cfg d rnd maxWorkers iccids w :
  (forall id, In id iccids -> lifecycle_failure v d id = None) ->
  runs_in v cfg d rnd maxWorkers iccids w ->
  Forall (fun s => forall id m, doing s <> Broken id m) (slots w) /\
  exists w',
    reachable (callback_of v cfg d rnd) w w' /\ completed w' /\
    Permutation (map iccid (results w')) iccids.
Proof.
  intros Hd Hruns.
  set (p := callback_of v cfg d rnd).
  assert (Hful : forall id, In id iccids -> is_fulfilled (fst (p id)) = true).
  { intros id Hid. specialize (Hd id Hid).
    assert (Hs : setup_resolves v d id /\
                 on_browser d id at_browser_close = None).
    { unfold lifecycle_failure in Hd. unfold setup_resolves.
      destruct (on_browser d id at_launch); [discriminate|].
      destruct (on_browser d id at_newContext); [discriminate|].
      destruct v; [tauto|].
      destruct (on_browser d id at_addInitScript); [discriminate|]. tauto. }
    destruct Hs as (Hs & Hb).
    destruct (processIccid_fulfilled_when_browser_lifecycle_resolves
                v cfg d (rnd id) id default_maxRetries Hs Hb) as (r & Hf & _).
    subst p. destruct v; cbn [callback_of processIccid_of] in *;
      unfold ActivateSim.callback, Server.callback; now rewrite Hf. }
  destruct (runs_in_reachable _ _ _ _ _ _ _ Hruns) as (pool & Hp & Hr).
  fold p in Hr. clear Hruns.
  assert (Hinv : forall w1, reachable p (start pool) w1 ->
                            run_inv p iccids maxWorkers w1).
  { intros w1 Hw1. eapply run_inv_reachable; eauto; subst p;
      eauto using callback_of_calls, callback_of_outcome. }
  assert (Howed : forall w1, reachable p (start pool) w1 ->
                  forall s id, In s (slots w1) -> In id (owed s) ->
                               In id iccids).
  { intros w1 Hw1 s id Hs Hid.
    destruct (Hinv w1 Hw1) as [_ _ Hperm _].
    apply (Permutation_in _ Hperm). apply in_or_app. right.
    apply in_concat. exists (owed s). split; [now apply in_map|exact Hid]. }
  assert (Hnb : Forall (fun s => forall id m, doing s <> Broken id m) (slots w)).
  { induction Hr as [|w1 w2 Hr1 IH Hs].
    - cbn. apply Forall_forall. intros s Hs.
      apply in_map_iff in Hs. now destruct Hs as (c & <- & _).
    - pose proof (Howed w1 Hr1) as Ho1.
      destruct Hs as [before s after res s' res' Hs]. cbn in *.
      apply Forall_app in IH. destruct IH as (I1 & I2).
      inversion I2 as [|? ? Is I2']; subst.
      apply Forall_app. split; [exact I1|]. constructor; [|exact I2'].
      destruct Hs as [l id rest res|l id e todo rest res|l id rest res r Hr'
                     |l id rest res m Hm]; cbn; try (intros ? ?; discriminate).
      exfalso.
      assert (Hin : In id iccids).
      { apply (Ho1 (mkSlot l (Busy id []) rest) id).
        - apply in_or_app. right. now left.
        - unfold owed. cbn. now left. }
      apply Hful in Hin. now rewrite Hm in Hin. }
  split; [exact Hnb|].
  assert (Hfin : Forall (can_finish p) (slots w)).
  { apply Forall_forall. intros s Hs. split.
    - rewrite Forall_forall in Hnb. now apply Hnb.
    - apply Forall_forall. intros id Hid. apply Hful.
      now apply (Howed w Hr s id). }
  destruct w as [ss res].
  destruct (finish_slots p ss [] res (Forall_nil _) Hfin) as (w' & Rw & Cw).
  exists w'. split; [exact Rw|]. split; [exact Cw|].
  assert (Hr' : reachable p (start pool) w')
    by (eapply reachable_trans; eauto).
  destruct (Hinv w' Hr') as [_ _ Hperm _].
  unfold completed in Cw.
  now rewrite (completed_owes_nothing (slots w') Cw), app_nil_r in Hperm.
Qed.

Lemma run_can_always_be_completed_witness :
  Forall (fun s => forall id m, doing s <> Broken id m) (slots w_both_launched) /\
  exists w',
    reachable (ActivateSim.callback cfg0 d_all_ok rnds0) w_both_launched w' /\
    completed w' /\
    Permutation (map iccid (results w')) [iccid0; iccid1].
Proof.
  apply (run_can_always_be_completed cli cfg0 d_all_ok rnds0 2
           [iccid0; iccid1] w_both_launched).
  - intros id _. reflexivity.
  - exists (start [[iccid0]; [iccid1]]). split; [reflexivity|].
    set (p := ActivateSim.callback cfg0 d_all_ok rnds0).
    eapply reach_step; [eapply reach_step; [eapply reach_step;
      [eapply reach_step; [apply reach_here|]|]|]|].
    + apply (step_slot p [] _ [_]). apply step_begin.
    + apply (step_slot p [] _ [_]).
      apply (step_await p [] iccid0 _ (skipn 1 (snd (p iccid0)))).
    + apply (step_slot p [_] _ []). apply step_begin.
    + apply (step_slot p [_] _ []).
      apply (step_await p [] iccid1 _ (skipn 1 (snd (p iccid1)))).
Defined.

(** ** The marker text and the Outcome of [processIccid] *)

(** C10, as the code has it.  In both programs [already_activated] and
    [success] are decided by waits for one and the same text, "Your SIM
    card has been successfully activated".

    Whatever the driver does, when [processIccid] returns an Outcome with
    one of these two statuses, the Outcome comes from one attempt, and it
    is [already_activated] exactly when the text showed up in the wait of
    step 1 of that attempt, which made no click on "Activate Now" and
    ended on that wait, and [success] exactly when no marker of step 1
    showed up and the text showed up in the wait that follows the click.
    The detail of the Outcome is that text, unless the [page.close()] that
    ends the attempt rejected: the detail is then the message of
    [page.close()].

    Conversely, when attempt [k] is started, its calls before the first
    marker resolve, the button can be clicked when it is reached and the
    final [browser.close()] resolves, [processIccid] does return an
    Outcome, decided in attempt [k] in this way. *)
Theorem activated_text_decides_by_position
  (v : program) cfg d rnd id maxRetries :
  let x := processIccid_of v cfg d rnd id maxRetries in
  (forall r,
     fst x = Fulfilled r ->
     status r = "already_activated" \/ status r = "success" ->
     exists k,
       k < maxRetries /\
       (status r = "already_activated" <->
          on_page d id k at_step1_activated = None) /\
       (status r = "success" <->
          step1_silent d id k /\ on_page d id k at_step2_activated = None) /\
       (error_detail r = "Your SIM card has been successfully activated" \/
        on_page d id k at_page_close = Some (error_detail r)) /\
       forall page s,
         let a := attempt_body_of v cfg d rnd id k page s in
         (status r = "already_activated" ->
            calls_at at_click_activate (calls_of a) = [] /\
            lastn 1 (calls_of a) =
              [mkEvent at_step1_activated (Page page)
                 (waitForSelector
                    "text=Your SIM card has been successfully activated"
                    short_wait) Done]) /\
         (status r = "success" ->
            lastn 2 (calls_of a) =
              [mkEvent at_click_activate (Page page)
                 (click (activate_button (selectors cfg))) Done;
               mkEvent at_step2_activated (Page page)
                 (waitForSelector
                    "text=Your SIM card has been successfully activated"
                    short_wait) Done])) /\
  (forall k,
     attempt_starts v cfg d rnd id maxRetries k ->
     resolves d id k (prelude_of v) ->
     (step1_silent d id k ->
      on_page d id k at_wait_activate = None /\
      on_page d id k at_click_activate = None) ->
     on_browser d id at_browser_close = None ->
     exists r,
       fst x = Fulfilled r /\
       (status r = "already_activated" <->
          on_page d id k at_step1_activated = None) /\
       (status r = "success" <->
          step1_silent d id k /\ on_page d id k at_step2_activated = None) /\
       (status r = "already_activated" \/ status r = "success" ->
          error_detail r =
            match on_page d id k at_page_close with
            | None => "Your SIM card has been successfully activated"
            | Some e => e
            end)).
Proof.
  intros x. subst x. split.
  - intros r Hr Hst.
    destruct (fulfilled_needs_lifecycle v cfg d rnd id maxRetries r Hr)
      as (Hs & Hb).
    destruct (retry_loop_of d (attempt_body_of v cfg d rnd) id 1 maxRetries 0
                (mkStore 2 0 (mkOutcome id "error" ""))) as [[c1 t1] s1] eqn:E.
    destruct (process_after_loop v cfg d rnd id maxRetries _ _ _ Hs E) as (P & _).
    rewrite Hr in P. unfold settle_after_loop in P. rewrite Hb in P.
    injection P as ->.
    apply (loop_summary d _ _ (body_contract_of v cfg d rnd)) in E.
    destruct E as (_ & [(Hi & Hsame & Hc)|(k & r0 & Hk & Hv & Hres & Hc)]).
    { exfalso.
      assert (He : status (match c1 with
                           | Normal _ => result s1
                           | Return r' => r'
                           | Throw e => with_detail (result s1) e
                           end) = "error").
      { destruct c1 as [u|r1|e1]; cbn; try exact Hsame.
        now contradiction (Hc r1). }
      rewrite He in Hst. destruct Hst; discriminate. }
    assert (Ha : forall page s,
               completion_of (attempt_body_of v cfg d rnd id k page s) =
               Return r0).
    { intros page s.
      destruct (body_contract_of v cfg d rnd id k page s) as (t & s' & Eb & _).
      unfold completion_of. rewrite Eb. exact Hv. }
    assert (Hsd : status (match c1 with
                          | Normal _ => result s1
                          | Return r' => r'
                          | Throw e => with_detail (result s1) e
                          end) = status r0 /\
                  (error_detail (match c1 with
                                 | Normal _ => result s1
                                 | Return r' => r'
                                 | Throw e => with_detail (result s1) e
                                 end) = error_detail r0 \/
                   on_page d id k at_page_close =
                     Some (error_detail (match c1 with
                                         | Normal _ => result s1
                                         | Return r' => r'
                                         | Throw e => with_detail (result s1) e
                                         end)))).
    { destruct Hc as [->|(e & -> & Hclose)]; cbn.
      - auto.
      - rewrite Hres. split; [reflexivity|]. now right. }
    destruct Hsd as (Hst0 & Hd0).
    rewrite Hst0 in *.
    destruct (returned_status_by_position v cfg d rnd id k 0 (initial_store id)
                r0 (Ha _ _)) as (A1 & A2 & A3 & A4).
    exists k. split; [lia|]. split; [exact A1|]. split; [exact A2|].
    split.
    + destruct Hd0 as [Hd0|Hd0]; [left|now right].
      rewrite Hd0. destruct Hst as [X|X]; [now destruct (A3 X)|now destruct (A4 X)].
    + intros page s a. subst a.
      destruct (returned_status_by_position v cfg d rnd id k page s r0 (Ha _ _))
        as (_ & _ & B3 & B4).
      split; [intros X; now destruct (B3 X) as (_ & ? & ?)|].
      intros X; now destruct (B4 X).
  - intros k (Hk & Hs & H & Hn) Hp Hb Hc.
    destruct (attempt_returns v cfg d rnd id k Hp Hb) as (r0 & Hv).
    assert (Ha : completion_of
                   (attempt_body_of v cfg d rnd id k 0 (initial_store id)) =
                 Return r0).
    { destruct (body_contract_of v cfg d rnd id k 0 (initial_store id))
        as (t & s' & E & _).
      unfold completion_of. rewrite E. exact Hv. }
    destruct (returned_status_by_position v cfg d rnd id k 0 (initial_store id)
                r0 Ha) as (A1 & A2 & A3 & A4).
    destruct (loop_returns d _ _ (body_contract_of v cfg d rnd) id 1 r0 k
                maxRetries 0 (mkStore 2 0 (mkOutcome id "error" "")))
      as (t & s' & E & _ & Hres); auto.
    { intros j Hj. apply H. lia. }
    cbn [Nat.add] in E.
    destruct (process_after_loop v cfg d rnd id maxRetries _ _ _ Hs E)
      as (P1 & _).
    unfold settle_after_loop in P1. rewrite Hres, Hc in P1.
    exists (match on_page d id k at_page_close with
            | None => r0
            | Some e => with_detail r0 e
            end).
    split; [rewrite P1; now destruct (on_page d id k at_page_close)|].
    assert (St : status (match on_page d id k at_page_close with
                         | None => r0
                         | Some e => with_detail r0 e
                         end) = status r0)
      by now destruct (on_page d id k at_page_close).
    rewrite St. split; [exact A1|]. split; [exact A2|].
    intros X.
    assert (D : error_detail r0 =
                "Your SIM card has been successfully activated")
      by (destruct X as [X|X]; [now destruct (A3 X)|now destruct (A4 X)]).
    now destruct (on_page d id k at_page_close).
Qed.

(** The command line variant on a page that shows the text at once, and
    the server variant on a page that shows it only after the click. *)
Lemma activated_text_decides_by_position_witness :
  (exists r,
     fst (ActivateSim.processIccid cfg0 d_all_ok rnd0 iccid0 2) = Fulfilled r /\
     status r = "already_activated" /\
     error_detail r = "Your SIM card has been successfully activated") /\
  (exists r,
     fst (Server.processIccid cfg0 d_step1_silent rnd0 iccid0 2) = Fulfilled r /\
     status r = "success" /\
     error_detail r = "Your SIM card has been successfully activated").
Proof.
  split.
  - destruct (activated_text_decides_by_position cli cfg0 d_all_ok rnd0
                iccid0 2) as (_ & B).
    destruct (B 0) as (r & E & A1 & _ & D).
    + split; [lia|]. split; [repeat split|]. split; [|reflexivity].
      intros j Hj. lia.
    + repeat constructor.
    + intros (X & _). now contradiction X.
    + reflexivity.
    + exists r. split; [exact E|].
      assert (S1 : status r = "already_activated") by (apply A1; reflexivity).
      split; [exact S1|]. apply D. now left.
  - destruct (activated_text_decides_by_position server cfg0 d_step1_silent
                rnd0 iccid0 2) as (_ & B).
    destruct (B 0) as (r & E & _ & A2 & D).
    + split; [lia|]. split; [repeat split|]. split; [|reflexivity].
      intros j Hj. lia.
    + repeat constructor.
    + intros _. split; reflexivity.
    + reflexivity.
    + exists r. split; [exact E|].
      assert (S2 : status r = "success").
      { apply A2. split; [repeat split; discriminate|reflexivity]. }
      split; [exact S2|]. apply D. now right.
Defined.

(** C10, as stated, fails: the text shows up after the click, the status
    is [success], and the detail of the Outcome is not that text, the
    [page.close()] of the attempt having rejected. *)
Lemma marker_text_is_not_the_detail_when_page_close_rejects :
  on_page d_success_page_close_rejects iccid0 0 at_step2_activated = None /\
  fst (Server.processIccid cfg0 d_success_page_close_rejects rnd0 iccid0 2) =
    Fulfilled (mkOutcome iccid0 "success"
                 "Target page, context or browser has been closed") /\
  "Target page, context or browser has been closed" <>
  "Your SIM card has been successfully activated".
Proof.
  split; [reflexivity|]. split; [reflexivity|]. discriminate.
Qed.

